(** * Documint: a shallow embedding of the retrieval-augmented QA pipeline

    The development follows the layout of the Python package [rag]:
    - [PyStr]      the fragment of Python's [str] and [re] the package uses;
    - [Chunking]   [rag/chunking.py]  ([TokenChunker]);
    - [Retrieval]  [rag/retrieval.py] ([Retriever]);
    - [Generation] [rag/generation.py] ([GroqGenerator]);
    - [Parsing]    [rag/parsing.py]   ([parse_file] and its handlers);
    - [Cleaning]   [rag/cleaning.py]  ([clean_text]);
    - [Config]     [rag/config.py]    ([RAGConfig] and [validate]);
    - [App]        [app/streamlit_app.py] (the upload block and the question
                   block, which call the package).

    Python [int] is [Z]; a Python [str] is the list of its Unicode code
    points ([list N]); a raised exception is the [Raise] branch of [result];
    dictionaries are [gmap]s and sets are [gset]s. *)

From Stdlib Require Import ZArith NArith QArith List Bool Lia String Ascii DecimalN.
From stdpp Require Import base option list gmap.

Local Open Scope Z_scope.

(** ** Exceptions and the error monad *)

Inductive exn : Type :=
  | ValueError (msg : list N)
  | AssertionError (msg : list N)
  | EnvironmentError (msg : list N)
  | ExternalError (msg : list N).

Inductive result (A : Type) : Type :=
  | Ok (a : A)
  | Raise (e : exn).
Arguments Ok {A} a.
Arguments Raise {A} e.

Global Instance result_ret : MRet result := fun A a => Ok a.

Global Instance result_bind : MBind result := fun A B k r =>
  match r with
  | Ok a => k a
  | Raise e => Raise e
  end.

Definition is_ok {A} (r : result A) : bool :=
  match r with Ok _ => true | Raise _ => false end.

(** ** Python strings *)

Module PyStr.

(** A string literal of the source, as code points. *)
Fixpoint lit (s : string) : list N :=
  match s with
  | EmptyString => []
  | String a s' => N_of_ascii a :: lit s'
  end.

(** [str.isspace] on one code point; also the class [\s] of [re] on [str]
    patterns. *)
Definition isspace (c : N) : bool :=
  ((9 <=? c) && (c <=? 13) || (28 <=? c) && (c <=? 31) || (c =? 32)
   || (c =? 0x85) || (c =? 0xA0) || (c =? 0x1680)
   || (0x2000 <=? c) && (c <=? 0x200A)
   || (c =? 0x2028) || (c =? 0x2029) || (c =? 0x202F) || (c =? 0x205F)
   || (c =? 0x3000))%N.

(** The line boundaries of [str.splitlines]. *)
Definition islinebreak (c : N) : bool :=
  ((10 <=? c) && (c <=? 13) || (28 <=? c) && (c <=? 30)
   || (c =? 0x85) || (c =? 0x2028) || (c =? 0x2029))%N.

(** [s.lstrip()], [s.rstrip()], [s.strip()] *)
Fixpoint lstrip (s : list N) : list N :=
  match s with
  | [] => []
  | c :: s' => if isspace c then lstrip s' else s
  end.

Definition rstrip (s : list N) : list N := rev (lstrip (rev s)).

Definition strip (s : list N) : list N := rstrip (lstrip s).

(** [sep.join(parts)] *)
Fixpoint join (sep : list N) (parts : list (list N)) : list N :=
  match parts with
  | [] => []
  | [p] => p
  | p :: ps => p ++ sep ++ join sep ps
  end.

(** [re.findall(r"\S+", s)]: the maximal runs of non-whitespace. *)
Fixpoint findall_nonspace (s : list N) : list (list N) :=
  match s with
  | [] => []
  | c :: s' =>
      if isspace c then findall_nonspace s'
      else match s' with
           | [] => [[c]]
           | c' :: _ =>
               if isspace c' then [c] :: findall_nonspace s'
               else match findall_nonspace s' with
                    | w :: ws => (c :: w) :: ws
                    | [] => [[c]]
                    end
           end
  end.

(** [s.splitlines()]: a line ends at a line boundary ([\r\n] counts once);
    there is no empty last line after a final boundary. *)
Fixpoint splitlines (s : list N) : list (list N) :=
  match s with
  | [] => []
  | c :: s' =>
      if islinebreak c then
        [] :: match c, s' with
              | 13%N, 10%N :: s'' => splitlines s''
              | _, _ => splitlines s'
              end
      else match splitlines s' with
           | [] => [[c]]
           | l :: ls => (c :: l) :: ls
           end
  end.

(** [s.startswith(p)] *)
Fixpoint startswith (s p : list N) : bool :=
  match p, s with
  | [], _ => true
  | _ :: _, [] => false
  | a :: p', b :: s' => (a =? b)%N && startswith s' p'
  end.

(** [l[a:b]] with Python's treatment of negative and out-of-range bounds. *)
Definition slice_bound (len i : Z) : Z :=
  if i <? 0 then Z.max (i + len) 0 else Z.min i len.

Definition slice {A} (l : list A) (a b : Z) : list A :=
  let n := Z.of_nat (length l) in
  let a' := slice_bound n a in
  let b' := slice_bound n b in
  take (Z.to_nat (b' - a')) (drop (Z.to_nat a') l).

(** [range(start, stop, step)], which raises on a zero step. *)
Definition range_len (start stop step : Z) : Z :=
  if 0 <? step then
    (if start <? stop then (stop - start - 1) / step + 1 else 0)
  else
    (if stop <? start then (start - stop - 1) / (- step) + 1 else 0).

Definition progression (start step : Z) (m : nat) : list Z :=
  map (fun i : nat => start + Z.of_nat i * step) (seq 0 m).

Definition py_range (start stop step : Z) : result (list Z) :=
  if step =? 0 then Raise (ValueError (lit "range() arg 3 must not be zero"))
  else Ok (progression start step (Z.to_nat (range_len start stop step))).

(** [len(l)] *)
Definition len {A} (l : list A) : Z := Z.of_nat (length l).

(** A string that starts and ends with a code point that is not
    whitespace: a non-empty result of [strip]. *)
Definition trimmed (s : list N) : Prop :=
  (exists a r, s = a :: r /\ isspace a = false)
  /\ (exists b r, rev s = b :: r /\ isspace b = false).

(** A stripped, non-empty line without line boundary. *)
Definition line_ok (l : list N) : Prop :=
  trimmed l /\ Forall (fun c => islinebreak c = false) l.

(** A word: not empty and free of whitespace. *)
Definition word_ok (w : list N) : Prop :=
  w <> [] /\ Forall (fun c => isspace c = false) w.

(** [a < b] on [str]: lexicographic on code points. *)
Fixpoint str_ltb (a b : list N) : bool :=
  match a, b with
  | _, [] => false
  | [], _ :: _ => true
  | x :: a', y :: b' => (x <? y)%N || (x =? y)%N && str_ltb a' b'
  end.

(** Decimal digits of a natural number, most significant first. *)
Fixpoint uint_codes (d : Decimal.uint) : list N :=
  match d with
  | Decimal.Nil => []
  | Decimal.D0 d => 48%N :: uint_codes d
  | Decimal.D1 d => 49%N :: uint_codes d
  | Decimal.D2 d => 50%N :: uint_codes d
  | Decimal.D3 d => 51%N :: uint_codes d
  | Decimal.D4 d => 52%N :: uint_codes d
  | Decimal.D5 d => 53%N :: uint_codes d
  | Decimal.D6 d => 54%N :: uint_codes d
  | Decimal.D7 d => 55%N :: uint_codes d
  | Decimal.D8 d => 56%N :: uint_codes d
  | Decimal.D9 d => 57%N :: uint_codes d
  end.

(** [f"{n:05d}"]: sign, then zeros up to a total width of five, then the
    digits; a number with more digits is printed in full. *)
Definition format_05d (n : Z) : list N :=
  let sign := if n <? 0 then [45%N] else [] in
  let digits := uint_codes (N.to_uint (Z.abs_N n)) in
  sign ++ repeat 48%N (5 - length sign - length digits) ++ digits.

End PyStr.

(** ** Python floats: finite values, the two infinities and NaN, with the
    IEEE comparisons ([NaN] compares false with everything). *)

Module PyFloat.

Inductive float : Type :=
  | Finite (q : Q)
  | PosInf
  | NegInf
  | NaN.

Definition leb (a b : float) : bool :=
  match a, b with
  | NaN, _ | _, NaN => false
  | NegInf, _ => true
  | _, PosInf => true
  | Finite x, Finite y => Qle_bool x y
  | _, _ => false
  end.

Definition ltb (a b : float) : bool :=
  match a, b with
  | NaN, _ | _, NaN => false
  | PosInf, _ => false
  | _, NegInf => false
  | Finite x, Finite y => negb (Qle_bool y x)
  | _, _ => true
  end.

Definition notnan (d : float) : bool :=
  match d with NaN => false | _ => true end.

End PyFloat.

(** ** [rag/config.py] *)

Module Config.

Record RAGConfig : Type := {
  model_name : list N;
  chunk_size_tokens : Z;
  chunk_overlap_tokens : Z;
  top_k : Z;
  max_pages_pdf : Z;
  max_distance : PyFloat.float;
  max_query_tokens : Z;
  max_context_tokens : Z;
  max_output_tokens : Z;
  max_file_size_mb : Z;
  session_dir : list N;
  device : list N;
  groq_model : list N;
  groq_fallbacks : list (list N);
  allow_zip_download : bool
}.

(** The defaults of the dataclass. *)
Definition default_config : RAGConfig := {|
  model_name := PyStr.lit "sentence-transformers/all-MiniLM-L6-v2";
  chunk_size_tokens := 500;
  chunk_overlap_tokens := 100;
  top_k := 4;
  max_pages_pdf := 100;
  max_distance := PyFloat.Finite (12 # 10);
  max_query_tokens := 512;
  max_context_tokens := 2000;
  max_output_tokens := 512;
  max_file_size_mb := 25;
  session_dir := PyStr.lit "sessions";
  device := PyStr.lit "cpu";
  groq_model := PyStr.lit "llama-3.3-70b-versatile";
  groq_fallbacks := [PyStr.lit "llama-3.1-8b-instant"];
  allow_zip_download := true
|}.

(** [RAGConfig.validate]: the first check that fails raises. *)
Definition validate (self : RAGConfig) : result unit :=
  if negb ((400 <=? chunk_size_tokens self) && (chunk_size_tokens self <=? 600)) then
    Raise (ValueError (PyStr.lit "chunk_size_tokens must be between 400 and 600"))
  else if negb ((80 <=? chunk_overlap_tokens self)
                && (chunk_overlap_tokens self <=? 100)) then
    Raise (ValueError (PyStr.lit "chunk_overlap_tokens must be between 80 and 100"))
  else if top_k self <? 1 then
    Raise (ValueError (PyStr.lit "top_k must be >= 1"))
  else if PyFloat.leb (max_distance self) (PyFloat.Finite 0) then
    Raise (ValueError (PyStr.lit "max_distance must be greater than 0"))
  else if max_pages_pdf self <? 1 then
    Raise (ValueError (PyStr.lit "max_pages_pdf must be >= 1"))
  else if (max_query_tokens self <? 1) || (max_context_tokens self <? 1)
          || (max_output_tokens self <? 1) then
    Raise (ValueError (PyStr.lit "token limits must be positive"))
  else if max_file_size_mb self <? 1 then
    Raise (ValueError (PyStr.lit "max_file_size_mb must be >= 1"))
  else Ok tt.

End Config.
Export Config.

(** ** [langchain_core.documents.Document]: text and a metadata dict *)

Record Document : Type := {
  page_content : list N;
  metadata : gmap (list N) (list N)
}.

(** ** [rag/chunking.py] *)

Module Chunking.
Import PyStr.

Definition placeholder_artifacts : list (list N) :=
  [lit "[CLS]"; lit "[SEP]"; lit "[CLS] [SEP]"].

Definition is_placeholder (chunk_text : list N) : bool :=
  bool_decide (chunk_text ∈ placeholder_artifacts).

(** The body of [for start in range(0, len(words), step)]: [continue] goes
    on with the remaining starts, [break] returns the chunks collected. *)
Fixpoint chunk_loop (words : list (list N)) (size : Z) (starts : list Z)
    (chunks : list (list N)) : list (list N) :=
  match starts with
  | [] => chunks
  | start :: rest =>
      let end_ := Z.min (start + size) (len words) in
      let chunk_text := strip (join (lit " ") (slice words start end_)) in
      if bool_decide (chunk_text = []) then chunk_loop words size rest chunks
      else if is_placeholder chunk_text then chunk_loop words size rest chunks
      else
        let chunks := chunks ++ [chunk_text] in
        if end_ =? len words then chunks
        else chunk_loop words size rest chunks
  end.

(** The three assignments [size = ...], [overlap = ...], [step = ...] of
    [_chunk_text]. *)
Definition window_size (cfg : RAGConfig) : Z :=
  Z.max (chunk_size_tokens cfg) 1.

Definition window_overlap (cfg : RAGConfig) : Z :=
  Z.max (Z.min (chunk_overlap_tokens cfg) (window_size cfg - 1)) 0.

Definition window_step (cfg : RAGConfig) : Z :=
  Z.max (window_size cfg - window_overlap cfg) 1.

(** [TokenChunker._chunk_text] *)
Definition _chunk_text (cfg : RAGConfig) (text : list N) : result (list (list N)) :=
  let words := findall_nonspace text in
  if bool_decide (words = []) then Ok []
  else
    let size := window_size cfg in
    let step := window_step cfg in
    starts ← py_range 0 (len words) step;
    Ok (chunk_loop words size starts []).

(** The metadata dict literal of [chunk_pages]. *)
Definition chunk_meta (chunk_id sec_id source_file parsing_method : list N)
    : gmap (list N) (list N) :=
  <[lit "parsing_method" := parsing_method]>
    (<[lit "source_file" := source_file]>
      (<[lit "section_or_page" := sec_id]>
        (<[lit "chunk_id" := chunk_id]> ∅))).

(** One turn of [for pc in page_chunks]; the state is [(docs, chunk_counter)]. *)
Definition add_chunk (sec_id source_file parsing_method : list N)
    (st : list Document * Z) (pc : list N) : list Document * Z :=
  let chunk_counter := st.2 + 1 in
  let chunk_id := lit "chunk-" ++ format_05d chunk_counter in
  let meta := chunk_meta chunk_id sec_id source_file parsing_method in
  (st.1 ++ [{| page_content := pc; metadata := meta |}], chunk_counter).

(** [for sec_id, text in cleaned_pages] *)
Fixpoint pages_loop (cfg : RAGConfig) (cleaned_pages : list (list N * list N))
    (source_file parsing_method : list N) (st : list Document * Z)
    : result (list Document * Z) :=
  match cleaned_pages with
  | [] => Ok st
  | (sec_id, text) :: rest =>
      page_chunks ← _chunk_text cfg text;
      pages_loop cfg rest source_file parsing_method
        (fold_left (add_chunk sec_id source_file parsing_method) page_chunks st)
  end.

(** [TokenChunker.chunk_pages] *)
Definition chunk_pages (cfg : RAGConfig) (cleaned_pages : list (list N * list N))
    (source_file parsing_method : list N) : result (list Document) :=
  st ← pages_loop cfg cleaned_pages source_file parsing_method ([], 0);
  Ok st.1.

End Chunking.


(** ** [rag/retrieval.py] *)

Module Retrieval.
Import PyStr PyFloat.

(** The FAISS index of the store, seen through
    [similarity_search_with_score(query, k=top_k)]. *)
Record FAISS : Type := {
  similarity_search_with_score :
    list N -> Z -> result (list (Document * float))
}.

(** A [Retriever]: its configuration, the inner index of its [FAISSStore]
    ([None] until one is built or loaded) and the [encode] of its tokenizer. *)
Record Retriever : Type := {
  cfg : RAGConfig;
  store : option FAISS;
  tokenizer_encode : list N -> list Z
}.

Definition _count_tokens (self : Retriever) (text : list N) : Z :=
  len (tokenizer_encode self text).

(** [min(items, key=lambda x: float(x[1]))]: the first item of least key;
    a later item replaces the best one only when its key is smaller. *)
Fixpoint min_loop (best : Document * float) (items : list (Document * float))
    : Document * float :=
  match items with
  | [] => best
  | item :: rest =>
      if ltb item.2 best.2 then min_loop item rest else min_loop best rest
  end.

Definition py_min (items : list (Document * float)) : result (Document * float) :=
  match items with
  | [] => Raise (ValueError (lit "min() arg is an empty sequence"))
  | item :: rest => Ok (min_loop item rest)
  end.

(** The [for doc, score in docs_with_scores] loop. *)
Definition keep_within (threshold : float)
    (docs_with_scores : list (Document * float)) : list (Document * float) :=
  List.filter (fun ds : Document * float => leb ds.2 threshold) docs_with_scores.

(** [Retriever.retrieve] *)
Definition retrieve (self : Retriever) (query : list N)
    (top_k_arg : option Z) (threshold_arg : option float)
    : result (list (Document * float)) :=
  let top_k := default (top_k (cfg self)) top_k_arg in
  let threshold := default (max_distance (cfg self)) threshold_arg in
  let q_tokens := _count_tokens self query in
  if max_query_tokens (cfg self) <? q_tokens then
    Raise (ValueError (lit "Query too long. Please shorten your question."))
  else
    match store self with
    | None => Raise (AssertionError (lit "Vector store not initialized"))
    | Some index =>
        docs_with_scores ← similarity_search_with_score index query top_k;
        match docs_with_scores with
        | [] => Raise (ValueError (lit "No relevant context found"))
        | _ :: _ =>
            let filtered := keep_within threshold docs_with_scores in
            match filtered with
            | [] =>
                best ← py_min docs_with_scores;
                Ok [best]
            | _ :: _ => Ok filtered
            end
        end
    end.

End Retrieval.

(** ** [rag/generation.py] *)

Module Generation.
Import PyStr PyFloat.

(** One entry of the citation list: the dict with the keys [chunk_id],
    [section] and [score]. *)
Record Citation : Type := {
  cit_chunk_id : option (list N);
  cit_section : option (list N);
  cit_score : float
}.

(** A [GroqGenerator]. The tokenizer, the [.4f] rendering of a score, the
    prompt template and the chat model are capabilities outside the
    package: [invoke model_name messages max_tokens] is the content of the
    reply, or the exception of the call. *)
Record GroqGenerator : Type := {
  cfg : RAGConfig;
  model_name : list N;
  tokenizer_encode : list N -> list Z;
  format_4f : float -> list N;
  format_messages : list N -> list N -> list (list N * list N);
  invoke : list N -> list (list N * list N) -> Z -> result (list N)
}.

Definition _count_tokens (self : GroqGenerator) (text : list N) : Z :=
  len (tokenizer_encode self text).

(** An f-string field holding a value that may be [None]. *)
Definition fmt_opt (o : option (list N)) : list N := default (lit "None") o.

Definition segment_of (self : GroqGenerator) (ds : Document * float) : list N :=
  let chunk_id := metadata ds.1 !! lit "chunk_id" in
  let section := metadata ds.1 !! lit "section_or_page" in
  let header :=
    lit "[chunk_id=" ++ fmt_opt chunk_id ++ lit " | section=" ++ fmt_opt section
    ++ lit " | score=" ++ format_4f self ds.2 ++ lit "]" in
  let body := strip (page_content ds.1) in
  header ++ [10%N] ++ body.

Definition citation_of (ds : Document * float) : Citation :=
  {| cit_chunk_id := metadata ds.1 !! lit "chunk_id";
     cit_section := metadata ds.1 !! lit "section_or_page";
     cit_score := ds.2 |}.

(** The packing loop; the state is [(parts, citations, total_tokens)] and
    [break] returns it. *)
Fixpoint build_loop (self : GroqGenerator) (docs_with_scores : list (Document * float))
    (st : list (list N) * list Citation * Z) : list (list N) * list Citation * Z :=
  match docs_with_scores with
  | [] => st
  | ds :: rest =>
      let '(parts, citations, total_tokens) := st in
      let segment := segment_of self ds in
      let seg_tokens := _count_tokens self segment in
      if max_context_tokens (cfg self) <? total_tokens + seg_tokens then st
      else build_loop self rest
             (parts ++ [segment], citations ++ [citation_of ds],
              total_tokens + seg_tokens)
  end.

(** [GroqGenerator._build_context] *)
Definition _build_context (self : GroqGenerator)
    (docs_with_scores : list (Document * float)) : list N * list Citation :=
  let '(parts, citations, _) := build_loop self docs_with_scores ([], [], 0) in
  (join [10%N; 10%N] parts, citations).

(** [sub in s] on strings *)
Fixpoint contains (s sub : list N) : bool :=
  startswith s sub || match s with [] => false | _ :: s' => contains s' sub end.

Definition exn_message (e : exn) : list N :=
  match e with
  | ValueError m | AssertionError m | EnvironmentError m | ExternalError m => m
  end.

(** The [for candidate in [*self.cfg.groq_fallbacks]] loop with its [else]:
    the first candidate that answers wins and stays the model of the
    generator; when none does, the first exception [e] is raised again. *)
Fixpoint fallback_loop (self : GroqGenerator) (messages : list (list N * list N))
    (e : exn) (current : list N) (candidates : list (list N))
    : result (list N) * list N :=
  match candidates with
  | [] => (Raise e, current)
  | candidate :: rest =>
      match invoke self candidate messages (max_output_tokens (cfg self)) with
      | Ok content => (Ok content, candidate)
      | Raise _ => fallback_loop self messages e candidate rest
      end
  end.

Definition refusal_text : list N :=
  lit "I cannot answer based on the provided document.".

Definition too_long_text : list N :=
  lit "Your question is too long. Please shorten it.".

Definition citation_item (c : Citation) : list N :=
  fmt_opt (cit_chunk_id c) ++ lit " (" ++ fmt_opt (cit_section c) ++ lit ")".

Definition citation_suffix (citations : list Citation) : list N :=
  match citations with
  | [] => lit " [none]"
  | _ :: _ => lit " [" ++ join (lit " ; ") (map citation_item citations) ++ lit "]"
  end.

(** [GroqGenerator.generate]: the result, and the model name the generator
    holds afterwards. *)
Definition generate (self : GroqGenerator) (question : list N)
    (docs_with_scores : list (Document * float))
    : result (list N * list Citation) * list N :=
  match docs_with_scores with
  | [] => (Ok (refusal_text, []), model_name self)
  | _ :: _ =>
      let q_tokens := _count_tokens self question in
      if max_query_tokens (cfg self) <? q_tokens then
        (Ok (too_long_text, []), model_name self)
      else
        let '(context, citations) := _build_context self docs_with_scores in
        match context with
        | [] => (Ok (refusal_text, []), model_name self)
        | _ :: _ =>
            let messages := format_messages self context question in
            let '(resp, name) :=
              match invoke self (model_name self) messages
                      (max_output_tokens (cfg self)) with
              | Ok content => (Ok content, model_name self)
              | Raise e =>
                  let msg := exn_message e in
                  if contains msg (lit "model_decommissioned")
                     || contains msg (lit "has been decommissioned")
                  then fallback_loop self messages e (model_name self)
                         (groq_fallbacks (cfg self))
                  else (Raise e, model_name self)
              end in
            match resp with
            | Ok content =>
                let answer := strip content in
                (Ok (answer ++ citation_suffix citations, citations), name)
            | Raise e => (Raise e, name)
            end
        end
  end.

End Generation.

(** ** [rag/parsing.py] *)

Module Parsing.
Import PyStr.

Record ParsedDocument : Type := {
  source_path : list N;
  source_filename : list N;
  sections_text : list (list N * list N);
  parsing_method : list N;
  page_count : Z
}.

(** What the handlers get from the file system and from the libraries they
    call (PyMuPDF, python-docx, BeautifulSoup, csv, json, python-pptx, the
    tokenizer and the chat model). A page text and a shape text may be
    missing ([None]); a shape may have no [text] attribute at all. *)
Record World : Type := {
  basename : list N -> list N;
  _read_text_fallback : list N -> result (list N);
  fitz_pages : list N -> result (list (option (list N)));
  docx_paragraphs : list N -> result (list (list N));
  soup_get_text : list N -> result (list N);
  csv_rows : list N -> result (list (list (list N)));
  json_reformat : list N -> result (list N);
  pptx_slides : list N -> result (list (list (option (option (list N)))));
  groq_api_key : option (list N);
  encode : list N -> list Z;
  decode : list Z -> list N;
  llm_invoke : list N -> list N -> Z -> result (list N);
  str_upper : list N -> list N
}.

(** [str(n)] for an integer. *)
Definition str_int (n : Z) : list N :=
  (if n <? 0 then [45%N] else []) ++ uint_codes (N.to_uint (Z.abs_N n)).

(** [x or ""] *)
Definition or_empty (o : option (list N)) : list N := default [] o.

(** Sections numbered from 1: [(f"{prefix}{i+1}", text)]. *)
Fixpoint numbered (prefix : list N) (i : Z) (texts : list (list N))
    : list (list N * list N) :=
  match texts with
  | [] => []
  | t :: rest => (prefix ++ str_int (i + 1), t) :: numbered prefix (i + 1) rest
  end.

Definition single_section (w : World) (path txt : list N) : ParsedDocument :=
  {| source_path := path; source_filename := basename w path;
     sections_text := [(lit "section-1", txt)];
     parsing_method := lit "deterministic"; page_count := 1 |}.

Definition _parse_pdf (w : World) (path : list N) (cfg : RAGConfig)
    : result ParsedDocument :=
  pages ← fitz_pages w path;
  let total_pages := len pages in
  if max_pages_pdf cfg <? total_pages then
    Raise (ValueError (lit "PDF has " ++ str_int total_pages
                       ++ lit " pages; limit is " ++ str_int (max_pages_pdf cfg)))
  else
    let sections := numbered (lit "page-") 0 (map or_empty pages) in
    Ok {| source_path := path; source_filename := basename w path;
          sections_text := sections;
          parsing_method := lit "deterministic"; page_count := total_pages |}.

Definition _parse_docx (w : World) (path : list N) : result ParsedDocument :=
  paragraphs ← docx_paragraphs w path;
  Ok (single_section w path (join [10%N] paragraphs)).

Definition _parse_txt (w : World) (path : list N) : result ParsedDocument :=
  txt ← _read_text_fallback w path;
  Ok (single_section w path txt).

Definition _parse_html (w : World) (path : list N) : result ParsedDocument :=
  html ← _read_text_fallback w path;
  txt ← soup_get_text w html;
  Ok (single_section w path txt).

Definition _parse_csv (w : World) (path : list N) : result ParsedDocument :=
  rows ← csv_rows w path;
  Ok (single_section w path (join [10%N] (map (join (lit ", ")) rows))).

Definition _parse_json (w : World) (path : list N) : result ParsedDocument :=
  raw ← _read_text_fallback w path;
  txt ← json_reformat w raw;
  Ok (single_section w path txt).

Definition _parse_md_or_code (w : World) (path : list N) : result ParsedDocument :=
  txt ← _read_text_fallback w path;
  Ok (single_section w path txt).

(** The texts kept of one slide: shapes with a [text] attribute whose text
    is not empty. *)
Definition slide_texts (shapes : list (option (option (list N)))) : list (list N) :=
  List.filter (fun t => negb (bool_decide (t = [])))
    (omap (fun shp => option_map or_empty shp) shapes).

Definition _parse_pptx (w : World) (path : list N) : result ParsedDocument :=
  slides ← pptx_slides w path;
  let sections :=
    numbered (lit "slide-") 0 (map (fun shapes => join [10%N] (slide_texts shapes)) slides) in
  Ok {| source_path := path; source_filename := basename w path;
        sections_text := sections;
        parsing_method := lit "deterministic"; page_count := len sections |}.

Definition parser_prompt (content : list N) : list N :=
  lit "You are a strict parser. Extract only readable text present in the file content below." ++ [10%N]
  ++ lit "- Do not add or invent text." ++ [10%N]
  ++ lit "- If the content is not interpretable, respond with exactly: UNPARSEABLE" ++ [10%N]
  ++ lit "Content:" ++ [10%N] ++ content.

Definition _llm_assisted_parse (w : World) (path : list N) (cfg : RAGConfig)
    : result ParsedDocument :=
  match groq_api_key w with
  | None | Some [] =>
      Raise (EnvironmentError (lit "GROQ_API_KEY is required for LLM-assisted parsing"))
  | Some _ =>
      content ← _read_text_fallback w path;
      let ids := encode w content in
      let ids := if max_context_tokens cfg <? len ids
                 then slice ids 0 (max_context_tokens cfg) else ids in
      let truncated := decode w ids in
      resp ← llm_invoke w (groq_model cfg) (parser_prompt truncated)
               (max_output_tokens cfg);
      let parsed := strip resp in
      if bool_decide (strip (str_upper w parsed) = lit "UNPARSEABLE")
         || bool_decide (parsed = [])
      then Raise (ValueError (lit "File cannot be meaningfully interpreted"))
      else Ok {| source_path := path; source_filename := basename w path;
                 sections_text := [(lit "section-1", parsed)];
                 parsing_method := lit "llm-assisted"; page_count := 1 |}
  end.

Definition ext_in (ext : list N) (exts : list (list N)) : bool :=
  bool_decide (ext ∈ exts).

(** [parse_file]; its [except] clause logs and raises the same exception. *)
Definition parse_file (w : World) (path ext : list N) (cfg : RAGConfig)
    : result ParsedDocument :=
  if ext_in ext [lit ".pdf"] then _parse_pdf w path cfg
  else if ext_in ext [lit ".docx"] then _parse_docx w path
  else if ext_in ext [lit ".txt"; lit ".log"] then _parse_txt w path
  else if ext_in ext [lit ".html"; lit ".htm"] then _parse_html w path
  else if ext_in ext [lit ".csv"] then _parse_csv w path
  else if ext_in ext [lit ".json"] then _parse_json w path
  else if ext_in ext [lit ".md"; lit ".py"; lit ".js"; lit ".ts"; lit ".java";
                      lit ".c"; lit ".cpp"; lit ".go"; lit ".rs"]
       then _parse_md_or_code w path
  else if ext_in ext [lit ".pptx"] then _parse_pptx w path
  else _llm_assisted_parse w path cfg.

(** A world in which every file is empty: no page, no paragraph, no row,
    no slide, no text. *)
Definition empty_world : World :=
  {| basename := fun path => path;
     _read_text_fallback := fun _ => Ok [];
     fitz_pages := fun _ => Ok [];
     docx_paragraphs := fun _ => Ok [];
     soup_get_text := fun _ => Ok [];
     csv_rows := fun _ => Ok [];
     json_reformat := fun _ => Raise (ValueError (lit "Expecting value"));
     pptx_slides := fun _ => Ok [];
     groq_api_key := Some (lit "key");
     encode := map Z.of_N;
     decode := map Z.to_N;
     llm_invoke := fun _ _ _ => Ok [];
     str_upper := fun s => s |}.

Definition flat_exts : list (list N) :=
  [lit ".docx"; lit ".txt"; lit ".log"; lit ".html"; lit ".htm"; lit ".csv";
   lit ".json"; lit ".md"; lit ".py"; lit ".js"; lit ".ts"; lit ".java";
   lit ".c"; lit ".cpp"; lit ".go"; lit ".rs"].

Definition paginated_exts : list (list N) := [lit ".pdf"; lit ".pptx"].

(** The specification's invariant: a successful extraction has sections. *)
Definition never_empty_success (w : World) (path ext : list N) (cfg : RAGConfig)
    : Prop :=
  forall doc, parse_file w path ext cfg = Ok doc -> sections_text doc <> [].

End Parsing.

(** ** Regular expressions, matched in full by derivatives *)

Module Regex.

Inductive re : Type :=
  | Void
  | Eps
  | Class (p : N -> bool)
  | Cat (a b : re)
  | Alt (a b : re)
  | Star (a : re).

Fixpoint nullable (r : re) : bool :=
  match r with
  | Void => false
  | Eps => true
  | Class _ => false
  | Cat a b => nullable a && nullable b
  | Alt a b => nullable a || nullable b
  | Star _ => true
  end.

Fixpoint deriv (c : N) (r : re) : re :=
  match r with
  | Void | Eps => Void
  | Class p => if p c then Eps else Void
  | Cat a b =>
      if nullable a then Alt (Cat (deriv c a) b) (deriv c b)
      else Cat (deriv c a) b
  | Alt a b => Alt (deriv c a) (deriv c b)
  | Star a => Cat (deriv c a) (Star a)
  end.

(** [re.fullmatch(r, s)] as a truth value. *)
Fixpoint fullmatch (r : re) (s : list N) : bool :=
  match s with
  | [] => nullable r
  | c :: s' => fullmatch (deriv c r) s'
  end.

(** The strings of a regular expression. *)
Inductive matches : re -> list N -> Prop :=
  | m_eps : matches Eps []
  | m_class p c : p c = true -> matches (Class p) [c]
  | m_cat a b s t : matches a s -> matches b t -> matches (Cat a b) (s ++ t)
  | m_alt_l a b s : matches a s -> matches (Alt a b) s
  | m_alt_r a b s : matches b s -> matches (Alt a b) s
  | m_star_nil a : matches (Star a) []
  | m_star_cons a s t :
      matches a s -> matches (Star a) t -> matches (Star a) (s ++ t).

Definition Plus (a : re) : re := Cat a (Star a).
Definition Opt (a : re) : re := Alt Eps a.
Definition Chr (c : N) : re := Class (N.eqb c).
Definition OneOf (cs : list N) : re := Class (fun c => existsb (N.eqb c) cs).

Fixpoint Str (s : list N) : re :=
  match s with
  | [] => Eps
  | c :: s' => Cat (Chr c) (Str s')
  end.

End Regex.

(** ** [rag/cleaning.py] *)

Module Cleaning.
Import PyStr Parsing Regex.

Section Unicode.

(** The class [\d] of [re] on [str] patterns: the decimal digits of the
    Unicode database of the interpreter. *)
Variable isdecimal : N -> bool.

(** [[Pp]age\s*\d+(\s*/\s*\d+)?] *)
Definition page_re : re :=
  Cat (OneOf [80; 112]%N)
    (Cat (Str (lit "age"))
      (Cat (Star (Class isspace))
        (Cat (Plus (Class isdecimal))
          (Opt (Cat (Star (Class isspace))
                 (Cat (Chr 47%N)
                   (Cat (Star (Class isspace)) (Plus (Class isdecimal))))))))).

(** [\d+] *)
Definition digits_re : re := Plus (Class isdecimal).

Definition _is_page_number (line : list N) : bool :=
  let s := strip line in
  if fullmatch page_re s then true
  else if fullmatch digits_re s then true
  else false.

(** The rule characters: hyphen, en dash, em dash, underscore, equals. *)
Definition isrule (c : N) : bool :=
  existsb (N.eqb c) [45; 0x2013; 0x2014; 95; 61]%N.

(** [[-–—_=]{3,}] *)
Definition rule_re : re :=
  Cat (Class isrule) (Cat (Class isrule) (Cat (Class isrule) (Star (Class isrule)))).

Definition isblank (c : N) : bool := ((c =? 32) || (c =? 9))%N.

(** [re.sub(r"[ \t]+", " ", text)]: a run of blanks leaves one space, put
    where the run ends. *)
Fixpoint sub_blanks (text : list N) : list N :=
  match text with
  | [] => []
  | c :: rest =>
      if isblank c then
        match rest with
        | c' :: _ => if isblank c' then sub_blanks rest else 32%N :: sub_blanks rest
        | [] => [32%N]
        end
      else c :: sub_blanks rest
  end.

(** What a run of [k] newlines becomes under [re.sub(r"\n{3,}", "\n\n", _)]. *)
Definition newline_run (k : nat) : list N :=
  if (3 <=? k)%nat then [10; 10]%N else repeat 10%N k.

(** [re.sub(r"\n{3,}", "\n\n", text)], with [k] newlines read and pending. *)
Fixpoint sub_newlines (k : nat) (text : list N) : list N :=
  match text with
  | [] => newline_run k
  | c :: rest =>
      if (c =? 10)%N then sub_newlines (S k) rest
      else newline_run k ++ c :: sub_newlines 0 rest
  end.

Definition _normalize_spaces (text : list N) : list N :=
  let text := sub_blanks text in
  let text := sub_newlines 0 text in
  strip text.

(** [d[key] = d.get(key, 0) + 1] *)
Definition count_up (d : gmap (list N) Z) (key : list N) : gmap (list N) Z :=
  <[key := default 0 (d !! key) + 1]> d.

(** The first loop over the sections: the candidate dictionaries. *)
Fixpoint candidates (sections : list (list N * list N))
    (st : gmap (list N) Z * gmap (list N) Z) : gmap (list N) Z * gmap (list N) Z :=
  match sections with
  | [] => st
  | (sec_id, text) :: rest =>
      let lines := splitlines text in
      match lines with
      | [] => candidates rest st
      | first :: _ =>
          let header := strip first in
          let header_candidates := count_up st.1 header in
          let footer := strip (List.last lines first) in
          let footer_candidates := count_up st.2 footer in
          candidates rest (header_candidates, footer_candidates)
      end
  end.

(** [{h for h, c in d.items() if c >= max(2, total // 5)}] *)
Definition common (d : gmap (list N) Z) (total : Z) : gset (list N) :=
  dom (filter (fun hc : list N * Z => Z.max 2 (total / 5) <= hc.2) d).

Definition common_headers (doc : ParsedDocument) : gset (list N) :=
  common (candidates (sections_text doc) (∅, ∅)).1 (len (sections_text doc)).

Definition common_footers (doc : ParsedDocument) : gset (list N) :=
  common (candidates (sections_text doc) (∅, ∅)).2 (len (sections_text doc)).

(** The guard of the header, footer and page-number tests. *)
Definition paginated (doc : ParsedDocument) (sec_id : list N) : bool :=
  bool_decide (parsing_method doc = lit "deterministic")
  && startswith sec_id (lit "page-").

(** The [for raw in text.splitlines()] loop: [continue] drops the line. *)
Fixpoint kept_lines (doc : ParsedDocument) (headers footers : gset (list N))
    (sec_id : list N) (raws : list (list N)) (lines : list (list N))
    : list (list N) :=
  match raws with
  | [] => lines
  | raw :: rest =>
      let l := strip raw in
      if bool_decide (l = []) then kept_lines doc headers footers sec_id rest lines
      else if paginated doc sec_id
              && (bool_decide (l ∈ headers) || bool_decide (l ∈ footers))
      then kept_lines doc headers footers sec_id rest lines
      else if paginated doc sec_id && _is_page_number l
      then kept_lines doc headers footers sec_id rest lines
      else if fullmatch rule_re l
      then kept_lines doc headers footers sec_id rest lines
      else kept_lines doc headers footers sec_id rest (lines ++ [l])
  end.

(** The second loop over the sections. *)
Fixpoint clean_sections (doc : ParsedDocument) (headers footers : gset (list N))
    (sections : list (list N * list N)) (cleaned_pages : list (list N * list N))
    : list (list N * list N) :=
  match sections with
  | [] => cleaned_pages
  | (sec_id, text) :: rest =>
      let lines := kept_lines doc headers footers sec_id (splitlines text) [] in
      let cleaned := _normalize_spaces (join [10%N] lines) in
      clean_sections doc headers footers rest (cleaned_pages ++ [(sec_id, cleaned)])
  end.

(** [clean_text] *)
Definition clean_text (doc : ParsedDocument) : list (list N * list N) :=
  clean_sections doc (common_headers doc) (common_footers doc)
    (sections_text doc) [].

End Unicode.

(** The cleaned sections wrapped again as a document of the same method. *)
Definition rewrap (doc : ParsedDocument) (cleaned : list (list N * list N))
    : ParsedDocument :=
  {| source_path := source_path doc; source_filename := source_filename doc;
     sections_text := cleaned; parsing_method := parsing_method doc;
     page_count := page_count doc |}.

(** The decimal digits of ASCII, a part of every [\d]. *)
Definition ascii_digit (c : N) : bool := ((48 <=? c) && (c <=? 57))%N.

End Cleaning.

(** ** The cleaner as the specification words it *)

Module CleaningSpec.
Import PyStr Parsing Regex Cleaning.

(** The first and the last line of a section text, stripped; a text
    without any line has neither. *)
Definition first_line (text : list N) : option (list N) :=
  match splitlines text with
  | [] => None
  | l :: _ => Some (strip l)
  end.

Definition last_line (text : list N) : option (list N) :=
  match splitlines text with
  | [] => None
  | l :: ls => Some (strip (List.last (l :: ls) l))
  end.

(** The first line that is not empty once stripped. *)
Definition first_nonempty_line (text : list N) : option (list N) :=
  head (List.filter (fun l => negb (bool_decide (l = [])))
          (map strip (splitlines text))).

(** How often [x] occurs in [l]. *)
Definition count_of (x : list N) (l : list (list N)) : Z :=
  len (List.filter (fun y => bool_decide (y = x)) l).

(** The frequency rule: the common values are those found at least
    [max(2, total_sections // 5)] times among [found]. *)
Definition frequency_rule (commons : gset (list N)) (found : list (list N))
    (total_sections : Z) : Prop :=
  forall h, h ∈ commons <-> Z.max 2 (total_sections / 5) <= count_of h found.

(** The rule with the first non-empty line of every section as its header. *)
Definition nonempty_header_rule (doc : ParsedDocument) : Prop :=
  frequency_rule (common_headers doc)
    (omap (fun p : list N * list N => first_nonempty_line p.2) (sections_text doc))
    (len (sections_text doc)).

(** The rule with the first and the last line of every section. *)
Definition first_last_rule (doc : ParsedDocument) : Prop :=
  frequency_rule (common_headers doc)
    (omap (fun p : list N * list N => first_line p.2) (sections_text doc))
    (len (sections_text doc))
  /\ frequency_rule (common_footers doc)
       (omap (fun p : list N * list N => last_line p.2) (sections_text doc))
       (len (sections_text doc)).

(** The lines the cleaner keeps of a section: not empty; in a paginated
    section neither a common header or footer nor a page number; not a
    rule. *)
Definition keeps (isdecimal : N -> bool) (doc : ParsedDocument)
    (headers footers : gset (list N)) (sec_id l : list N) : bool :=
  negb (bool_decide (l = []))
  && negb (paginated doc sec_id
           && (bool_decide (l ∈ headers) || bool_decide (l ∈ footers)
               || _is_page_number isdecimal l))
  && negb (fullmatch rule_re l).

Definition clean_one (isdecimal : N -> bool) (doc : ParsedDocument)
    (headers footers : gset (list N)) (p : list N * list N) : list N * list N :=
  (p.1, _normalize_spaces
          (join [10%N]
             (List.filter (keeps isdecimal doc headers footers p.1)
                (map strip (splitlines p.2))))).

(** Cleaning as one filter per section. *)
Definition cleans_by_filter (isdecimal : N -> bool) (doc : ParsedDocument) : Prop :=
  clean_text isdecimal doc =
    map (clean_one isdecimal doc (common_headers doc) (common_footers doc))
      (sections_text doc).

(** The line [h] is a line of no cleaned section. *)
Definition absent_from_cleaned (isdecimal : N -> bool) (doc : ParsedDocument)
    (h : list N) : Prop :=
  Forall (fun p : list N * list N => ~ In h (splitlines p.2))
    (clean_text isdecimal doc).

(** Every section is a page of a deterministic extraction and has [h] as
    its first line. *)
Definition pages_headed (doc : ParsedDocument) (h : list N) : Prop :=
  parsing_method doc = lit "deterministic"
  /\ Forall (fun p : list N * list N =>
               startswith p.1 (lit "page-") = true /\ first_line p.2 = Some h)
       (sections_text doc).

(** [expands s t]: [t] is [s] with every space replaced by a run of one or
    more blanks, the other code points of [s] not being blanks. *)
Inductive expands : list N -> list N -> Prop :=
  | expands_nil : expands [] []
  | expands_keep c s t :
      isblank c = false -> expands s t -> expands (c :: s) (c :: t)
  | expands_run run s t :
      run <> [] -> Forall (fun c => isblank c = true) run -> expands s t ->
      expands (32%N :: s) (run ++ t).

(** A regular expression whose language is closed under [expands]. *)
Definition blank_stable (r : re) : Prop :=
  forall s t, matches r s -> expands s t -> matches r t.

(** Cleaning the cleaned document again changes nothing. *)
Definition idempotent_on (isdecimal : N -> bool) (doc : ParsedDocument) : Prop :=
  clean_text isdecimal (rewrap doc (clean_text isdecimal doc))
  = clean_text isdecimal doc.

(** Cleaning again leaves the sections without header, footer and
    page-number removal as they are. *)
Definition idempotent_off_pages (isdecimal : N -> bool) (doc : ParsedDocument) : Prop :=
  let cleaned := clean_text isdecimal doc in
  let again := clean_text isdecimal (rewrap doc cleaned) in
  map fst cleaned = map fst (sections_text doc)
  /\ Forall2 (fun p q : list N * list N =>
                q.1 = p.1 /\ (paginated doc p.1 = false -> q = p))
       cleaned again.

(** No line of the cleaned section [p] is a common header or footer of the
    cleaned document. *)
Definition settled (isdecimal : N -> bool) (doc : ParsedDocument)
    (p : list N * list N) : Prop :=
  let doc' := rewrap doc (clean_text isdecimal doc) in
  Forall (fun l => (l ∉ common_headers doc') /\ (l ∉ common_footers doc'))
    (splitlines p.2).

(** Cleaning again leaves a cleaned section as it is when the section is
    outside the header, footer and page-number removal, or is settled. *)
Definition idempotent_where_settled (isdecimal : N -> bool) (doc : ParsedDocument)
    : Prop :=
  let cleaned := clean_text isdecimal doc in
  let again := clean_text isdecimal (rewrap doc cleaned) in
  Forall2 (fun p q : list N * list N =>
             q.1 = p.1
             /\ ((paginated doc (fst p) = false \/ settled isdecimal doc p) -> q = p))
    cleaned again.

(** A document of pages, extracted deterministically. *)
Definition pdf_of (pages : list (list N)) : ParsedDocument :=
  {| source_path := lit "source.pdf"; source_filename := lit "source.pdf";
     sections_text := numbered (lit "page-") 0 pages;
     parsing_method := lit "deterministic"; page_count := len pages |}.

Definition confidential : list N := lit "CONFIDENTIAL".

(** Three pages headed "CONFIDENTIAL", with a page number as last line. *)
Definition headed_pages : list (list N) :=
  [confidential ++ [10%N] ++ lit "Alpha  report" ++ [10%N] ++ lit "Page 1/3";
   confidential ++ [10%N] ++ lit "Beta" ++ [10%N] ++ lit "-----" ++ [10%N] ++ lit "Page 2/3";
   confidential ++ [10%N] ++ lit "Gamma" ++ [10%N] ++ lit "Page 3/3"].

(** The same pages after an empty first line. *)
Definition blank_led_pages : list (list N) := map (fun t => 10%N :: t) headed_pages.

(** Two pages with two common lines at their top. *)
Definition layered_pages : list (list N) :=
  [lit "ACME" ++ [10%N] ++ lit "Report" ++ [10%N] ++ lit "one";
   lit "ACME" ++ [10%N] ++ lit "Report" ++ [10%N] ++ lit "two"].

End CleaningSpec.

(** ** The retriever and the generator as the specification words them *)

Module AnswerSpec.
Import PyStr PyFloat Generation.

(** The tokens of the segments of [docs], as [_build_context] counts them. *)
Fixpoint packed_tokens (self : GroqGenerator) (docs : list (Document * float)) : Z :=
  match docs with
  | [] => 0
  | ds :: rest => _count_tokens self (segment_of self ds) + packed_tokens self rest
  end.

(** Strict best-first packing within the budget: the segments packed are
    those of the first [k] pairs; the running count after each of them is
    within [max_context_tokens]; the pair after them, if any, would exceed
    it. *)
Definition packs_best_first (self : GroqGenerator)
    (docs : list (Document * float)) : Prop :=
  exists k : nat,
    (k <= length docs)%nat
    /\ build_loop self docs ([], [], 0) =
         (map (segment_of self) (take k docs), map citation_of (take k docs),
          packed_tokens self (take k docs))
    /\ _build_context self docs =
         (join [10; 10]%N (map (segment_of self) (take k docs)),
          map citation_of (take k docs))
    /\ (forall j : nat, (j <= k)%nat ->
          packed_tokens self (take j docs) <= max_context_tokens (cfg self))
    /\ (forall ds, docs !! k = Some ds ->
          max_context_tokens (cfg self) <
            packed_tokens self (take k docs) + _count_tokens self (segment_of self ds)).

(** The refusals of the state machine of a question. *)
Inductive refusal : Type :=
  | Refused_NoContext
  | Refused_QueryTooLong
  | Refused_ContextOverflow.

(** The guard under which [generate] takes each refusal. *)
Definition refuses (self : GroqGenerator) (question : list N)
    (docs : list (Document * float)) (r : refusal) : Prop :=
  match r with
  | Refused_NoContext => docs = []
  | Refused_QueryTooLong =>
      docs <> [] /\ max_query_tokens (cfg self) < _count_tokens self question
  | Refused_ContextOverflow =>
      docs <> [] /\ _count_tokens self question <= max_query_tokens (cfg self)
      /\ (_build_context self docs).1 = []
  end.

Definition refusal_message (r : refusal) : list N :=
  match r with
  | Refused_QueryTooLong => too_long_text
  | Refused_NoContext | Refused_ContextOverflow => refusal_text
  end.

(** A document with the given text, chunk id and section. *)
Definition sample_doc (text chunk_id section : list N) : Document :=
  {| page_content := text;
     metadata := <[lit "section_or_page" := section]>
                   (<[lit "chunk_id" := chunk_id]> ∅) |}.

(** A generator whose tokenizer gives one token per code point and whose
    model answers "ok". *)
Definition sample_generator (budget : Z) : GroqGenerator :=
  {| cfg := {| Config.model_name := lit "sentence-transformers/all-MiniLM-L6-v2";
               chunk_size_tokens := 500; chunk_overlap_tokens := 100;
               top_k := 4; max_pages_pdf := 100; max_distance := Finite (12 # 10);
               max_query_tokens := 512; max_context_tokens := budget;
               max_output_tokens := 512; max_file_size_mb := 25;
               session_dir := lit "sessions"; device := lit "cpu";
               groq_model := lit "llama-3.3-70b-versatile"; groq_fallbacks := [];
               allow_zip_download := true |};
     model_name := lit "llama-3.3-70b-versatile";
     tokenizer_encode := map Z.of_N;
     format_4f := fun _ => lit "0.0000";
     format_messages := fun context question => [(lit "system", context); (lit "human", question)];
     invoke := fun _ _ _ => Ok (lit "ok") |}.

(** A retriever over a fixed list of search results. *)
Definition sample_retriever (results : list (Document * float)) : Retrieval.Retriever :=
  {| Retrieval.cfg := default_config;
     Retrieval.store :=
       Some {| Retrieval.similarity_search_with_score := fun _ _ => Ok results |};
     Retrieval.tokenizer_encode := map Z.of_N |}.

(** Two search results, both farther than the default threshold 1.2. *)
Definition sample_results : list (Document * float) :=
  [(sample_doc (lit "alpha") (lit "chunk-00001") (lit "page-1"), Finite (15 # 10));
   (sample_doc (lit "beta") (lit "chunk-00002") (lit "page-2"), Finite (13 # 10))].

(** Three retrieved pairs: a short chunk, a long one, a short one. *)
Definition sample_pairs : list (Document * float) :=
  [(sample_doc (lit "aaa") (lit "chunk-00001") (lit "page-1"), Finite (1 # 10));
   (sample_doc (lit "a much longer chunk of text") (lit "chunk-00002") (lit "page-1"),
    Finite (2 # 10));
   (sample_doc (lit "bbb") (lit "chunk-00003") (lit "page-2"), Finite (3 # 10))].

End AnswerSpec.

(** ** The chunker as the specification words it *)

Module ChunkingSpec.
Import PyStr Chunking.

(** The windows of the specification, as pairs of word indices: start at
    [start], take up to [size] words, advance by [step], stop after the
    window that reaches the end [n]. *)
Fixpoint windows_from (fuel : nat) (n size step start : Z) : list (Z * Z) :=
  match fuel with
  | O => []
  | S fuel' =>
      let end_ := Z.min (start + size) n in
      (start, end_) ::
        (if end_ =? n then [] else windows_from fuel' n size step (start + step))
  end.

Definition windows (n size step : Z) : list (Z * Z) :=
  windows_from (Z.to_nat n) n size step 0.

(** The text of the window [w] of [words]. *)
Definition render (words : list (list N)) (w : Z * Z) : list N :=
  join (lit " ") (slice words w.1 w.2).

(** [step = size - overlap (minimum 1)] *)
Definition spec_step (size overlap : Z) : Z := Z.max (size - overlap) 1.

(** Chunking as a plain windowing, with nothing discarded. *)
Definition plain_windowing (cfg : RAGConfig) (text : list N) : Prop :=
  let words := findall_nonspace text in
  let size := chunk_size_tokens cfg in
  let step := spec_step size (chunk_overlap_tokens cfg) in
  _chunk_text cfg text = Ok (map (render words) (windows (len words) size step)).

(** Chunking as a windowing from which the placeholder windows are dropped. *)
Definition filtered_windowing (cfg : RAGConfig) (text : list N) : Prop :=
  let words := findall_nonspace text in
  let size := chunk_size_tokens cfg in
  let step := spec_step size (chunk_overlap_tokens cfg) in
  _chunk_text cfg text =
    Ok (List.filter (fun c => negb (is_placeholder c))
          (map (render words) (windows (len words) size step))).

(** Consecutive windows share exactly [overlap] words: what is left of a
    window after its first [step] words is the first [overlap] words of the
    next one. *)
Fixpoint overlaps (step overlap : Z) (ws : list (list (list N))) : Prop :=
  match ws with
  | a :: (b :: _) as rest =>
      slice a step (len a) = slice b 0 overlap
      /\ len (slice b 0 overlap) = overlap
      /\ overlaps step overlap rest
  | _ => True
  end.

(** The first [step] words of every window but the last, then the whole of
    the last one. *)
Fixpoint stitch (step : Z) (ws : list (list (list N))) : list (list N) :=
  match ws with
  | [] => []
  | [w] => w
  | w :: rest => slice w 0 step ++ stitch step rest
  end.

(** The windowing law of the specification, on the chunks produced. *)
Definition chunking_law (size overlap : Z) (words chunks : list (list N)) : Prop :=
  let ws := map findall_nonspace chunks in
  Forall (fun w => len w <= size) ws
  /\ overlaps (size - overlap) overlap ws
  /\ stitch (size - overlap) ws = words.

(** The windowing law holds of what the chunker returns. *)
Definition chunking_law_holds (cfg : RAGConfig) (text : list N) : Prop :=
  exists chunks,
    _chunk_text cfg text = Ok chunks
    /\ chunking_law (chunk_size_tokens cfg) (chunk_overlap_tokens cfg)
         (findall_nonspace text) chunks.

(** The windows start at 0, step, 2*step, ...; each ends [size] words later
    or at the end [n] of the words; the last one, and only the last one,
    reaches the end. *)
Definition windows_shape (n size step : Z) (ws : list (Z * Z)) : Prop :=
  map fst ws = progression 0 step (length ws)
  /\ Forall (fun w => w.2 = Z.min (w.1 + size) n /\ w.2 - w.1 <= size) ws
  /\ exists ws' last,
       ws = ws' ++ [(last, n)] /\ Forall (fun w => w.2 < n) ws'.

(** The chunks of a section text ([_chunk_text] never raises). *)
Definition chunks_of (cfg : RAGConfig) (text : list N) : list (list N) :=
  match _chunk_text cfg text with
  | Ok chunks => chunks
  | Raise _ => []
  end.

(** The chunks of a document with their section ids: section order, then
    window order. *)
Definition all_chunks (cfg : RAGConfig) (cleaned_pages : list (list N * list N))
    : list (list N * list N) :=
  flat_map (fun p : list N * list N => map (fun pc => (p.1, pc)) (chunks_of cfg p.2))
    cleaned_pages.

(** The id of the chunk with ordinal [counter]. *)
Definition chunk_id_at (counter : Z) : list N := lit "chunk-" ++ format_05d counter.

(** The documents of section-tagged chunks numbered [counter + 1],
    [counter + 2], ... *)
Fixpoint number_from (source_file parsing_method : list N) (counter : Z)
    (items : list (list N * list N)) : list Document :=
  match items with
  | [] => []
  | (sec_id, pc) :: rest =>
      {| page_content := pc;
         metadata := chunk_meta (chunk_id_at (counter + 1)) sec_id source_file
                       parsing_method |}
      :: number_from source_file parsing_method (counter + 1) rest
  end.

(** [doc.metadata.get("chunk_id")], the empty string standing for [None]. *)
Definition chunk_id_of (doc : Document) : list N :=
  default [] (metadata doc !! lit "chunk_id").

(** Every string of the list is smaller than the next one. *)
Fixpoint increasing (l : list (list N)) : bool :=
  match l with
  | a :: (b :: _) as rest => str_ltb a b && increasing rest
  | _ => true
  end.

(** All strings of the list have one width. *)
Definition fixed_width (l : list (list N)) : Prop :=
  forall a b, In a l -> In b l -> length a = length b.

(** The chunk ids as fixed-width ordinals in increasing order. *)
Definition fixed_width_ids (cfg : RAGConfig) (cleaned_pages : list (list N * list N))
    (source_file parsing_method : list N) : Prop :=
  exists docs,
    chunk_pages cfg cleaned_pages source_file parsing_method = Ok docs
    /\ fixed_width (map chunk_id_of docs)
    /\ increasing (map chunk_id_of docs) = true.

(** The check, for the [fuel] ordinals from [k] on, that an id has eleven
    code points and is greater than the id before it. *)
Fixpoint ids_ordered (fuel : nat) (k : Z) : bool :=
  match fuel with
  | O => true
  | S fuel' =>
      (length (chunk_id_at k) =? 11)%nat
      && str_ltb (chunk_id_at (k - 1)) (chunk_id_at k)
      && ids_ordered fuel' (k + 1)
  end.

(** [k] sections of one word each. *)
Definition one_word_sections (k : nat) : list (list N * list N) :=
  map (fun i : nat => (lit "slide-" ++ format_05d (Z.of_nat i), lit "w")) (seq 1 k).

(** No window of the text is one of the placeholder artifacts. *)
Definition no_placeholder_window (cfg : RAGConfig) (text : list N) : bool :=
  let words := findall_nonspace text in
  let size := chunk_size_tokens cfg in
  let step := spec_step size (chunk_overlap_tokens cfg) in
  forallb (fun w => negb (is_placeholder (render words w)))
    (windows (len words) size step).

(** A text of [k] distinct words [w00000 w00001 ...]. *)
Definition sample_text (k : nat) : list N :=
  join (lit " ")
    (map (fun i : nat => lit "w" ++ format_05d (Z.of_nat i)) (seq 0 k)).

End ChunkingSpec.

(** A configuration with the given chunk size and overlap. *)
Definition with_chunking (size overlap : Z) : RAGConfig := {|
  model_name := model_name default_config;
  chunk_size_tokens := size;
  chunk_overlap_tokens := overlap;
  top_k := top_k default_config;
  max_pages_pdf := max_pages_pdf default_config;
  max_distance := max_distance default_config;
  max_query_tokens := max_query_tokens default_config;
  max_context_tokens := max_context_tokens default_config;
  max_output_tokens := max_output_tokens default_config;
  max_file_size_mb := max_file_size_mb default_config;
  session_dir := session_dir default_config;
  device := device default_config;
  groq_model := groq_model default_config;
  groq_fallbacks := groq_fallbacks default_config;
  allow_zip_download := allow_zip_download default_config
|}.


(** ** Extraction, by the handler taken *)

Module ExtractionSpec.
Import PyStr Parsing.

(** The extensions whose file is read as text and kept as it is. *)
Definition text_exts : list (list N) :=
  [lit ".txt"; lit ".log"; lit ".md"; lit ".py"; lit ".js"; lit ".ts";
   lit ".java"; lit ".c"; lit ".cpp"; lit ".go"; lit ".rs"].

(** The sections of a document that [parse_file] returned: none exactly
    for a PDF of zero pages and for a presentation of zero slides; the
    single section "section-1" for every other extension, with a text that
    is not empty when the extension has no handler. *)
Definition success_sections (w : World) (path ext : list N) (doc : ParsedDocument)
    : Prop :=
  (sections_text doc = [] <->
     (ext = lit ".pdf" /\ fitz_pages w path = Ok [])
     \/ (ext = lit ".pptx" /\ pptx_slides w path = Ok []))
  /\ (ext ∉ paginated_exts ->
      exists txt, sections_text doc = [(lit "section-1", txt)])
  /\ (ext ∉ paginated_exts -> ext ∉ flat_exts ->
      parsing_method doc = lit "llm-assisted"
      /\ exists parsed,
           sections_text doc = [(lit "section-1", parsed)] /\ parsed <> []).

(** The document without sections. *)
Definition empty_document (w : World) (path : list N) : ParsedDocument :=
  {| source_path := path; source_filename := basename w path;
     sections_text := []; parsing_method := lit "deterministic";
     page_count := 0 |}.

(** The exception of [_parse_pdf] on a PDF over the page limit. *)
Definition page_limit_error (total_pages : Z) (cfg : RAGConfig) : exn :=
  ValueError (lit "PDF has " ++ str_int total_pages
              ++ lit " pages; limit is " ++ str_int (max_pages_pdf cfg)).

(** A presentation of zero slides is parsed into the document without
    sections; so is a PDF of zero pages, unless the page limit is
    negative, which raises the page-limit error. *)
Definition empty_files_parse (w : World) (path ext : list N) (cfg : RAGConfig)
    : Prop :=
  (ext = lit ".pptx" -> pptx_slides w path = Ok [] ->
   parse_file w path ext cfg = Ok (empty_document w path))
  /\ (ext = lit ".pdf" -> fitz_pages w path = Ok [] ->
      parse_file w path ext cfg
      = if max_pages_pdf cfg <? 0 then Raise (page_limit_error 0 cfg)
        else Ok (empty_document w path)).

(** The exception [e] is that of reading the file or of a library call, or
    the page-limit error of a PDF. *)
Definition handler_failure (w : World) (path : list N) (cfg : RAGConfig) (e : exn)
    : Prop :=
  _read_text_fallback w path = Raise e
  \/ fitz_pages w path = Raise e
  \/ (exists pages,
        fitz_pages w path = Ok pages /\ max_pages_pdf cfg < len pages
        /\ e = page_limit_error (len pages) cfg)
  \/ docx_paragraphs w path = Raise e
  \/ (exists html, _read_text_fallback w path = Ok html
                   /\ soup_get_text w html = Raise e)
  \/ csv_rows w path = Raise e
  \/ (exists raw, _read_text_fallback w path = Ok raw
                  /\ json_reformat w raw = Raise e)
  \/ pptx_slides w path = Raise e.

(** With the API key set and the file read, a model whose reply is blank
    whatever the prompt makes the parse fail. *)
Definition blank_reply_fails (w : World) (path ext : list N) (cfg : RAGConfig)
    : Prop :=
  forall key content,
    groq_api_key w = Some key -> key <> [] ->
    _read_text_fallback w path = Ok content ->
    (forall prompt, exists resp,
       llm_invoke w (groq_model cfg) prompt (max_output_tokens cfg) = Ok resp
       /\ strip resp = []) ->
    parse_file w path ext cfg
    = Raise (ValueError (lit "File cannot be meaningfully interpreted")).

End ExtractionSpec.

(** ** The ranges of a validated configuration *)

Module ConfigSpec.
Import PyFloat.

(** What [validate] asks of a configuration. A distance threshold passes
    when it is greater than 0, and also when it is not a number. *)
Definition in_ranges (cfg : RAGConfig) : Prop :=
  400 <= chunk_size_tokens cfg <= 600
  /\ 80 <= chunk_overlap_tokens cfg <= 100
  /\ 1 <= top_k cfg
  /\ (ltb (Finite 0) (max_distance cfg) = true \/ max_distance cfg = NaN)
  /\ 1 <= max_pages_pdf cfg
  /\ 1 <= max_query_tokens cfg
  /\ 1 <= max_context_tokens cfg
  /\ 1 <= max_output_tokens cfg
  /\ 1 <= max_file_size_mb cfg.

(** The default configuration with another distance threshold. *)
Definition with_max_distance (d : float) : RAGConfig := {|
  model_name := model_name default_config;
  chunk_size_tokens := chunk_size_tokens default_config;
  chunk_overlap_tokens := chunk_overlap_tokens default_config;
  top_k := top_k default_config;
  max_pages_pdf := max_pages_pdf default_config;
  max_distance := d;
  max_query_tokens := max_query_tokens default_config;
  max_context_tokens := max_context_tokens default_config;
  max_output_tokens := max_output_tokens default_config;
  max_file_size_mb := max_file_size_mb default_config;
  session_dir := session_dir default_config;
  device := device default_config;
  groq_model := groq_model default_config;
  groq_fallbacks := groq_fallbacks default_config;
  allow_zip_download := allow_zip_download default_config
|}.

End ConfigSpec.

(** ** The chunks of a section and of a document *)

Module ChunksSpec.
Import PyStr Chunking ChunkingSpec.

(** The decimal number a string of ASCII digits denotes; any other code
    point reads as the digit 0. *)
Fixpoint codes_uint (s : list N) : Decimal.uint :=
  match s with
  | [] => Decimal.Nil
  | c :: s' =>
      let d := codes_uint s' in
      if (c =? 49)%N then Decimal.D1 d
      else if (c =? 50)%N then Decimal.D2 d
      else if (c =? 51)%N then Decimal.D3 d
      else if (c =? 52)%N then Decimal.D4 d
      else if (c =? 53)%N then Decimal.D5 d
      else if (c =? 54)%N then Decimal.D6 d
      else if (c =? 55)%N then Decimal.D7 d
      else if (c =? 56)%N then Decimal.D8 d
      else if (c =? 57)%N then Decimal.D9 d
      else Decimal.D0 d
  end.

(** The ordinal written in a chunk id: what follows ["chunk-"], read as a
    decimal number. *)
Definition ordinal_of (chunk_id : list N) : N :=
  N.of_uint (codes_uint (drop (length (lit "chunk-")) chunk_id)).

(** The keys of the metadata dict of a chunk. *)
Definition meta_keys : gset (list N) :=
  {[ lit "chunk_id"; lit "section_or_page"; lit "source_file";
     lit "parsing_method" ]}.

(** A section whose text has no word. *)
Definition wordless (p : list N * list N) : bool :=
  bool_decide (findall_nonspace p.2 = []).

(** The chunk [c] is a window of [words]: a run of 1 to [size] consecutive
    words joined by single spaces, which splits into these words again,
    begins and ends with a code point that is not whitespace, and is no
    placeholder. *)
Definition window_chunk (cfg : RAGConfig) (words : list (list N)) (c : list N) : Prop :=
  exists s e,
    0 <= s < e /\ e <= len words /\ e - s <= window_size cfg
    /\ c = join (lit " ") (slice words s e)
    /\ findall_nonspace c = slice words s e
    /\ trimmed c
    /\ is_placeholder c = false.

(** The metadata of the document [d] among the [total] chunks of
    [cleaned_pages]: the four keys, the file and the method given, the id
    of an ordinal up to [total], and a section whose chunks hold its
    content. *)
Definition tagged_chunk (cfg : RAGConfig) (cleaned_pages : list (list N * list N))
    (source_file parsing_method : list N) (total : Z) (d : Document) : Prop :=
  dom (metadata d) = meta_keys
  /\ metadata d !! lit "source_file" = Some source_file
  /\ metadata d !! lit "parsing_method" = Some parsing_method
  /\ (exists k, 1 <= k <= total
        /\ metadata d !! lit "chunk_id" = Some (chunk_id_at k))
  /\ (exists sec_id text,
        In (sec_id, text) cleaned_pages
        /\ metadata d !! lit "section_or_page" = Some sec_id
        /\ _chunk_text cfg text = Ok (chunks_of cfg text)
        /\ In (page_content d) (chunks_of cfg text)).

(** Two cleaned pages and their chunks under size 3 and overlap 1. *)
Definition sample_pages : list (list N * list N) :=
  [(lit "page-1", lit "a b c d"); (lit "page-2", lit "e f")].

Definition sample_chunks : list Document :=
  match chunk_pages (with_chunking 3 1) sample_pages (lit "f.pdf")
          (lit "deterministic") with
  | Ok docs => docs
  | Raise _ => []
  end.

End ChunksSpec.

(** ** The order of the retrieved pairs *)

Module RetrievalSpec.
Import PyFloat.

(** Each pair is not farther than the next one. *)
Fixpoint ascending (l : list (Document * float)) : Prop :=
  match l with
  | a :: (b :: _) as rest => leb a.2 b.2 = true /\ ascending rest
  | _ => True
  end.

(** [res] is a sound answer to a search that returned [docs] under the
    threshold: not empty, a sublist of [docs], and either the pairs within
    the threshold or, none being within it, one single pair. *)
Definition sound_result (threshold : float) (docs res : list (Document * float))
    : Prop :=
  res <> []
  /\ res `sublist_of` docs
  /\ ((res = Retrieval.keep_within threshold docs
       /\ Forall (fun ds => leb ds.2 threshold = true) res)
      \/ (Forall (fun ds => leb ds.2 threshold = false) docs
          /\ exists best, res = [best])).

(** [best] is the first pair of least distance in [docs]. *)
Definition first_minimum (docs : list (Document * float)) (best : Document * float)
    : Prop :=
  exists pre post,
    docs = pre ++ best :: post
    /\ Forall (fun ds => ltb best.2 ds.2 = true) pre
    /\ Forall (fun ds => leb best.2 ds.2 = true) post.

(** Three search results in the order of their distances, the first one
    within the default threshold 1.2. *)
Definition sorted_results : list (Document * float) :=
  [(AnswerSpec.sample_doc (PyStr.lit "gamma") (PyStr.lit "chunk-00003") (PyStr.lit "page-3"),
    Finite (7 # 10));
   (AnswerSpec.sample_doc (PyStr.lit "beta") (PyStr.lit "chunk-00002") (PyStr.lit "page-2"),
    Finite (13 # 10));
   (AnswerSpec.sample_doc (PyStr.lit "alpha") (PyStr.lit "chunk-00001") (PyStr.lit "page-1"),
    Finite (15 # 10))].

(** Three search results beyond the default threshold, the last two at the
    same distance. *)
Definition tied_results : list (Document * float) :=
  [(AnswerSpec.sample_doc (PyStr.lit "alpha") (PyStr.lit "chunk-00001") (PyStr.lit "page-1"),
    Finite (15 # 10));
   (AnswerSpec.sample_doc (PyStr.lit "beta") (PyStr.lit "chunk-00002") (PyStr.lit "page-2"),
    Finite (13 # 10));
   (AnswerSpec.sample_doc (PyStr.lit "gamma") (PyStr.lit "chunk-00003") (PyStr.lit "page-3"),
    Finite (13 # 10))].

End RetrievalSpec.

(** ** The model calls of the generator *)

Module GenerationSpec.
Import PyStr PyFloat Generation.

(** The test of [generate] on the message of a failed model call. *)
Definition decommissioned (e : exn) : bool :=
  contains (exn_message e) (lit "model_decommissioned")
  || contains (exn_message e) (lit "has been decommissioned").

(** The call [generate] makes of the model [name] for a question over the
    retrieved pairs. *)
Definition call (self : GroqGenerator) (name question : list N)
    (docs : list (Document * float)) : result (list N) :=
  invoke self name (format_messages self (_build_context self docs).1 question)
    (max_output_tokens (cfg self)).

(** The result [(text, citations)] of [generate], with [name] the model
    kept: a refusal, or the stripped reply of the model [name] followed by
    the citations of the assembled context in brackets. *)
Definition result_shape (self : GroqGenerator) (question : list N)
    (docs : list (Document * float)) (text : list N) (citations : list Citation)
    (name : list N) : Prop :=
  (citations = [] /\ name = model_name self
   /\ (text = refusal_text \/ text = too_long_text))
  \/ (citations <> []
      /\ citations = (_build_context self docs).2
      /\ (name = model_name self \/ In name (groq_fallbacks (cfg self)))
      /\ exists content,
           call self name question docs = Ok content
           /\ text = strip content ++ lit " ["
                     ++ join (lit " ; ") (map citation_item citations) ++ lit "]").

(** The exception [e] of [generate], with [name] the model kept: the
    exception of the call of the configured model on the answering path,
    every fallback having failed when [e] reports a decommissioned model. *)
Definition first_error (self : GroqGenerator) (question : list N)
    (docs : list (Document * float)) (e : exn) (name : list N) : Prop :=
  docs <> []
  /\ _count_tokens self question <= max_query_tokens (cfg self)
  /\ (_build_context self docs).1 <> []
  /\ call self (model_name self) question docs = Raise e
  /\ (if decommissioned e
      then Forall (fun c => is_ok (call self c question docs) = false)
             (groq_fallbacks (cfg self))
           /\ name = List.last (groq_fallbacks (cfg self)) (model_name self)
      else name = model_name self).

(** A configuration with another context budget. *)
Definition set_max_context_tokens (c : RAGConfig) (budget : Z) : RAGConfig := {|
  Config.model_name := Config.model_name c;
  chunk_size_tokens := chunk_size_tokens c;
  chunk_overlap_tokens := chunk_overlap_tokens c;
  top_k := top_k c;
  max_pages_pdf := max_pages_pdf c;
  max_distance := max_distance c;
  max_query_tokens := max_query_tokens c;
  max_context_tokens := budget;
  max_output_tokens := max_output_tokens c;
  max_file_size_mb := max_file_size_mb c;
  session_dir := session_dir c;
  device := device c;
  groq_model := groq_model c;
  groq_fallbacks := groq_fallbacks c;
  allow_zip_download := allow_zip_download c
|}.

(** The same generator under another context budget. *)
Definition with_budget (self : GroqGenerator) (budget : Z) : GroqGenerator := {|
  cfg := set_max_context_tokens (cfg self) budget;
  model_name := model_name self;
  tokenizer_encode := tokenizer_encode self;
  format_4f := format_4f self;
  format_messages := format_messages self;
  invoke := invoke self
|}.

(** A configuration with other fallback models. *)
Definition set_groq_fallbacks (c : RAGConfig) (fallbacks : list (list N)) : RAGConfig := {|
  Config.model_name := Config.model_name c;
  chunk_size_tokens := chunk_size_tokens c;
  chunk_overlap_tokens := chunk_overlap_tokens c;
  top_k := top_k c;
  max_pages_pdf := max_pages_pdf c;
  max_distance := max_distance c;
  max_query_tokens := max_query_tokens c;
  max_context_tokens := max_context_tokens c;
  max_output_tokens := max_output_tokens c;
  max_file_size_mb := max_file_size_mb c;
  session_dir := session_dir c;
  device := device c;
  groq_model := groq_model c;
  groq_fallbacks := fallbacks;
  allow_zip_download := allow_zip_download c
|}.

(** A generator whose configured model and first fallback are retired, the
    second fallback answering. *)
Definition retired_generator : GroqGenerator := {|
  cfg := set_groq_fallbacks default_config [lit "model-b"; lit "model-c"; lit "model-d"];
  model_name := lit "model-a";
  tokenizer_encode := map Z.of_N;
  format_4f := fun _ => lit "0.0000";
  format_messages := fun context question =>
    [(lit "system", context); (lit "human", question)];
  invoke := fun name _ _ =>
    if bool_decide (name = lit "model-a")
    then Raise (ExternalError (lit "The model has been decommissioned"))
    else if bool_decide (name = lit "model-b")
    then Raise (ExternalError (lit "rate limit"))
    else Ok (lit " fine ")
|}.

(** A generator all of whose models fail. *)
Definition failing_generator : GroqGenerator := {|
  cfg := set_groq_fallbacks default_config [lit "model-b"; lit "model-c"];
  model_name := lit "model-a";
  tokenizer_encode := map Z.of_N;
  format_4f := fun _ => lit "0.0000";
  format_messages := fun context question =>
    [(lit "system", context); (lit "human", question)];
  invoke := fun name _ _ =>
    if bool_decide (name = lit "model-a")
    then Raise (ExternalError (lit "model_decommissioned"))
    else Raise (ExternalError (lit "rate limit"))
|}.

End GenerationSpec.

(** ** Cleaning outside the page rules *)

Module ParsingSpec.
Import PyStr Parsing Regex Cleaning.

(** The filter of the cleaner outside the page rules: a line is kept when
    it is neither empty nor a rule. *)
Definition plain_keeps (l : list N) : bool :=
  negb (bool_decide (l = [])) && negb (fullmatch rule_re l).

(** Cleaning without the header, footer and page-number rules. *)
Definition clean_plain (p : list N * list N) : list N * list N :=
  (p.1, _normalize_spaces
          (join [10%N] (List.filter plain_keeps (map strip (splitlines p.2))))).


(** The invariants of a document parsed from [path] with extension [ext]. *)
Definition parsed_invariants (w : World) (path ext : list N) (cfg : RAGConfig)
    (doc : ParsedDocument) : Prop :=
  page_count doc = len (sections_text doc)
  /\ source_path doc = path
  /\ source_filename doc = basename w path
  /\ (ext = lit ".pdf" -> page_count doc <= max_pages_pdf cfg)
  /\ (if bool_decide (ext ∈ paginated_exts ++ flat_exts)
      then parsing_method doc = lit "deterministic"
      else parsing_method doc = lit "llm-assisted").

(** The sections of a parsed PDF are its pages, those of a parsed
    presentation its slides, numbered from 1; any other document has the
    single section "section-1". *)
Definition numbered_sections (w : World) (path ext : list N) (doc : ParsedDocument)
    : Prop :=
  (ext = lit ".pdf" ->
     exists pages,
       fitz_pages w path = Ok pages
       /\ length (sections_text doc) = length pages
       /\ forall (i : nat) page, pages !! i = Some page ->
            sections_text doc !! i
            = Some (lit "page-" ++ str_int (Z.of_nat i + 1), or_empty page))
  /\ (ext = lit ".pptx" ->
        exists slides,
          pptx_slides w path = Ok slides
          /\ length (sections_text doc) = length slides
          /\ forall (i : nat) shapes, slides !! i = Some shapes ->
               sections_text doc !! i
               = Some (lit "slide-" ++ str_int (Z.of_nat i + 1),
                       join [10%N] (slide_texts shapes)))
  /\ (ext <> lit ".pdf" -> ext <> lit ".pptx" ->
        map fst (sections_text doc) = [lit "section-1"]).

(** The conditions under which the assisted parse of [path] gives [doc]. *)
Definition assisted_success (w : World) (path : list N) (cfg : RAGConfig)
    (doc : ParsedDocument) : Prop :=
  exists key content ids resp,
    groq_api_key w = Some key /\ key <> []
    /\ _read_text_fallback w path = Ok content
    /\ ids = take (Z.to_nat (max_context_tokens cfg)) (encode w content)
    /\ len ids <= max_context_tokens cfg
    /\ llm_invoke w (groq_model cfg) (parser_prompt (decode w ids))
         (max_output_tokens cfg) = Ok resp
    /\ strip resp <> []
    /\ strip (str_upper w (strip resp)) <> lit "UNPARSEABLE"
    /\ doc = {| source_path := path; source_filename := basename w path;
                sections_text := [(lit "section-1", strip resp)];
                parsing_method := lit "llm-assisted"; page_count := 1 |}.

(** A world whose PDF has two pages, the second without text, and whose
    chat model reads every file as the text " notes ". *)
Definition two_page_world : World :=
  {| basename := fun path => path;
     _read_text_fallback := fun _ => Ok (lit "raw bytes");
     fitz_pages := fun _ => Ok [Some (lit "one"); None];
     docx_paragraphs := fun _ => Ok [];
     soup_get_text := fun _ => Ok [];
     csv_rows := fun _ => Ok [];
     json_reformat := fun _ => Raise (ValueError (lit "Expecting value"));
     pptx_slides := fun _ => Ok [[Some (Some (lit "title")); None; Some None]];
     groq_api_key := Some (lit "key");
     encode := map Z.of_N;
     decode := map Z.to_N;
     llm_invoke := fun _ _ _ => Ok (lit " notes ");
     str_upper := fun s => s |}.

(** What [parse_file] gives in this world, or an empty document. *)
Definition sample_parse (path ext : list N) : ParsedDocument :=
  match parse_file two_page_world path ext default_config with
  | Ok doc => doc
  | Raise _ => single_section two_page_world path []
  end.

End ParsingSpec.

(** ** The shape of a cleaned text *)

Module CleanedSpec.
Import PyStr Parsing Regex Cleaning.

(** A rule line: three or more rule characters and nothing else. *)
Definition rule_line (l : list N) : Prop :=
  (3 <= length l)%nat /\ Forall (fun c => isrule c = true) l.

(** A line as the cleaner leaves it: stripped, not empty, without line
    boundary, its blanks single spaces, and not a rule. *)
Definition clean_line (l : list N) : Prop :=
  line_ok l /\ sub_blanks l = l /\ ~ In 9%N l /\ ~ rule_line l.

(** A text that is its clean lines joined by single newlines. *)
Definition clean_shape (text : list N) : Prop :=
  text = join [10%N] (splitlines text)
  /\ Forall clean_line (splitlines text)
  /\ strip text = text.

End CleanedSpec.

(** ** Normalised texts *)

Module NormalSpec.
Import PyStr Cleaning.

(** No tab, and no space next to a space. *)
Fixpoint blank_normal (s : list N) : Prop :=
  match s with
  | [] => True
  | c :: rest =>
      c <> 9%N /\ (c = 32%N -> head rest <> Some 32%N) /\ blank_normal rest
  end.

(** No three newlines in a row. *)
Fixpoint no_triple (s : list N) : Prop :=
  match s with
  | [] => True
  | c :: rest => (forall r, c :: rest <> 10%N :: 10%N :: 10%N :: r) /\ no_triple rest
  end.

(** A text as [_normalize_spaces] leaves it. *)
Definition normalized (s : list N) : Prop :=
  blank_normal s /\ no_triple s /\ strip s = s.

End NormalSpec.

(** ** [app/streamlit_app.py]: the upload block and the question block *)

Module App.
Import PyStr PyFloat Parsing Cleaning Chunking Retrieval Generation.

(** The entries of [st.session_state] that the upload block reads and
    writes. Writing the uploaded file, [detect_file], the messages shown and
    the log are outside the model: the block is given the path, the
    extension and the outcome of the size test. *)
Record Session : Type := {
  parsed : option ParsedDocument;
  cleaned_pages : option (list (list N * list N));
  docs : option (list Document);
  faiss : option FAISS
}.

(** The session [init_session] sets up. *)
Definition fresh : Session :=
  {| parsed := None; cleaned_pages := None; docs := None; faiss := None |}.

Section Upload.

Variable isdecimal : N -> bool.
Variable w : World.
(** [FAISSStore.build_index] over the embeddings of the chunks, followed by
    [save_local]. *)
Variable build_index : list Document -> result FAISS.

(** The block [if uploaded:] for a file named [name], stored at [path] with
    extension [ext]; [too_large] is the outcome of the size test. An
    exception of parsing is shown and the session left as it was; the
    chunking then runs on whatever pages the session holds. *)
Definition upload (cfg : RAGConfig) (s : Session) (name path ext : list N)
    (too_large : bool) : result Session :=
  let s :=
    if too_large then s
    else match parse_file w path ext cfg with
         | Ok p =>
             {| parsed := Some p; cleaned_pages := Some (clean_text isdecimal p);
                docs := docs s; faiss := faiss s |}
         | Raise _ => s
         end in
  match cleaned_pages s with
  | Some (page :: pages) =>
      match parsed s with
      | Some p =>
          ds ← chunk_pages cfg (page :: pages) name (parsing_method p);
          index ← build_index ds;
          Ok {| parsed := parsed s; cleaned_pages := cleaned_pages s;
                docs := Some ds; faiss := Some index |}
      | None => Raise (ExternalError (lit "'NoneType' object has no attribute 'parsing_method'"))
      end
  | _ => Ok s
  end.

(** The session after an upload whose file was parsed into [p]. *)
Definition upload_parsed (cfg : RAGConfig) (s : Session) (name ext : list N)
    (p : ParsedDocument) (s' : Session) : Prop :=
  parsed s' = Some p
  /\ cleaned_pages s' = Some (clean_text isdecimal p)
  /\ (sections_text p = [] -> docs s' = docs s /\ faiss s' = faiss s)
  /\ (sections_text p <> [] ->
      exists ds index,
        docs s' = Some ds /\ faiss s' = Some index
        /\ chunk_pages cfg (clean_text isdecimal p) name (parsing_method p) = Ok ds
        /\ build_index ds = Ok index
        /\ Forall (fun d =>
                     metadata d !! lit "source_file" = Some name
                     /\ metadata d !! lit "parsing_method"
                        = Some (if bool_decide (ext ∈ paginated_exts ++ flat_exts)
                                then lit "deterministic" else lit "llm-assisted")
                     /\ exists sec_id,
                          In sec_id (map fst (sections_text p))
                          /\ metadata d !! lit "section_or_page" = Some sec_id)
             ds).

(** The session after an upload that was refused or could not be parsed. *)
Definition upload_refused (cfg : RAGConfig) (s : Session) (name : list N)
    (s' : Session) : Prop :=
  parsed s' = parsed s
  /\ cleaned_pages s' = cleaned_pages s
  /\ (cleaned_pages s = None \/ cleaned_pages s = Some [] -> s' = s)
  /\ (forall p0 pages,
        parsed s = Some p0 -> cleaned_pages s = Some pages -> pages <> [] ->
        exists ds index,
          docs s' = Some ds /\ faiss s' = Some index
          /\ chunk_pages cfg pages name (parsing_method p0) = Ok ds
          /\ build_index ds = Ok index
          /\ Forall (fun d => metadata d !! lit "source_file" = Some name) ds).

End Upload.

(** An index that finds nothing. *)
Definition empty_index : FAISS :=
  {| similarity_search_with_score := fun _ _ => Ok [] |}.

(** The session after the upload of [name] in the world
    [ParsingSpec.two_page_world], every index being [empty_index] (the
    block does not raise there). *)
Definition sample_upload (s : Session) (name path ext : list N) (too_large : bool)
    : Session :=
  match upload Cleaning.ascii_digit ParsingSpec.two_page_world
          (fun _ => Ok empty_index) default_config s name path ext too_large with
  | Ok s' => s'
  | Raise _ => s
  end.

(** The block [if q:] of the question answering: a [ValueError] of the
    retriever leaves no result; [new_generator] is the outcome of
    [GroqGenerator(cfg)]; an [EnvironmentError] of the generation is
    answered by a fixed text. *)
Definition ask (retriever : Retriever) (new_generator : result GroqGenerator)
    (q : list N) : result (list N * list Citation) :=
  let cfg := Retrieval.cfg retriever in
  results ← match retrieve retriever q (Some (top_k cfg)) (Some (max_distance cfg)) with
            | Raise (ValueError _) => Ok []
            | r => r
            end;
  match generator ← new_generator; (generate generator q results).1 with
  | Raise (EnvironmentError _) => Ok (lit "Groq API key missing.", [])
  | r => r
  end.

End App.

(** * Properties of the string operations *)

Section PyStrFacts.
Import PyStr.

Lemma findall_nonspace_word (w rest : list N) :
  word_ok w ->
  match rest with [] => True | c :: _ => isspace c = true end ->
  findall_nonspace (w ++ rest) = w :: findall_nonspace rest.
Proof.
  intros [Hne Hall] Hrest. induction w as [|c w IH]; [done|].
  inversion Hall as [|? ? Hc Hw]; subst.
  destruct w as [|c' w'].
  - simpl. rewrite Hc. destruct rest as [|r rest']; [done|]. by rewrite Hrest.
  - change ((c :: c' :: w') ++ rest) with (c :: (c' :: w') ++ rest).
    cbn [findall_nonspace]. rewrite Hc.
    change ((c' :: w') ++ rest) with (c' :: w' ++ rest) at 1.
    cbv iota. inversion Hw as [|? ? Hc' _]; subst. rewrite Hc'.
    change (c' :: w' ++ rest) with ((c' :: w') ++ rest).
    rewrite IH; [done|done|done].
Qed.

Lemma findall_nonspace_ok (s : list N) : Forall word_ok (findall_nonspace s).
Proof.
  induction s as [|c s IH]; [constructor|].
  cbn [findall_nonspace]. destruct (isspace c) eqn:Hc; [done|].
  destruct s as [|c' s'].
  - repeat constructor; [done|done].
  - destruct (isspace c') eqn:Hc'.
    + constructor; [|done]. split; [done|]. by repeat constructor.
    + destruct (findall_nonspace (c' :: s')) as [|w ws].
      * repeat constructor; [done|done].
      * inversion IH as [|? ? [Hw1 Hw2] Hws]; subst.
        constructor; [|done]. split; [done|]. by constructor.
Qed.

Lemma findall_nonspace_join (ws : list (list N)) :
  Forall word_ok ws -> findall_nonspace (join (lit " ") ws) = ws.
Proof.
  induction 1 as [|w ws Hw Hws IH]; [done|].
  destruct ws as [|w2 ws'].
  - cbn [join]. rewrite <- (app_nil_r w) at 1.
    by rewrite findall_nonspace_word.
  - change (join (lit " ") (w :: w2 :: ws'))
      with (w ++ 32%N :: join (lit " ") (w2 :: ws')).
    rewrite findall_nonspace_word; [|done|done].
    cbn [findall_nonspace]. change (isspace 32) with true. cbv iota.
    by rewrite IH.
Qed.

Lemma lstrip_id (c : N) (s : list N) :
  isspace c = false -> lstrip (c :: s) = c :: s.
Proof. intros H. simpl. by rewrite H. Qed.

Lemma strip_id (s : list N) (a b : N) (s1 s2 : list N) :
  s = a :: s1 -> rev s = b :: s2 ->
  isspace a = false -> isspace b = false -> strip s = s.
Proof.
  intros -> Hr Ha Hb. unfold strip, rstrip. rewrite (lstrip_id _ _ Ha).
  rewrite Hr, (lstrip_id _ _ Hb), <- Hr. apply rev_involutive.
Qed.

Lemma word_ok_head (w : list N) :
  word_ok w -> exists c r, w = c :: r /\ isspace c = false.
Proof.
  intros [Hne Hall]. destruct w as [|c r]; [done|].
  inversion Hall; subst. eauto.
Qed.

Lemma word_ok_last (w : list N) :
  word_ok w -> exists c r, rev w = c :: r /\ isspace c = false.
Proof.
  intros [Hne Hall]. destruct (rev w) as [|c r] eqn:Hr.
  - apply (f_equal (@rev N)) in Hr. rewrite rev_involutive in Hr. done.
  - exists c, r. split; [done|].
    rewrite Forall_forall in Hall. apply Hall.
    apply list_elem_of_In, in_rev. rewrite Hr. by left.
Qed.

Lemma join_head (ws : list (list N)) :
  ws <> [] -> Forall word_ok ws ->
  exists c r, join (lit " ") ws = c :: r /\ isspace c = false.
Proof.
  intros Hne Hall. destruct ws as [|w ws]; [done|].
  inversion Hall as [|? ? Hw _]; subst.
  destruct (word_ok_head _ Hw) as (c & r & -> & Hc).
  destruct ws; cbn [join]; eauto.
Qed.

Lemma join_last (ws : list (list N)) :
  ws <> [] -> Forall word_ok ws ->
  exists c r, rev (join (lit " ") ws) = c :: r /\ isspace c = false.
Proof.
  intros Hne Hall. induction Hall as [|w ws Hw Hws IH]; [done|].
  destruct ws as [|w2 ws'].
  - cbn [join]. by apply word_ok_last.
  - change (join (lit " ") (w :: w2 :: ws'))
      with (w ++ lit " " ++ join (lit " ") (w2 :: ws')).
    destruct IH as (c & r & Hr & Hc); [done|].
    rewrite !rev_app_distr, Hr. simpl. eauto.
Qed.

Lemma strip_join (ws : list (list N)) :
  Forall word_ok ws -> strip (join (lit " ") ws) = join (lit " ") ws.
Proof.
  intros Hall. destruct ws as [|w ws]; [done|].
  destruct (join_head (w :: ws)) as (a & s1 & H1 & Ha); [done|done|].
  destruct (join_last (w :: ws)) as (b & s2 & H2 & Hb); [done|done|].
  by eapply strip_id.
Qed.

End PyStrFacts.

(** * Validated configurations *)

(** A configuration that passes [validate] meets the preconditions under
    which the chunker and the context assembler are stated below. *)
Lemma validate_bounds (cfg : RAGConfig) :
  validate cfg = Ok tt ->
  1 <= chunk_overlap_tokens cfg < chunk_size_tokens cfg
  /\ 1 <= max_query_tokens cfg /\ 1 <= max_context_tokens cfg.
Proof.
  unfold validate. intros H.
  repeat match type of H with
         | (if ?b then _ else _) = _ => destruct b eqn:?; [discriminate H|]
         end.
  repeat match goal with
         | E : negb _ = false |- _ => apply negb_false_iff in E
         | E : _ && _ = true |- _ => apply andb_prop in E as [? ?]
         | E : _ || _ = false |- _ => apply orb_false_elim in E as [? ?]
         end.
  lia.
Qed.

Example default_config_valid : validate default_config = Ok tt.
Proof. reflexivity. Qed.

(** * Slices *)

Section SliceFacts.
Import PyStr.
Context {A : Type}.
Implicit Types l : list A.

Lemma slice_nonneg l (a b : Z) :
  0 <= a -> 0 <= b ->
  slice l a b = take (Z.to_nat b - Z.to_nat a) (drop (Z.to_nat a) l).
Proof.
  intros Ha Hb. unfold slice, slice_bound.
  destruct (Z.ltb_spec a 0); [lia|]. destruct (Z.ltb_spec b 0); [lia|].
  destruct (Z_le_gt_dec a (Z.of_nat (length l))) as [Hal|Hal].
  - rewrite (Z.min_l a) by lia.
    destruct (Z_le_gt_dec b (Z.of_nat (length l))) as [Hbl|Hbl].
    + rewrite (Z.min_l b) by lia. f_equal. lia.
    + rewrite (Z.min_r b) by lia.
      rewrite !take_ge; [done| |]; rewrite length_drop; lia.
  - rewrite (Z.min_r a) by lia. rewrite !drop_ge by lia. by rewrite !take_nil.
Qed.

Lemma len_slice l (a b : Z) :
  0 <= a <= b -> b <= len l -> len (slice l a b) = b - a.
Proof.
  intros Hab Hb. unfold len in *. rewrite slice_nonneg by lia.
  rewrite length_take, length_drop. lia.
Qed.

Lemma slice_to_end l (a : Z) :
  0 <= a -> slice l a (len l) = drop (Z.to_nat a) l.
Proof.
  intros Ha. unfold len. rewrite slice_nonneg by lia.
  apply take_ge. rewrite length_drop. lia.
Qed.

Lemma slice_slice l (a b c d : Z) :
  0 <= a -> 0 <= c <= d -> a + d <= b -> b <= len l ->
  slice (slice l a b) c d = slice l (a + c) (a + d).
Proof.
  intros Ha Hcd Hd Hb. unfold len in *. rewrite !slice_nonneg by lia.
  replace (Z.to_nat b - Z.to_nat a)%nat
    with (Z.to_nat c + (Z.to_nat b - Z.to_nat a - Z.to_nat c))%nat by lia.
  rewrite <- take_drop_commute, take_take, drop_drop.
  f_equal; [lia|]. f_equal. lia.
Qed.

Lemma slice_app_drop l (a b : Z) :
  0 <= a <= b -> slice l a b ++ drop (Z.to_nat b) l = drop (Z.to_nat a) l.
Proof.
  intros Hab. rewrite slice_nonneg by lia.
  rewrite <- (take_drop (Z.to_nat b - Z.to_nat a) (drop (Z.to_nat a) l)) at 2.
  rewrite drop_drop. do 2 f_equal. lia.
Qed.

Lemma Forall_slice (P : A -> Prop) l (a b : Z) :
  Forall P l -> Forall P (slice l a b).
Proof. intros H. unfold slice. by apply Forall_take, Forall_drop. Qed.

End SliceFacts.

Lemma progression_S (start step : Z) (m : nat) :
  PyStr.progression start step (S m)
  = start :: PyStr.progression (start + step) step m.
Proof.
  unfold PyStr.progression. cbn [seq map]. f_equal; [lia|].
  rewrite <- seq_shift, map_map. apply map_ext. intros i. lia.
Qed.

Lemma progression_bounds (start step : Z) (m : nat) :
  0 <= step ->
  Forall (fun s => start <= s <= start + (Z.of_nat m - 1) * step)
    (PyStr.progression start step m).
Proof.
  intros Hstep. revert start. induction m as [|m IH]; intros start; [constructor|].
  rewrite progression_S. constructor; [nia|].
  eapply Forall_impl; [apply IH|]. intros s Hs. cbn beta in Hs. nia.
Qed.

(** * The window loop of the chunker *)

Section ChunkLoop.
Import PyStr Chunking ChunkingSpec.

Variable words : list (list N).
Variables size step : Z.
Hypothesis words_ok : Forall word_ok words.
Hypothesis step_pos : 1 <= step.
Hypothesis step_le_size : step <= size.

Let n := len words.

Lemma chunk_text_render (s e : Z) :
  strip (join (lit " ") (slice words s e)) = render words (s, e).
Proof. unfold render. apply strip_join. by apply Forall_slice. Qed.

Lemma render_nonempty (s e : Z) :
  0 <= s < e -> e <= n -> render words (s, e) <> [].
Proof.
  intros Hs He. unfold render. cbn [fst snd].
  destruct (join_head (slice words s e)) as (c & r & -> & _); [| |done].
  - intros Hnil. pose proof (len_slice words s e) as Hl.
    rewrite Hnil in Hl. unfold len in Hl at 2. cbn in Hl. fold n in Hl. lia.
  - by apply Forall_slice.
Qed.

Lemma placeholder_words (ws : list (list N)) :
  Forall word_ok ws -> is_placeholder (join (lit " ") ws) = true ->
  ws = [lit "[CLS]"] \/ ws = [lit "[SEP]"] \/ ws = [lit "[CLS]"; lit "[SEP]"].
Proof.
  intros Hws Hp. apply bool_decide_eq_true in Hp.
  apply (findall_nonspace_join ws) in Hws. rewrite <- Hws.
  unfold placeholder_artifacts in Hp. rewrite !elem_of_cons in Hp.
  destruct Hp as [-> | [-> | [-> | Hp]]]; [auto..|].
  by apply elem_of_nil in Hp.
Qed.

(** Once a window that reaches the end has been discarded, every later
    start gives a placeholder again. *)
Lemma chunk_loop_discards (start : Z) (rest : list Z) (acc : list (list N)) :
  0 <= start -> is_placeholder (render words (start, n)) = true ->
  Forall (fun s => start < s < n) rest ->
  chunk_loop words size rest acc = acc.
Proof.
  intros Hstart Hp Hrest.
  apply placeholder_words in Hp; [|by apply Forall_slice]. cbn [fst snd] in Hp.
  unfold n in Hp. rewrite slice_to_end in Hp by lia.
  induction Hrest as [|s rest Hs Hrest IH]; [done|].
  assert (Hlen : Z.of_nat (length (drop (Z.to_nat start) words)) = n - start).
  { rewrite length_drop. unfold n, len in *. lia. }
  cbn [chunk_loop]. fold n. rewrite chunk_text_render. unfold render. cbn [fst snd].
  assert (Hs1 : s = start + 1 /\ n = start + 2
                /\ drop (Z.to_nat start) words = [lit "[CLS]"; lit "[SEP]"]).
  { destruct Hp as [Hp | [Hp | Hp]]; rewrite Hp in Hlen; cbn in Hlen; [lia|lia|].
    split; [lia|]. split; [lia|done]. }
  destruct Hs1 as (-> & Hn & Hd).
  rewrite Z.min_r by lia. unfold n. rewrite slice_to_end by lia.
  replace (Z.to_nat (start + 1)) with (Z.to_nat start + 1)%nat by lia.
  rewrite <- drop_drop, Hd. cbn. apply IH.
Qed.

Lemma chunk_loop_windows (m : nat) :
  forall (start : Z) (acc : list (list N)) (fuel : nat),
  0 <= start < n ->
  start + Z.of_nat m * step < n <= start + (Z.of_nat m + 1) * step ->
  (m < fuel)%nat ->
  chunk_loop words size (progression start step (S m)) acc =
  acc ++ List.filter (fun c => negb (is_placeholder c))
           (map (render words) (windows_from fuel n size step start)).
Proof.
  induction m as [|m IH]; intros start acc fuel Hstart Hm Hfuel;
    (destruct fuel as [|fuel]; [lia|]);
    rewrite progression_S; cbn [chunk_loop windows_from map]; fold n;
    rewrite chunk_text_render;
    (rewrite bool_decide_eq_false_2 by (apply render_nonempty; lia));
    destruct (Z.eqb_spec (Z.min (start + size) n) n) as [He|He].
  - rewrite He. cbn [map List.filter].
    destruct (is_placeholder (render words (start, n))) eqn:Hp; cbn [negb].
    + by rewrite app_nil_r.
    + done.
  - lia.
  - rewrite He. cbn [map List.filter].
    destruct (is_placeholder (render words (start, n))) eqn:Hp; cbn [negb].
    + rewrite app_nil_r. eapply chunk_loop_discards; [|exact Hp|]; [lia|].
      eapply Forall_impl; [apply progression_bounds; lia|].
      intros s Hs. cbn beta in Hs. nia.
    + done.
  - cbn [List.filter].
    destruct (is_placeholder _) eqn:Hp; cbn [negb].
    + apply (IH (start + step) acc fuel); [lia|nia|lia].
    + rewrite (IH (start + step) _ fuel); [|lia|nia|lia]. by rewrite <- app_assoc.
Qed.

End ChunkLoop.

(** * The chunker *)

Section ChunkerFacts.
Import PyStr Chunking ChunkingSpec.

Lemma chunk_loop_length (words : list (list N)) (size : Z) (starts : list Z) :
  forall acc,
  (length (chunk_loop words size starts acc) <= length acc + length starts)%nat.
Proof.
  induction starts as [|s starts IH]; intros acc; cbn [chunk_loop length]; [lia|].
  repeat case_match; try (etrans; [apply IH|]); rewrite ?length_app; cbn; lia.
Qed.

Lemma range_len_le (n step : Z) :
  1 <= step -> 0 <= n -> range_len 0 n step <= n.
Proof.
  intros Hs Hn. unfold range_len.
  destruct (Z.ltb_spec 0 step); [|lia].
  destruct (Z.ltb_spec 0 n); [|lia].
  rewrite Z.sub_0_r. pose proof (Z.div_le_upper_bound (n - 1) step (n - 1)). nia.
Qed.

Lemma window_params (cfg : RAGConfig) :
  1 <= window_size cfg
  /\ 0 <= window_overlap cfg <= window_size cfg - 1
  /\ 1 <= window_step cfg <= window_size cfg.
Proof. unfold window_step, window_overlap, window_size. lia. Qed.

Lemma window_params_valid (cfg : RAGConfig) :
  1 <= chunk_size_tokens cfg -> 0 <= chunk_overlap_tokens cfg ->
  window_size cfg = chunk_size_tokens cfg
  /\ window_step cfg =
       spec_step (chunk_size_tokens cfg) (chunk_overlap_tokens cfg).
Proof. unfold window_step, window_overlap, window_size, spec_step. lia. Qed.

Lemma chunk_text_refines (cfg : RAGConfig) (text : list N) :
  let words := findall_nonspace text in
  _chunk_text cfg text =
    Ok (List.filter (fun c => negb (is_placeholder c))
          (map (render words)
             (windows (len words) (window_size cfg) (window_step cfg)))).
Proof.
  intros words. unfold _chunk_text. fold words.
  destruct (window_params cfg) as (Hsize & Hov & Hstep).
  case_bool_decide as Hw.
  - by rewrite Hw.
  - assert (Hn : 1 <= len words).
    { unfold len. destruct words; [done|]. cbn [length]. lia. }
    unfold py_range. destruct (Z.eqb_spec (window_step cfg) 0) as [|_]; [lia|].
    cbn [mbind result_bind].
    set (step := window_step cfg) in *. set (n := len words) in *.
    assert (Hr : range_len 0 n step = (n - 1) / step + 1).
    { unfold range_len. destruct (Z.ltb_spec 0 step); [|lia].
      destruct (Z.ltb_spec 0 n); [|lia]. by rewrite Z.sub_0_r. }
    rewrite Hr.
    pose proof (Z.div_pos (n - 1) step ltac:(lia) ltac:(lia)) as Hq.
    pose proof (Z.mul_div_le (n - 1) step ltac:(lia)) as Hlo.
    pose proof (Z.mul_succ_div_gt (n - 1) step ltac:(lia)) as Hhi.
    pose proof (range_len_le n step ltac:(lia) ltac:(lia)) as Hle.
    rewrite Hr in Hle.
    replace (Z.to_nat ((n - 1) / step + 1))
      with (S (Z.to_nat ((n - 1) / step))) by lia.
    rewrite (chunk_loop_windows words (window_size cfg) step
               (findall_nonspace_ok text) ltac:(lia) ltac:(lia)
               _ 0 [] (Z.to_nat n)); [done|fold n; lia|fold n; nia|lia].
Qed.

Lemma windows_from_shape (n size step : Z) (fuel : nat) :
  1 <= step <= size ->
  forall start, 0 <= start < n -> n - start <= Z.of_nat fuel ->
  let ws := windows_from fuel n size step start in
  map fst ws = progression start step (length ws)
  /\ Forall (fun w => w.2 = Z.min (w.1 + size) n /\ w.2 - w.1 <= size) ws
  /\ exists ws' last, ws = ws' ++ [(last, n)] /\ Forall (fun w => w.2 < n) ws'.
Proof.
  intros Hstep. induction fuel as [|fuel IH]; intros start Hs Hf; [lia|].
  cbn [windows_from]. cbv zeta.
  destruct (Z.eqb_spec (Z.min (start + size) n) n) as [He|He].
  - rewrite He. split; [cbn; f_equal; lia|]. split.
    + constructor; [cbn [fst snd]; lia|constructor].
    + exists [], start. split; [done|constructor].
  - destruct (IH (start + step)) as (H1 & H2 & ws' & last & H3 & H4); [lia|lia|].
    cbv zeta in *. split; [|split].
    + cbn [map length fst]. rewrite progression_S. by f_equal.
    + constructor; [cbn [fst snd]; lia|done].
    + exists ((start, Z.min (start + size) n) :: ws'), last. rewrite H3.
      split; [done|]. constructor; [cbn [snd]; lia|done].
Qed.

Lemma render_not_placeholder (words : list (list N)) (s e : Z) :
  Forall word_ok words -> 0 <= s -> e <= len words -> 3 <= e - s ->
  is_placeholder (render words (s, e)) = false.
Proof.
  intros Hw Hs He Hlen. destruct (is_placeholder _) eqn:Hp; [|done].
  apply placeholder_words in Hp; [|by apply Forall_slice]. cbn [fst snd] in Hp.
  pose proof (len_slice words s e ltac:(lia) He) as Hl. unfold len in Hl at 1.
  destruct Hp as [Hp | [Hp | Hp]]; rewrite Hp in Hl; cbn in Hl; lia.
Qed.

End ChunkerFacts.

Section WindowLaw.
Import PyStr Chunking ChunkingSpec.

Variable words : list (list N).
Variables size overlap : Z.
Hypothesis overlap_bounds : 1 <= overlap < size.

Lemma windows_from_law (fuel : nat) :
  forall start, 0 <= start < len words -> len words - start <= Z.of_nat fuel ->
  let ws := map (fun w : Z * Z => slice words w.1 w.2)
              (windows_from fuel (len words) size (size - overlap) start) in
  Forall (fun w => len w <= size) ws
  /\ overlaps (size - overlap) overlap ws
  /\ stitch (size - overlap) ws = drop (Z.to_nat start) words.
Proof.
  induction fuel as [|fuel IH]; intros start Hs Hf; [lia|].
  cbn [windows_from]. cbv zeta.
  destruct (Z.eqb_spec (Z.min (start + size) (len words)) (len words)) as [He|He].
  - cbn [map stitch overlaps fst snd]. rewrite He. split; [|split; [done|]].
    + constructor; [|constructor]. rewrite len_slice; lia.
    + apply slice_to_end. lia.
  - assert (Hlt : start + size < len words) by lia.
    specialize (IH (start + (size - overlap)) ltac:(lia) ltac:(lia)).
    destruct fuel as [|fuel]; [lia|].
    cbn [windows_from map fst snd] in *. cbv zeta in IH.
    destruct IH as (I1 & I2 & I3).
    rewrite (Z.min_l (start + size)) in * by lia.
    split; [|split].
    + constructor; [rewrite len_slice; lia|done].
    + cbn [overlaps]. split; [|split; [|done]].
      * rewrite len_slice by lia.
        rewrite !slice_slice by lia. f_equal; lia.
      * rewrite slice_slice by lia. rewrite len_slice; lia.
    + cbn [stitch]. cbn [stitch] in I3. rewrite I3.
      rewrite slice_slice by lia.
      rewrite Z.add_0_r. apply slice_app_drop. lia.
Qed.

End WindowLaw.

Lemma filter_all_true {A} (f : A -> bool) (l : list A) :
  forallb f l = true -> List.filter f l = l.
Proof.
  induction l as [|x l IH]; [done|]. cbn. intros [Hx Hl]%andb_prop.
  rewrite Hx. f_equal. by apply IH.
Qed.

Lemma forallb_map {A B} (f : B -> bool) (g : A -> B) (l : list A) :
  forallb f (map g l) = forallb (fun x => f (g x)) l.
Proof. induction l as [|x l IH]; [done|]. cbn. by rewrite IH. Qed.

(** * The claims on the chunker's windows *)

Section ChunkerClaims.
Import PyStr Chunking ChunkingSpec.

(** C10: [_chunk_text] is total. For every configuration (any chunk size,
    any overlap) the overlap used lies in [0, size - 1], the step is at
    least 1, so [range] does not raise, and for every text the window loop
    ends and returns a list of chunks, at most one per word. *)
Theorem chunk_text_total (cfg : RAGConfig) (text : list N) :
  0 <= window_overlap cfg <= window_size cfg - 1
  /\ 1 <= window_step cfg
  /\ is_ok (py_range 0 (len (findall_nonspace text)) (window_step cfg)) = true
  /\ exists chunks,
       _chunk_text cfg text = Ok chunks
       /\ len chunks <= len (findall_nonspace text).
Proof.
  destruct (window_params cfg) as (Hsize & Hov & Hstep).
  split; [done|]. split; [lia|]. split.
  { unfold py_range. destruct (Z.eqb_spec (window_step cfg) 0); [lia|done]. }
  unfold _chunk_text. case_bool_decide as Hw.
  - exists []. split; [done|]. unfold len. cbn. lia.
  - unfold py_range. destruct (Z.eqb_spec (window_step cfg) 0); [lia|].
    cbn [mbind result_bind]. eexists. split; [done|].
    pose proof (chunk_loop_length (findall_nonspace text) (window_size cfg)
      (progression 0 (window_step cfg)
         (Z.to_nat (range_len 0 (len (findall_nonspace text)) (window_step cfg))))
      []) as Hl.
    unfold progression in Hl. rewrite length_map, length_seq in Hl. cbn in Hl.
    pose proof (range_len_le (len (findall_nonspace text)) (window_step cfg)
                  ltac:(lia) ltac:(unfold len; lia)).
    unfold len in *. unfold progression. lia.
Qed.

(** C2, as stated, fails: the one-word text "[CLS]" has one window, and the
    chunker returns no chunk. *)
Lemma plain_windowing_fails :
  ~ plain_windowing default_config (lit "[CLS]").
Proof. intros H. vm_compute in H. discriminate H. Qed.

(** C2, amended: with [1 <= size] and [0 <= overlap], the chunks are the
    texts of the windows at word indices 0, step, 2*step, ..., with
    [step = size - overlap] (at least 1), each of up to [size] words, the
    last window being the first one that reaches the end of the words, less
    the windows whose text is one of the placeholders "[CLS]", "[SEP]",
    "[CLS] [SEP]". With size 500 and overlap 100, a section of 1200 words
    gives the three chunks of the words [0:500], [400:900], [800:1200]. *)
Theorem chunk_text_filtered_windows (cfg : RAGConfig) (text : list N) :
  1 <= chunk_size_tokens cfg -> 0 <= chunk_overlap_tokens cfg ->
  let words := findall_nonspace text in
  let size := chunk_size_tokens cfg in
  let step := spec_step size (chunk_overlap_tokens cfg) in
  filtered_windowing cfg text
  /\ (words <> [] -> windows_shape (len words) size step (windows (len words) size step))
  /\ (size = 500 -> chunk_overlap_tokens cfg = 100 -> len words = 1200 ->
      _chunk_text cfg text =
        Ok [render words (0, 500); render words (400, 900);
            render words (800, 1200)]).
Proof.
  intros Hsize Hov words size step.
  destruct (window_params_valid cfg Hsize Hov) as (Es & Et).
  assert (Href : filtered_windowing cfg text).
  { unfold filtered_windowing. rewrite chunk_text_refines. by rewrite Es, Et. }
  split; [done|]. split.
  - intros Hne. unfold windows.
    assert (1 <= len words) by (unfold len; destruct words; [done|cbn; lia]).
    apply windows_from_shape; unfold step, spec_step; lia.
  - intros E1 E2 E3. unfold filtered_windowing in Href. rewrite Href.
    fold words size step. unfold step. rewrite E1, E2, E3.
    change (windows 1200 500 (spec_step 500 100))
      with [(0, 500); (400, 900); (800, 1200)].
    cbn [map List.filter].
    rewrite !render_not_placeholder; [done|..];
      try apply findall_nonspace_ok; fold words; lia.
Qed.

(** C3, as stated, fails: with size 3 and overlap 1 the text
    "a b [CLS] [SEP]" is chunked into "a b [CLS]" alone, which does not
    give back the fourth word. *)
Lemma chunking_law_fails :
  ~ chunking_law_holds (with_chunking 3 1) (lit "a b [CLS] [SEP]").
Proof.
  intros (chunks & H & _ & _ & Hst). vm_compute in H.
  injection H as <-. vm_compute in Hst. discriminate Hst.
Qed.

(** C3, amended: for every text none of whose windows is a placeholder
    artifact, chunked with size S and overlap O where [1 <= O < S] and
    [step = S - O]: every chunk has at most S words, what follows the first
    [step] words of a chunk is exactly the first O words of the next chunk,
    and the first [step] words of every chunk but the last, followed by the
    whole last chunk, are the words of the text. *)
Theorem chunk_text_law (cfg : RAGConfig) (text : list N) :
  1 <= chunk_overlap_tokens cfg < chunk_size_tokens cfg ->
  no_placeholder_window cfg text = true ->
  chunking_law_holds cfg text.
Proof.
  intros Hov Hnp. unfold chunking_law_holds, no_placeholder_window in *.
  destruct (window_params_valid cfg ltac:(lia) ltac:(lia)) as (Es & Et).
  rewrite chunk_text_refines, Es, Et. eexists. split; [done|].
  set (words := findall_nonspace text) in *.
  set (size := chunk_size_tokens cfg) in *.
  set (overlap := chunk_overlap_tokens cfg) in *.
  assert (Est : spec_step size overlap = size - overlap)
    by (unfold spec_step; lia).
  rewrite Est in *.
  rewrite filter_all_true by (by rewrite forallb_map).
  unfold chunking_law. rewrite map_map.
  rewrite (map_ext_Forall _ (fun w : Z * Z => slice words w.1 w.2)).
  2:{ apply Forall_forall. intros w _. apply findall_nonspace_join.
      apply Forall_slice, findall_nonspace_ok. }
  destruct (decide (words = [])) as [Hw|Hw].
  - rewrite Hw. cbn. done.
  - assert (1 <= len words) by (unfold len; destruct words; [done|cbn; lia]).
    unfold windows.
    destruct (windows_from_law words size overlap ltac:(lia)
                (Z.to_nat (len words)) 0 ltac:(lia) ltac:(lia)) as (L1 & L2 & L3).
    by rewrite drop_0 in L3.
Qed.

End ChunkerClaims.

(** * The retriever *)

Section FloatFacts.
Import PyFloat.

Lemma ltb_notnan (a b : float) : ltb a b = true -> notnan a = true /\ notnan b = true.
Proof. by destruct a, b. Qed.

Lemma ltb_not_leb (a b : float) : ltb a b = true -> leb b a = false.
Proof.
  destruct a, b; cbn; try done. intros H. apply negb_true_iff in H. done.
Qed.

Lemma ltb_leb (a b : float) : ltb a b = true -> leb a b = true.
Proof.
  destruct a as [x| | |], b as [y| | |]; cbn; try done.
  intros H%negb_true_iff. apply Qle_bool_iff.
  destruct (Qlt_le_dec x y) as [Hlt|Hle]; [by apply Qlt_le_weak|].
  apply Qle_bool_iff in Hle. congruence.
Qed.

Lemma not_ltb_leb (a b : float) :
  notnan a = true -> notnan b = true -> ltb a b = false -> leb b a = true.
Proof.
  destruct a as [x| | |], b as [y| | |]; cbn; try done.
  intros _ _ H%negb_false_iff. done.
Qed.

Lemma leb_refl (a : float) : notnan a = true -> leb a a = true.
Proof. destruct a; cbn; try done. intros _. apply Qle_bool_iff, Qle_refl. Qed.

Lemma leb_trans (a b c : float) :
  leb a b = true -> leb b c = true -> leb a c = true.
Proof.
  destruct a as [x| | |], b as [y| | |], c as [z| | |]; cbn; try done.
  rewrite !Qle_bool_iff. apply Qle_trans.
Qed.

End FloatFacts.

Section RetrieverFacts.
Import PyStr PyFloat Retrieval.

Lemma min_loop_least (items : list (Document * float)) :
  forall best,
  notnan best.2 = true -> Forall (fun x => notnan x.2 = true) items ->
  let m := min_loop best items in
  In m (best :: items)
  /\ Forall (fun x => leb m.2 x.2 = true) (best :: items).
Proof.
  induction items as [|item rest IH]; intros best Hb Hall; cbn [min_loop].
  - split; [by left|]. constructor; [by apply leb_refl|constructor].
  - inversion Hall as [|? ? Hi Hrest]; subst.
    destruct (ltb item.2 best.2) eqn:Hlt.
    + destruct (IH item Hi Hrest) as (Hin & Hle). cbv zeta in *.
      inversion Hle as [|? ? Hm Hr]; subst.
      split; [by right|].
      constructor; [|by constructor].
      eapply leb_trans; [exact Hm|]. by apply ltb_leb.
    + destruct (IH best Hb Hrest) as (Hin & Hle). cbv zeta in *.
      inversion Hle as [|? ? Hm Hr]; subst.
      split; [destruct Hin as [<-|Hin]; [by left|by right; right]|].
      constructor; [done|]. constructor; [|done].
      eapply leb_trans; [exact Hm|]. by apply not_ltb_leb.
Qed.

Lemma keep_within_none (threshold : float) (docs : list (Document * float)) :
  Forall (fun ds => ltb threshold ds.2 = true) docs ->
  keep_within threshold docs = [].
Proof.
  induction 1 as [|ds docs Hd _ IH]; [done|].
  unfold keep_within in *. cbn [List.filter]. by rewrite (ltb_not_leb _ _ Hd).
Qed.

Lemma keep_within_sub (threshold : float) (docs : list (Document * float)) :
  forall ds, In ds (keep_within threshold docs) -> In ds docs.
Proof. intros ds H. unfold keep_within in H. by apply filter_In in H as [? _]. Qed.

(** C1: for a query within the token limit whose search gives at least one
    result, [retrieve] returns a result list that is not empty; and if every
    returned distance exceeds the threshold, it returns exactly one result,
    a pair of the search results whose distance is least among them. *)
Theorem retrieve_fallback (self : Retriever) (query : list N)
    (k : option Z) (thr : option float) (index : FAISS)
    (docs : list (Document * float)) :
  _count_tokens self query <= max_query_tokens (cfg self) ->
  store self = Some index ->
  similarity_search_with_score index query (default (top_k (cfg self)) k) = Ok docs ->
  docs <> [] ->
  (exists res, retrieve self query k thr = Ok res /\ res <> [])
  /\ (Forall (fun ds => ltb (default (max_distance (cfg self)) thr) ds.2 = true) docs ->
      exists best,
        retrieve self query k thr = Ok [best]
        /\ In best docs
        /\ Forall (fun ds => leb best.2 ds.2 = true) docs).
Proof.
  intros Hq Hstore Hsearch Hne. unfold retrieve.
  destruct (Z.ltb_spec (max_query_tokens (cfg self)) (_count_tokens self query)); [lia|].
  rewrite Hstore, Hsearch. cbn [mbind result_bind].
  destruct docs as [|d docs]; [done|]. split.
  - destruct (keep_within _ (d :: docs)) as [|r rs]; cbn; eauto.
  - intros Hall. rewrite (keep_within_none _ _ Hall).
    cbn [py_min mbind result_bind]. eexists. split; [done|].
    inversion Hall as [|? ? Hd Hrest]; subst.
    apply min_loop_least.
    + by apply ltb_notnan in Hd as [_ ?].
    + eapply Forall_impl; [exact Hrest|]. intros x Hx. by apply ltb_notnan in Hx as [_ ?].
Qed.

End RetrieverFacts.

(** * The context assembler and the generator *)

Section GeneratorFacts.
Import PyStr PyFloat Generation AnswerSpec.

Lemma build_loop_prefix (self : GroqGenerator) (docs : list (Document * float)) :
  forall parts citations total,
  exists k : nat,
    (k <= length docs)%nat
    /\ build_loop self docs (parts, citations, total) =
         (parts ++ map (segment_of self) (take k docs),
          citations ++ map citation_of (take k docs),
          total + packed_tokens self (take k docs))
    /\ (forall j : nat, (1 <= j <= k)%nat ->
          total + packed_tokens self (take j docs) <= max_context_tokens (cfg self))
    /\ (forall ds, docs !! k = Some ds ->
          max_context_tokens (cfg self) <
            total + packed_tokens self (take k docs)
            + _count_tokens self (segment_of self ds)).
Proof.
  induction docs as [|ds rest IH]; intros parts citations total.
  - exists 0%nat. cbn. rewrite !app_nil_r, Z.add_0_r.
    split; [lia|]. split; [done|]. split; [lia|done].
  - cbn [build_loop].
    destruct (Z.ltb_spec (max_context_tokens (cfg self))
                (total + _count_tokens self (segment_of self ds))) as [Hover|Hfit].
    + exists 0%nat. cbn [take map packed_tokens length lookup list_lookup].
      rewrite !app_nil_r, Z.add_0_r.
      split; [lia|]. split; [done|]. split; [lia|].
      intros ? [= <-]. lia.
    + destruct (IH (parts ++ [segment_of self ds]) (citations ++ [citation_of ds])
                  (total + _count_tokens self (segment_of self ds)))
        as (k & Hk & Hrun & Hfits & Hstop).
      exists (S k). cbn [take map packed_tokens length lookup list_lookup].
      split; [lia|]. split; [|split].
      * rewrite Hrun, <- !app_assoc. cbn. by rewrite Z.add_assoc.
      * intros [|j] Hj; [lia|]. cbn [take packed_tokens].
        destruct j as [|j]; [rewrite take_0; cbn [packed_tokens]; lia|].
        specialize (Hfits (S j) ltac:(lia)). lia.
      * intros ds' Hds. specialize (Hstop ds' Hds). lia.
Qed.

(** C4: with a context budget that is not negative, the segments packed are
    those of the first [k] retrieved pairs, in order, for some [k]; the
    running token count after each of them, and so the final one, is within
    [max_context_tokens]; and when [k] pairs were packed and a further pair
    exists, that pair would have exceeded the budget, and nothing after it
    is packed. *)
Theorem build_context_budget (self : GroqGenerator) (docs : list (Document * float)) :
  0 <= max_context_tokens (cfg self) -> packs_best_first self docs.
Proof.
  intros Hmax.
  destruct (build_loop_prefix self docs [] [] 0) as (k & Hk & Hrun & Hfits & Hstop).
  cbn in Hrun. exists k. split; [done|]. split; [done|]. split; [|split].
  - unfold _build_context. by rewrite Hrun.
  - intros [|j] Hj; [rewrite take_0; cbn [packed_tokens]; lia|].
    specialize (Hfits (S j) ltac:(lia)). lia.
  - intros ds Hds. specialize (Hstop ds Hds). lia.
Qed.

(** C9: on each refusal path of [generate] (no retrieved pair; a question
    over the query-token limit; an empty assembled context) the result is a
    fixed message with an empty citation list, the message carries no
    citation suffix, and the generator keeps its model; the refusals for no
    context and for an empty assembled context return the same string
    "I cannot answer based on the provided document.". *)
Theorem generate_refusals (self : GroqGenerator) (question : list N)
    (docs : list (Document * float)) (r : refusal) :
  refuses self question docs r ->
  generate self question docs = (Ok (refusal_message r, []), model_name self)
  /\ refusal_message Refused_NoContext = refusal_message Refused_ContextOverflow
  /\ refusal_message Refused_NoContext
     = lit "I cannot answer based on the provided document."
  /\ refusal_message Refused_QueryTooLong
     = lit "Your question is too long. Please shorten it.".
Proof.
  intros Hr. split; [|done].
  destruct r; cbn [refuses refusal_message] in *.
  - by rewrite Hr.
  - destruct Hr as (Hne & Hq). unfold generate.
    destruct docs as [|d docs]; [done|].
    destruct (Z.ltb_spec (max_query_tokens (cfg self)) (_count_tokens self question));
      [done|lia].
  - destruct Hr as (Hne & Hq & Hctx). unfold generate.
    destruct docs as [|d docs]; [done|].
    destruct (Z.ltb_spec (max_query_tokens (cfg self)) (_count_tokens self question));
      [lia|].
    destruct (_build_context self (d :: docs)) as [context citations].
    cbn [fst] in Hctx. by rewrite Hctx.
Qed.

End GeneratorFacts.

(** * Chunk ids *)

Section ChunkIds.
Import PyStr Chunking ChunkingSpec.

Lemma chunk_text_ok (cfg : RAGConfig) (text : list N) :
  _chunk_text cfg text = Ok (chunks_of cfg text).
Proof. unfold chunks_of. by rewrite chunk_text_refines. Qed.

Lemma number_from_app (src pm : list N) (a b : list (list N * list N)) :
  forall c,
  number_from src pm c (a ++ b)
  = number_from src pm c a ++ number_from src pm (c + len a) b.
Proof.
  induction a as [|[sec pc] a IH]; intros c; cbn [number_from app].
  - unfold len. cbn. by rewrite Z.add_0_r.
  - rewrite IH. do 3 f_equal. unfold len. cbn [length]. lia.
Qed.

Lemma length_number_from (src pm : list N) (items : list (list N * list N)) :
  forall c, length (number_from src pm c items) = length items.
Proof.
  induction items as [|[sec pc] items IH]; intros c; cbn; [done|]. by rewrite IH.
Qed.

Lemma fold_add_chunk (sec src pm : list N) (pcs : list (list N)) :
  forall docs c,
  fold_left (add_chunk sec src pm) pcs (docs, c)
  = (docs ++ number_from src pm c (map (fun pc => (sec, pc)) pcs), c + len pcs).
Proof.
  induction pcs as [|pc pcs IH]; intros docs c; cbn [fold_left map number_from].
  - unfold len. cbn. by rewrite app_nil_r, Z.add_0_r.
  - unfold add_chunk at 2. cbn [fst snd]. rewrite IH, <- app_assoc.
    unfold chunk_id_at, len. cbn [length app]. f_equal. lia.
Qed.

Lemma pages_loop_numbers (cfg : RAGConfig) (src pm : list N)
    (pages : list (list N * list N)) :
  forall docs c,
  pages_loop cfg pages src pm (docs, c)
  = Ok (docs ++ number_from src pm c (all_chunks cfg pages),
        c + len (all_chunks cfg pages)).
Proof.
  induction pages as [|[sec text] pages IH]; intros docs c.
  - unfold len. cbn. by rewrite app_nil_r, Z.add_0_r.
  - cbn [pages_loop]. rewrite chunk_text_ok. cbn [mbind result_bind].
    rewrite fold_add_chunk, IH. unfold all_chunks. cbn [flat_map fst snd].
    rewrite number_from_app, <- app_assoc. unfold len.
    rewrite length_app, !length_map. do 2 f_equal. lia.
Qed.

Lemma chunk_pages_numbers (cfg : RAGConfig) (pages : list (list N * list N))
    (src pm : list N) :
  chunk_pages cfg pages src pm = Ok (number_from src pm 0 (all_chunks cfg pages)).
Proof. unfold chunk_pages. by rewrite pages_loop_numbers. Qed.

Lemma chunk_meta_id (id sec src pm : list N) :
  chunk_meta id sec src pm !! lit "chunk_id" = Some id.
Proof.
  unfold chunk_meta. rewrite !lookup_insert_ne by done. apply lookup_insert_eq.
Qed.

Lemma chunk_meta_section (id sec src pm : list N) :
  chunk_meta id sec src pm !! lit "section_or_page" = Some sec.
Proof.
  unfold chunk_meta. rewrite !lookup_insert_ne by done. apply lookup_insert_eq.
Qed.

Lemma number_from_ids (src pm : list N) (items : list (list N * list N)) :
  forall c,
  map chunk_id_of (number_from src pm c items)
  = map chunk_id_at (progression (c + 1) 1 (length items)).
Proof.
  induction items as [|[sec pc] items IH]; intros c; [done|].
  cbn [number_from map length]. rewrite progression_S. cbn [map].
  rewrite IH. f_equal.
Qed.

Lemma number_from_payload (src pm : list N) (items : list (list N * list N)) :
  forall c,
  map (fun d => (default [] (metadata d !! lit "section_or_page"), page_content d))
    (number_from src pm c items) = items.
Proof.
  induction items as [|[sec pc] items IH]; intros c; [done|].
  cbn [number_from map]. rewrite IH. cbn [metadata page_content].
  by rewrite chunk_meta_section.
Qed.

Lemma ids_ordered_spec (fuel : nat) :
  forall k, ids_ordered fuel k = true ->
  forall j, k <= j < k + Z.of_nat fuel ->
  length (chunk_id_at j) = 11%nat
  /\ str_ltb (chunk_id_at (j - 1)) (chunk_id_at j) = true.
Proof.
  induction fuel as [|fuel IH]; intros k Hk j Hj; [lia|].
  cbn [ids_ordered] in Hk. apply andb_prop in Hk as [[H1%Nat.eqb_eq H2]%andb_prop H3].
  destruct (decide (j = k)) as [->|Hne]; [done|].
  apply (IH (k + 1) H3). lia.
Qed.

Lemma ids_below_100000 (j : Z) :
  1 <= j <= 99999 ->
  length (chunk_id_at j) = 11%nat
  /\ str_ltb (chunk_id_at (j - 1)) (chunk_id_at j) = true.
Proof.
  intros Hj. apply (ids_ordered_spec (Z.to_nat 99999) 1); [by vm_compute|lia].
Qed.

Lemma progression_ids (m : nat) :
  forall c, 1 <= c -> c + Z.of_nat m <= 100000 ->
  Forall (fun id => length id = 11%nat) (map chunk_id_at (progression c 1 m))
  /\ increasing (map chunk_id_at (progression c 1 m)) = true.
Proof.
  induction m as [|m IH]; intros c Hc Hm; [by split|].
  rewrite progression_S. cbn [map].
  destruct (IH (c + 1) ltac:(lia) ltac:(lia)) as (I1 & I2).
  destruct (ids_below_100000 c ltac:(lia)) as (L1 & _).
  split; [by constructor|].
  destruct m as [|m]; [done|].
  destruct (ids_below_100000 (c + 1) ltac:(lia)) as (_ & L2).
  rewrite Z.add_simpl_r in L2.
  rewrite progression_S in *. cbn [map increasing] in *. by rewrite L2, I2.
Qed.

End ChunkIds.

Section ChunkIdClaims.
Import PyStr Chunking ChunkingSpec.

Lemma in_progression (c : Z) (m : nat) (x : Z) :
  c <= x < c + Z.of_nat m -> In x (progression c 1 m).
Proof.
  intros Hx. unfold progression. apply in_map_iff.
  exists (Z.to_nat (x - c)). split; [lia|]. apply in_seq. lia.
Qed.

Lemma all_chunks_one_word (k : nat) :
  length (all_chunks default_config (one_word_sections k)) = k.
Proof.
  unfold one_word_sections, all_chunks.
  transitivity (length (seq 1 k)); [|apply length_seq].
  induction (seq 1 k) as [|i l IH]; [done|].
  cbn [map flat_map fst snd]. rewrite length_app, IH. done.
Qed.

Lemma fixed_width_ids_bound (k : nat) :
  100000 <= Z.of_nat k ->
  ~ fixed_width_ids default_config (one_word_sections k)
      (lit "deck.pptx") (lit "deterministic").
Proof.
  intros Hk (docs & Hrun & Hfw & _). rewrite chunk_pages_numbers in Hrun.
  injection Hrun as <-. rewrite number_from_ids, all_chunks_one_word in Hfw.
  specialize (Hfw (chunk_id_at 1) (chunk_id_at 100000)).
  assert (length (chunk_id_at 1) = length (chunk_id_at 100000)) as Hlen.
  { apply Hfw; apply in_map, in_progression; lia. }
  vm_compute in Hlen. discriminate Hlen.
Qed.

(** C7, as stated, fails: a document of 100000 one-word sections gets the
    ids "chunk-00001" and "chunk-100000", which differ in width. *)
Lemma fixed_width_ids_fails :
  ~ fixed_width_ids default_config (one_word_sections (Z.to_nat 100000))
      (lit "deck.pptx") (lit "deterministic").
Proof. apply fixed_width_ids_bound. lia. Qed.

(** C7, amended: the chunk ids are "chunk-" followed by the ordinals 1, 2,
    3, ... of one counter that runs over the whole document (never reset at
    a section boundary), each written with at least five digits, zero-padded;
    the chunks come in section order and, within a section, in window
    order; and while the document has fewer than 100000 chunks all ids have
    the same width and every id is smaller, as a string, than the next. *)
Theorem chunk_ids_running_counter (cfg : RAGConfig)
    (cleaned_pages : list (list N * list N)) (source_file parsing_method : list N) :
  exists docs,
    chunk_pages cfg cleaned_pages source_file parsing_method = Ok docs
    /\ map chunk_id_of docs = map chunk_id_at (progression 1 1 (length docs))
    /\ map (fun d => (default [] (metadata d !! lit "section_or_page"),
                      page_content d)) docs
       = all_chunks cfg cleaned_pages
    /\ (len docs <= 99999 ->
        Forall (fun id => length id = 11%nat) (map chunk_id_of docs)
        /\ increasing (map chunk_id_of docs) = true).
Proof.
  eexists. split; [apply chunk_pages_numbers|].
  rewrite number_from_ids, number_from_payload, length_number_from.
  split; [done|]. split; [done|].
  intros Hlen. unfold len in Hlen. rewrite length_number_from in Hlen.
  apply progression_ids; lia.
Qed.

End ChunkIdClaims.

(** * Extraction *)

Section ParsingClaims.
Import PyStr Parsing ExtractionSpec.

Lemma numbered_nil (prefix : list N) (i : Z) (texts : list (list N)) :
  numbered prefix i texts = [] <-> texts = [].
Proof. by destruct texts. Qed.

(** C8, as stated, fails: a presentation without slides is parsed with
    success into a document without sections. *)
Lemma never_empty_success_fails :
  ~ never_empty_success empty_world (lit "deck.pptx") (lit ".pptx") default_config.
Proof. intros H. by apply (H _ eq_refl). Qed.

(** A membership between closed lists, by evaluation. *)
Ltac closed_elem := apply (bool_decide_unpack _); vm_compute; exact I.

Lemma bind_ok {A B} (r : result A) (k : A -> result B) (b : B) :
  r ≫= k = Ok b -> exists a, r = Ok a /\ k a = Ok b.
Proof. destruct r as [a|e]; [eauto|done]. Qed.

Lemma single_section_sections (w : World) (path txt : list N) :
  sections_text (single_section w path txt) = [(lit "section-1", txt)].
Proof. done. Qed.

(** The handlers of the flat formats give one section. *)
Lemma flat_handlers (w : World) (path : list N) (doc : ParsedDocument) :
  _parse_docx w path = Ok doc \/ _parse_txt w path = Ok doc
  \/ _parse_html w path = Ok doc \/ _parse_csv w path = Ok doc
  \/ _parse_json w path = Ok doc \/ _parse_md_or_code w path = Ok doc ->
  exists txt, sections_text doc = [(lit "section-1", txt)].
Proof.
  unfold _parse_docx, _parse_txt, _parse_html, _parse_csv, _parse_json,
    _parse_md_or_code.
  intros H; repeat destruct H as [H|H];
    repeat (apply bind_ok in H as (? & ? & H));
    injection H as <-; eauto.
Qed.

Lemma llm_handler (w : World) (path : list N) (cfg : RAGConfig) (doc : ParsedDocument) :
  _llm_assisted_parse w path cfg = Ok doc ->
  parsing_method doc = lit "llm-assisted"
  /\ exists parsed, sections_text doc = [(lit "section-1", parsed)] /\ parsed <> [].
Proof.
  unfold _llm_assisted_parse. intros H.
  destruct (groq_api_key w) as [[|c key]|]; [done| |done].
  apply bind_ok in H as (content & _ & H).
  apply bind_ok in H as (resp & _ & H).
  destruct (bool_decide (strip (str_upper w (strip resp)) = lit "UNPARSEABLE"));
    [done|].
  case_bool_decide as Hp; [done|]. cbn [orb] in H. injection H as <-.
  split; [done|]. eauto.
Qed.

(** The handler [parse_file] takes, by the extension. *)
Lemma parse_file_dispatch (w : World) (path ext : list N) (cfg : RAGConfig) :
  (ext = lit ".pdf" /\ parse_file w path ext cfg = _parse_pdf w path cfg)
  \/ (ext = lit ".pptx" /\ parse_file w path ext cfg = _parse_pptx w path)
  \/ (ext = lit ".docx" /\ parse_file w path ext cfg = _parse_docx w path)
  \/ ((ext = lit ".html" \/ ext = lit ".htm")
      /\ parse_file w path ext cfg = _parse_html w path)
  \/ (ext = lit ".csv" /\ parse_file w path ext cfg = _parse_csv w path)
  \/ (ext = lit ".json" /\ parse_file w path ext cfg = _parse_json w path)
  \/ (ext ∈ text_exts
      /\ parse_file w path ext cfg
         = (txt ← _read_text_fallback w path; Ok (single_section w path txt)))
  \/ ((ext ∉ paginated_exts) /\ (ext ∉ flat_exts)
      /\ parse_file w path ext cfg = _llm_assisted_parse w path cfg).
Proof.
  unfold parse_file, ext_in.
  repeat case_bool_decide;
    repeat match goal with
    | Hin : _ ∈ _ :: _ |- _ => apply elem_of_cons in Hin as [->|Hin]
    | Hin : _ ∈ [] |- _ => by apply elem_of_nil in Hin
    end;
    try (do 6 right; left; split; [closed_elem|done]).
  - by left.
  - right. right. by left.
  - do 3 right. left. split; [by left|done].
  - do 3 right. left. split; [by right|done].
  - do 4 right. by left.
  - do 5 right. by left.
  - right. by left.
  - do 7 right. split; [|split; [|done]].
    + unfold paginated_exts. rewrite !elem_of_cons, elem_of_nil.
      intros [->|[->|[]]];
        match goal with Hn : ¬ (_ ∈ _) |- _ => by (apply Hn; closed_elem) end.
    + unfold flat_exts. rewrite !elem_of_cons, elem_of_nil.
      intros Hin. repeat destruct Hin as [->|Hin]; try done;
        match goal with Hn : ¬ (_ ∈ _) |- _ => by (apply Hn; closed_elem) end.
Qed.

Lemma bind_raise {A B} (r : result A) (k : A -> result B) (e : exn) :
  r ≫= k = Raise e -> r = Raise e \/ exists a, r = Ok a /\ k a = Raise e.
Proof. destruct r as [a|e']; [eauto|]. intros [= <-]. by left. Qed.

(** C8, amended: a successful [parse_file] returns a document without
    sections exactly for a PDF of zero pages and for a presentation of zero
    slides, and such files are parsed: a presentation of zero slides always
    gives the document without sections, a PDF of zero pages does unless
    the page limit is negative, which raises the page-limit [ValueError].
    For every other extension a successful parse returns the one section
    "section-1", whose text may be empty: a file of a format read as text
    is parsed into whatever text was read, the empty one included. A
    deterministic handler raises only the exception of reading the file or
    of its library call, or the page-limit error of a PDF. On the assisted
    path, taken for the extensions without a handler, a blank reply of the
    model fails with the [ValueError] "File cannot be meaningfully
    interpreted", and a successful parse has a section text that is not
    empty. *)
Theorem parse_file_sections (w : World) (path ext : list N) (cfg : RAGConfig) :
  (forall doc, parse_file w path ext cfg = Ok doc -> success_sections w path ext doc)
  /\ empty_files_parse w path ext cfg
  /\ (ext ∈ text_exts -> forall txt,
        _read_text_fallback w path = Ok txt ->
        parse_file w path ext cfg = Ok (single_section w path txt))
  /\ (ext ∈ paginated_exts ++ flat_exts -> forall e,
        parse_file w path ext cfg = Raise e -> handler_failure w path cfg e)
  /\ (ext ∉ paginated_exts -> ext ∉ flat_exts -> blank_reply_fails w path ext cfg).
Proof.
  assert (Hflat : forall x, x ∈ text_exts -> (x ∈ flat_exts) /\ (x ∉ paginated_exts)).
  { intros x Hx. unfold text_exts in Hx.
    repeat (apply elem_of_cons in Hx as [->|Hx]);
      [split; [closed_elem|]; intros Hin; apply (bool_decide_pack _) in Hin;
       vm_compute in Hin; exact Hin..|].
    by apply elem_of_nil in Hx. }
  assert (Hnot : forall x, In x [lit ".pdf"; lit ".pptx"; lit ".docx"; lit ".html";
                                 lit ".htm"; lit ".csv"; lit ".json"] ->
                           (x ∉ text_exts)
                           /\ (x ∈ paginated_exts ++ flat_exts)).
  { intros x Hx. cbn [In] in Hx.
    repeat destruct Hx as [<-|Hx]; try done;
      (split; [intros Hin; apply (bool_decide_pack _) in Hin;
               vm_compute in Hin; exact Hin|closed_elem]). }
  unfold empty_files_parse, blank_reply_fails.
  destruct (parse_file_dispatch w path ext cfg)
    as [[-> E]|[[-> E]|[[-> E]|[[Hext E]|[[-> E]|[[-> E]|[[Hin E]|(Hp & Hf & E)]]]]]]];
    rewrite E; clear E.
  - (* .pdf *)
    destruct (Hnot (lit ".pdf")) as [Hnt Hh]; [cbn; tauto|].
    split; [|split; [|split; [done|split]]].
    + intros doc H. unfold _parse_pdf in H. apply bind_ok in H as (pages & Hpages & H).
      destruct (max_pages_pdf cfg <? len pages); [done|]. injection H as <-.
      split; [|split; intros Hnp; exfalso; apply Hnp; closed_elem].
      cbn [sections_text]. rewrite numbered_nil. split.
      * intros Hnil. left. split; [done|]. by destruct pages.
      * intros [[_ Hq] | [Eq _]]; [|by cbn in Eq].
        rewrite Hpages in Hq. by injection Hq as ->.
    + split; [done|]. intros _ Hpages. unfold _parse_pdf. rewrite Hpages.
      cbn [mbind result_bind]. change (len []) with 0.
      by destruct (max_pages_pdf cfg <? 0).
    + intros _ e H. unfold _parse_pdf in H.
      apply bind_raise in H as [H|(pages & Hpages & H)]; [right; by left|].
      destruct (Z.ltb_spec (max_pages_pdf cfg) (len pages)); [|done].
      injection H as <-. right. right. left. by exists pages.
    + intros Hn. exfalso. apply Hn. closed_elem.
  - (* .pptx *)
    destruct (Hnot (lit ".pptx")) as [Hnt Hh]; [cbn; tauto|].
    split; [|split; [|split; [done|split]]].
    + intros doc H. unfold _parse_pptx in H.
      apply bind_ok in H as (slides & Hslides & H). injection H as <-.
      split; [|split; intros Hnp; exfalso; apply Hnp; closed_elem].
      cbn [sections_text]. rewrite numbered_nil. split.
      * intros Hnil. right. split; [done|]. by destruct slides.
      * intros [[Eq _] | [_ Hq]]; [by cbn in Eq|].
        rewrite Hslides in Hq. by injection Hq as ->.
    + split; [|done]. intros _ Hslides. unfold _parse_pptx. by rewrite Hslides.
    + intros _ e H. unfold _parse_pptx in H.
      apply bind_raise in H as [H|(slides & _ & H)]; [|done].
      do 7 right. done.
    + intros Hn. exfalso. apply Hn. closed_elem.
  - (* .docx *)
    destruct (Hnot (lit ".docx")) as [Hnt Hh]; [cbn; tauto|].
    split; [|split; [done|split; [done|split]]].
    + intros doc H. destruct (flat_handlers w path doc) as (txt & Htxt); [tauto|].
      unfold success_sections. rewrite Htxt.
      split; [split; [done|by intros [[Eq _]|[Eq _]]; cbn in Eq]|].
      split; [eauto|intros _ Hnf; exfalso; apply Hnf; closed_elem].
    + intros _ e H. unfold _parse_docx in H.
      apply bind_raise in H as [H|(? & _ & H)]; [|done]. do 3 right. by left.
    + intros _ Hn. exfalso. apply Hn. closed_elem.
  - (* .html, .htm *)
    assert (Hh : (ext ∉ text_exts) /\ (ext ∈ paginated_exts ++ flat_exts)).
    { destruct Hext as [-> | ->]; apply Hnot; cbn; tauto. }
    destruct Hh as [Hnt Hh].
    split; [|split; [by split; intros ->; destruct Hext|split; [done|split]]].
    + intros doc H. destruct (flat_handlers w path doc) as (txt & Htxt); [tauto|].
      unfold success_sections. rewrite Htxt.
      split; [split; [done|]|].
      * intros [[Eq _]|[Eq _]]; subst ext; by destruct Hext.
      * split; [eauto|]. intros _ Hnf. exfalso. apply Hnf.
        destruct Hext as [-> | ->]; closed_elem.
    + intros _ e H. unfold _parse_html in H.
      apply bind_raise in H as [H|(html & Hhtml & H)]; [by left|].
      apply bind_raise in H as [H|(? & _ & H)]; [|done].
      do 4 right. left. by exists html.
    + intros _ Hn. exfalso. apply Hn. destruct Hext as [-> | ->]; closed_elem.
  - (* .csv *)
    destruct (Hnot (lit ".csv")) as [Hnt Hh]; [cbn; tauto|].
    split; [|split; [done|split; [done|split]]].
    + intros doc H. destruct (flat_handlers w path doc) as (txt & Htxt); [tauto|].
      unfold success_sections. rewrite Htxt.
      split; [split; [done|by intros [[Eq _]|[Eq _]]; cbn in Eq]|].
      split; [eauto|intros _ Hnf; exfalso; apply Hnf; closed_elem].
    + intros _ e H. unfold _parse_csv in H.
      apply bind_raise in H as [H|(? & _ & H)]; [|done]. do 5 right. by left.
    + intros _ Hn. exfalso. apply Hn. closed_elem.
  - (* .json *)
    destruct (Hnot (lit ".json")) as [Hnt Hh]; [cbn; tauto|].
    split; [|split; [done|split; [done|split]]].
    + intros doc H. destruct (flat_handlers w path doc) as (txt & Htxt); [tauto|].
      unfold success_sections. rewrite Htxt.
      split; [split; [done|by intros [[Eq _]|[Eq _]]; cbn in Eq]|].
      split; [eauto|intros _ Hnf; exfalso; apply Hnf; closed_elem].
    + intros _ e H. unfold _parse_json in H.
      apply bind_raise in H as [H|(raw & Hraw & H)]; [by left|].
      apply bind_raise in H as [H|(? & _ & H)]; [|done].
      do 6 right. left. by exists raw.
    + intros _ Hn. exfalso. apply Hn. closed_elem.
  - (* the formats read as text *)
    destruct (Hflat ext Hin) as [Hfl Hnp].
    split; [|split; [|split; [|split]]].
    + intros doc H. apply bind_ok in H as (txt & _ & H). injection H as <-.
      unfold success_sections. cbn [sections_text single_section].
      split; [split; [done|]|].
      * intros [[-> _]|[-> _]]; exfalso; apply Hnp; closed_elem.
      * split; [eauto|]. by intros _ Hnf.
    + split; intros ->; exfalso; apply Hnp; closed_elem.
    + intros _ txt Htxt. by rewrite Htxt.
    + intros _ e H. apply bind_raise in H as [H|(? & _ & H)]; [by left|done].
    + by intros _ Hnf.
  - (* no handler: the assisted path *)
    split; [|split; [|split; [|split]]].
    + intros doc H. destruct (llm_handler w path cfg doc H) as (Hm & parsed & Hs & Hne).
      unfold success_sections. split; [|split]; [|eauto..].
      rewrite Hs. split; [done|].
      intros [[-> _]|[-> _]]; exfalso; apply Hp; closed_elem.
    + split; intros ->; exfalso; apply Hp; closed_elem.
    + intros Hin. exfalso. by destruct (Hflat ext Hin).
    + intros Hin. exfalso. apply elem_of_app in Hin. tauto.
    + intros _ _ key content Hkey Hne Hread Hblank. unfold _llm_assisted_parse.
      rewrite Hkey. destruct key as [|c key]; [done|]. rewrite Hread.
      cbn [mbind result_bind].
      match goal with
      | |- context [llm_invoke w (groq_model cfg) ?prompt _] =>
          destruct (Hblank prompt) as (resp & -> & Hresp)
      end.
      cbn [mbind result_bind]. rewrite (bool_decide_eq_true_2 (strip resp = []) Hresp).
      by rewrite orb_true_r.
Qed.

End ParsingClaims.

(** * Lines *)

Section LineFacts.
Import PyStr.

Lemma lstrip_spec (s : list N) :
  exists ws,
    s = ws ++ lstrip s
    /\ Forall (fun c => isspace c = true) ws
    /\ (lstrip s = [] \/ exists a r, lstrip s = a :: r /\ isspace a = false).
Proof.
  induction s as [|c s (ws & Hs & Hws & Hhead)].
  - exists []. auto.
  - cbn [lstrip]. destruct (isspace c) eqn:Hc.
    + exists (c :: ws). split; [cbn; by f_equal|]. split; [by constructor|done].
    + exists []. split; [done|]. split; [constructor|]. right. eauto.
Qed.

Lemma strip_trimmed (s : list N) : strip s <> [] -> trimmed (strip s).
Proof.
  unfold strip, rstrip. intros Hne.
  destruct (lstrip_spec s) as (ws1 & _ & _ & Ht).
  set (t := lstrip s) in *.
  destruct (lstrip_spec (rev t)) as (ws2 & Hu & Hws2 & Hhead).
  set (u := lstrip (rev t)) in *.
  destruct Hhead as [Hnil | (b & r & Hb & Hsb)]; [by rewrite Hnil in Hne|].
  split.
  - destruct Ht as [Hnil | (a & r' & Ha & Hsa)].
    { rewrite Hnil, Hb in Hu. cbn in Hu. by destruct ws2. }
    apply (f_equal (@rev N)) in Hu. rewrite rev_involutive, rev_app_distr in Hu.
    rewrite Ha in Hu. destruct (rev u) as [|x ru] eqn:Hru.
    { apply (f_equal (@rev N)) in Hru. rewrite rev_involutive in Hru. cbn in Hru.
      by rewrite Hru in Hb. }
    cbn in Hu. injection Hu as <- _. eauto.
  - rewrite rev_involutive. eauto.
Qed.

Lemma lstrip_Forall (P : N -> Prop) (s : list N) : Forall P s -> Forall P (lstrip s).
Proof.
  intros H. destruct (lstrip_spec s) as (ws & Hs & _). rewrite Hs in H.
  by apply Forall_app in H as [_ ?].
Qed.

Lemma strip_Forall (P : N -> Prop) (s : list N) : Forall P s -> Forall P (strip s).
Proof.
  intros H. unfold strip, rstrip.
  apply Forall_rev, lstrip_Forall, Forall_rev, lstrip_Forall, H.
Qed.

Lemma strip_of_trimmed (s : list N) : trimmed s -> strip s = s.
Proof. intros [(a & r & Ha & Hsa) (b & r' & Hb & Hsb)]. by eapply strip_id. Qed.

Lemma trimmed_nonempty (s : list N) : trimmed s -> s <> [].
Proof. by intros [(a & r & -> & _) _]. Qed.

Lemma splitlines_Forall (s : list N) :
  Forall (Forall (fun c => islinebreak c = false)) (splitlines s).
Proof.
  assert (Hstrong : forall k s, (length s <= k)%nat ->
            Forall (Forall (fun c => islinebreak c = false)) (splitlines s)).
  { clear s. induction k as [|k IH]; intros [|c s] Hlen; cbn in Hlen;
      try lia; try constructor.
    cbn [splitlines]. destruct (islinebreak c) eqn:Hc.
    - constructor; [constructor|].
      destruct c as [|p]; [apply IH; lia|].
      assert (Hs : Forall (Forall (fun c => islinebreak c = false)) (splitlines s))
        by (apply IH; lia).
      destruct s as [|c' s']; [by repeat case_match|].
      assert (Hs' : Forall (Forall (fun c => islinebreak c = false)) (splitlines s'))
        by (apply IH; cbn in Hlen; lia).
      by repeat case_match.
    - assert (Hs : Forall (Forall (fun c => islinebreak c = false)) (splitlines s))
        by (apply IH; lia).
      destruct (splitlines s) as [|l ls].
      + by repeat constructor.
      + inversion Hs; subst. constructor; [by constructor|done]. }
  by apply (Hstrong (length s)).
Qed.

Lemma splitlines_line (l rest : list N) :
  l <> [] -> Forall (fun c => islinebreak c = false) l ->
  splitlines (l ++ 10%N :: rest) = l :: splitlines rest.
Proof.
  intros Hne Hl. induction Hl as [|c l Hc Hl IH]; [done|].
  cbn [app splitlines]. rewrite Hc.
  destruct l as [|c' l'].
  - cbn [app splitlines]. done.
  - rewrite IH by done. done.
Qed.

Lemma splitlines_last (l : list N) :
  l <> [] -> Forall (fun c => islinebreak c = false) l -> splitlines l = [l].
Proof.
  intros Hne Hl. induction Hl as [|c l Hc Hl IH]; [done|].
  cbn [splitlines]. rewrite Hc.
  destruct l as [|c' l']; [done|]. by rewrite IH.
Qed.

Lemma splitlines_join (lines : list (list N)) :
  Forall line_ok lines -> splitlines (join [10%N] lines) = lines.
Proof.
  induction 1 as [|l lines [Ht Hl] Hlines IH]; [done|].
  destruct lines as [|l2 lines'].
  - cbn [join]. apply splitlines_last; [by apply trimmed_nonempty|done].
  - change (join [10%N] (l :: l2 :: lines'))
      with (l ++ 10%N :: join [10%N] (l2 :: lines')).
    rewrite splitlines_line; [|by apply trimmed_nonempty|done]. by rewrite IH.
Qed.

End LineFacts.

(** * Whitespace normalisation *)

Section NormalizeFacts.
Import PyStr Cleaning.

Lemma isblank_isspace (c : N) : isblank c = true -> isspace c = true.
Proof.
  unfold isblank. intros [->%N.eqb_eq | ->%N.eqb_eq]%orb_prop; done.
Qed.

Lemma linebreak_not_blank (c : N) : islinebreak c = true -> isblank c = false.
Proof.
  unfold isblank. intros H.
  destruct (N.eqb_spec c 32) as [->|_]; [done|].
  destruct (N.eqb_spec c 9) as [->|_]; done.
Qed.

Lemma sub_blanks_cons (x y : N) (s : list N) :
  sub_blanks (x :: y :: s) =
    if isblank x then
      (if isblank y then sub_blanks (y :: s) else 32%N :: sub_blanks (y :: s))
    else x :: sub_blanks (y :: s).
Proof. done. Qed.

Lemma sub_blanks_app (a b : list N) (c : N) :
  isblank c = false ->
  sub_blanks (a ++ c :: b) = sub_blanks a ++ c :: sub_blanks b.
Proof.
  intros Hc. induction a as [|x a IH].
  - cbn [app sub_blanks]. by rewrite Hc.
  - destruct a as [|y a'].
    + cbn [app]. rewrite sub_blanks_cons, Hc. cbn [sub_blanks]. rewrite Hc.
      by destruct (isblank x).
    + change ((x :: y :: a') ++ c :: b) with (x :: y :: (a' ++ c :: b)).
      rewrite (sub_blanks_cons x y), (sub_blanks_cons x y).
      change (y :: a' ++ c :: b) with ((y :: a') ++ c :: b). rewrite IH.
      by destruct (isblank x), (isblank y).
Qed.

Lemma sub_blanks_join (lines : list (list N)) :
  sub_blanks (join [10%N] lines) = join [10%N] (map sub_blanks lines).
Proof.
  induction lines as [|l lines IH]; [done|].
  destruct lines as [|l2 lines']; [done|].
  change (join [10%N] (l :: l2 :: lines'))
    with (l ++ 10%N :: join [10%N] (l2 :: lines')).
  rewrite sub_blanks_app by done. by rewrite IH.
Qed.

Lemma sub_blanks_id (s : list N) :
  Forall (fun c => isblank c = false) s -> sub_blanks s = s.
Proof.
  induction 1 as [|c s Hc _ IH]; [done|]. cbn [sub_blanks]. by rewrite Hc, IH.
Qed.

Lemma sub_blanks_space (s : list N) :
  Exists (fun c => isblank c = true) s -> In 32%N (sub_blanks s).
Proof.
  induction s as [|c s IH]; intros Hex; [by inversion Hex|].
  cbn [sub_blanks]. destruct (isblank c) eqn:Hc.
  - destruct s as [|c' s']; [by left|].
    destruct (isblank c') eqn:Hc'; [|by left].
    apply IH. by left.
  - right. apply IH. inversion Hex; subst; [congruence|done].
Qed.

(** A normalised line without a space changed nothing. *)
Lemma sub_blanks_no_space (s : list N) :
  ~ In 32%N (sub_blanks s) -> sub_blanks s = s.
Proof.
  intros Hno. apply sub_blanks_id. apply Forall_forall. intros c Hin.
  destruct (isblank c) eqn:Hc; [|done]. exfalso. apply Hno, sub_blanks_space.
  apply Exists_exists. eauto.
Qed.

Lemma sub_blanks_nonblank (x : N) (s : list N) :
  isblank x = false -> sub_blanks (x :: s) = x :: sub_blanks s.
Proof. intros Hx. cbn [sub_blanks]. by rewrite Hx. Qed.

Lemma sub_blanks_idemp (s : list N) : sub_blanks (sub_blanks s) = sub_blanks s.
Proof.
  induction s as [|x s IH]; [done|].
  destruct s as [|y s'].
  - cbn [sub_blanks]. destruct (isblank x) eqn:Hx; [done|].
    by rewrite sub_blanks_nonblank.
  - rewrite sub_blanks_cons.
    destruct (isblank x) eqn:Hx; [destruct (isblank y) eqn:Hy|].
    + exact IH.
    + rewrite (sub_blanks_nonblank y) in * by done.
      rewrite sub_blanks_cons. change (isblank 32) with true. cbv iota.
      by rewrite Hy, IH.
    + rewrite (sub_blanks_nonblank x) by done. by rewrite IH.
Qed.

Lemma sub_blanks_Forall (P : N -> Prop) (s : list N) :
  P 32%N -> Forall P s -> Forall P (sub_blanks s).
Proof.
  intros H32. induction 1 as [|c s Hc Hs IH]; [constructor|].
  cbn [sub_blanks]. destruct (isblank c).
  - destruct s as [|c' s']; [by repeat constructor|].
    destruct (isblank c'); [done|by constructor].
  - by constructor.
Qed.

Lemma sub_blanks_trimmed (s : list N) : trimmed s -> trimmed (sub_blanks s).
Proof.
  intros [(a & r & -> & Ha) (b & r' & Hb & Hsb)].
  assert (Hba : isblank a = false).
  { destruct (isblank a) eqn:E; [|done]. apply isblank_isspace in E. congruence. }
  assert (Hbb : isblank b = false).
  { destruct (isblank b) eqn:E; [|done]. apply isblank_isspace in E. congruence. }
  split.
  - cbn [sub_blanks]. rewrite Hba. eauto.
  - apply (f_equal (@rev N)) in Hb. rewrite rev_involutive in Hb. cbn [rev] in Hb.
    rewrite Hb, sub_blanks_app by done. cbn [sub_blanks].
    rewrite rev_app_distr. cbn. eauto.
Qed.

Lemma sub_blanks_line_ok (l : list N) : line_ok l -> line_ok (sub_blanks l).
Proof.
  intros [Ht Hl]. split; [by apply sub_blanks_trimmed|].
  by apply sub_blanks_Forall.
Qed.

Lemma sub_newlines_text (l rest : list N) :
  Forall (fun c => islinebreak c = false) l ->
  sub_newlines 0 (l ++ rest) = l ++ sub_newlines 0 rest.
Proof.
  induction 1 as [|c l Hc _ IH]; [done|]. cbn [app sub_newlines].
  destruct (N.eqb_spec c 10) as [->|_]; [done|]. cbn. by rewrite IH.
Qed.

Lemma sub_newlines_join (lines : list (list N)) :
  Forall line_ok lines ->
  sub_newlines 0 (join [10%N] lines) = join [10%N] lines.
Proof.
  induction 1 as [|l lines [Ht Hl] Hlines IH]; [done|].
  destruct lines as [|l2 lines'].
  - cbn [join]. rewrite <- (app_nil_r l) at 1.
    rewrite sub_newlines_text by done. cbn. by rewrite app_nil_r.
  - change (join [10%N] (l :: l2 :: lines'))
      with (l ++ 10%N :: join [10%N] (l2 :: lines')).
    rewrite sub_newlines_text by done. f_equal.
    inversion Hlines as [|? ? [Ht2 Hl2] _]; subst.
    destruct Ht2 as [(a & r & -> & _) _].
    inversion Hl2 as [|? ? Ha _]; subst.
    assert (Hjoin : exists t, join [10%N] ((a :: r) :: lines') = a :: t).
    { destruct lines'; cbn; eauto. }
    destruct Hjoin as (t & Ht'). rewrite Ht' in *.
    cbn [sub_newlines]. change (10 =? 10)%N with true. cbv iota.
    cbn [sub_newlines]. destruct (N.eqb_spec a 10) as [->|_]; [done|].
    cbn [sub_newlines] in IH. destruct (N.eqb_spec a 10) as [->|_]; [done|].
    cbn in IH. cbn. by rewrite IH.
Qed.

Lemma join_lines_last (lines : list (list N)) :
  lines <> [] -> Forall line_ok lines ->
  exists b r, rev (join [10%N] lines) = b :: r /\ isspace b = false.
Proof.
  intros Hne Hall.
  induction Hall as [|l lines [[_ (b & r & Hb & Hsb)] _] Hlines IH]; [done|].
  destruct lines as [|l2 lines']; [cbn [join]; eauto|].
  change (join [10%N] (l :: l2 :: lines'))
    with (l ++ 10%N :: join [10%N] (l2 :: lines')).
  rewrite rev_app_distr. cbn [rev]. rewrite <- app_assoc.
  destruct IH as (b' & r' & Hb' & Hsb'); [done|]. rewrite Hb'. cbn. eauto.
Qed.

Lemma join_lines_trimmed (lines : list (list N)) :
  lines <> [] -> Forall line_ok lines -> trimmed (join [10%N] lines).
Proof.
  intros Hne Hall. split; [|by apply join_lines_last].
  destruct lines as [|l lines]; [done|].
  inversion Hall as [|? ? [[(a & r & -> & Ha) _] _] _]; subst.
  destruct lines; cbn; eauto.
Qed.

(** On stripped lines without line boundary, normalising the joined text
    is normalising the blanks of each line. *)
Lemma normalize_join (lines : list (list N)) :
  Forall line_ok lines ->
  _normalize_spaces (join [10%N] lines) = join [10%N] (map sub_blanks lines).
Proof.
  intros Hall. unfold _normalize_spaces. rewrite sub_blanks_join.
  assert (Hall' : Forall line_ok (map sub_blanks lines)).
  { apply Forall_map. eapply Forall_impl; [exact Hall|]. apply sub_blanks_line_ok. }
  rewrite sub_newlines_join by done.
  destruct lines as [|l lines]; [done|].
  apply strip_of_trimmed, join_lines_trimmed; done.
Qed.

End NormalizeFacts.

(** * Regular expressions *)

Section RegexFacts.
Import Regex.

Lemma nullable_matches (r : re) : nullable r = true -> matches r [].
Proof.
  induction r as [| |p|a IHa b IHb|a IHa b IHb|a IHa]; cbn; intros H;
    try done.
  - constructor.
  - apply andb_prop in H as [Ha Hb]. apply (m_cat a b [] []); auto.
  - apply orb_prop in H as [Ha|Hb]; [apply m_alt_l|apply m_alt_r]; auto.
  - constructor.
Qed.

Lemma deriv_matches (c : N) (r : re) :
  forall s, matches (deriv c r) s -> matches r (c :: s).
Proof.
  induction r as [| |p|a IHa b IHb|a IHa b IHb|a IHa]; cbn [deriv]; intros s H.
  - inversion H.
  - inversion H.
  - destruct (p c) eqn:Hp; inversion H; subst. by constructor.
  - destruct (nullable a) eqn:Hn.
    + inversion H as [| | | ? ? ? H1 | ? ? ? H2 | |]; subst.
      * inversion H1 as [| | ? ? s1 s2 Ha Hb | | | |]; subst.
        apply (m_cat a b (c :: s1) s2); auto.
      * apply (m_cat a b [] (c :: s)); [by apply nullable_matches|auto].
    + inversion H as [| | ? ? s1 s2 Ha Hb | | | |]; subst.
      apply (m_cat a b (c :: s1) s2); auto.
  - inversion H; subst; [apply m_alt_l|apply m_alt_r]; auto.
  - inversion H as [| | ? ? s1 s2 Ha Hb | | | |]; subst.
    apply (m_star_cons a (c :: s1) s2); auto.
Qed.

Lemma fullmatch_matches (r : re) (s : list N) :
  fullmatch r s = true -> matches r s.
Proof.
  revert r. induction s as [|c s IH]; intros r H; cbn [fullmatch] in H.
  - by apply nullable_matches.
  - by apply deriv_matches, IH.
Qed.

Lemma matches_nullable (r : re) (s : list N) :
  matches r s -> s = [] -> nullable r = true.
Proof.
  induction 1 as [ |p c Hp|a b s t Ha IHa Hb IHb|a b s Ha IHa|a b s Hb IHb|a
                  |a s t Ha IHa Hs IHs]; intros Hnil; cbn [nullable]; try done.
  - apply app_eq_nil in Hnil as [-> ->]. by rewrite IHa, IHb.
  - by rewrite IHa.
  - rewrite IHb by done. apply orb_true_r.
Qed.

Lemma matches_deriv (r : re) (t : list N) :
  matches r t -> forall c s, t = c :: s -> matches (deriv c r) s.
Proof.
  induction 1 as [ |p x Hp|a b s1 s2 Ha IHa Hb IHb|a b s1 Ha IHa|a b s1 Hb IHb|a
                  |a s1 s2 Ha IHa Hs IHs]; intros c s Heq; cbn [deriv]; try done.
  - injection Heq as -> <-. rewrite Hp. constructor.
  - destruct s1 as [|x s1'].
    + cbn in Heq. subst s2. rewrite (matches_nullable a [] Ha eq_refl).
      apply m_alt_r. by apply IHb.
    + cbn in Heq. injection Heq as -> <-.
      assert (Hc : matches (Cat (deriv c a) b) (s1' ++ s2))
        by (apply m_cat; [by apply IHa|done]).
      destruct (nullable a); [by apply m_alt_l|done].
  - apply m_alt_l. by apply IHa.
  - apply m_alt_r. by apply IHb.
  - destruct s1 as [|x s1'].
    + cbn in Heq. by apply IHs.
    + cbn in Heq. injection Heq as -> <-. apply m_cat; [by apply IHa|done].
Qed.

(** The matcher decides the language of the expression. *)
Lemma fullmatch_spec (r : re) (s : list N) :
  fullmatch r s = true <-> matches r s.
Proof.
  split; [apply fullmatch_matches|].
  revert r. induction s as [|c s IH]; intros r H; cbn [fullmatch].
  - by eapply matches_nullable.
  - apply IH. by eapply matches_deriv.
Qed.

Lemma matches_class (p : N -> bool) (s : list N) :
  matches (Class p) s -> exists c, s = [c] /\ p c = true.
Proof. inversion 1; subst. eauto. Qed.

Lemma matches_star_class (p : N -> bool) (s : list N) :
  matches (Star (Class p)) s -> Forall (fun c => p c = true) s.
Proof.
  intros H. remember (Star (Class p)) as r eqn:Hr.
  induction H as [ | | | | |a|a s t Ha _ Hs IHs]; try done.
  injection Hr as ->. apply matches_class in Ha as (c & -> & Hc).
  constructor; [done|]. by apply IHs.
Qed.

Lemma rule_re_chars (s : list N) :
  fullmatch Cleaning.rule_re s = true ->
  Forall (fun c => Cleaning.isrule c = true) s.
Proof.
  intros H%fullmatch_matches. unfold Cleaning.rule_re in H.
  inversion H as [| | ? ? s1 t1 H1 H2 | | | |]; subst.
  inversion H2 as [| | ? ? s2 t2 H3 H4 | | | |]; subst.
  inversion H4 as [| | ? ? s3 t3 H5 H6 | | | |]; subst.
  apply matches_class in H1 as (c1 & -> & ?).
  apply matches_class in H3 as (c2 & -> & ?).
  apply matches_class in H5 as (c3 & -> & ?).
  apply matches_star_class in H6. cbn. by repeat constructor.
Qed.

End RegexFacts.

(** * Page numbers and rules under blank normalisation *)

Section BlankStable.
Import PyStr Regex Cleaning CleaningSpec.

Lemma sub_blanks_head (c : N) (s : list N) :
  isblank c = true -> exists r, sub_blanks (c :: s) = 32%N :: r.
Proof.
  revert c. induction s as [|c' s IH]; intros c Hc.
  - cbn [sub_blanks]. rewrite Hc. eauto.
  - rewrite sub_blanks_cons, Hc. destruct (isblank c') eqn:Hc'; [|eauto].
    by apply IH.
Qed.

Lemma expands_space_inv (s t : list N) :
  expands (32%N :: s) t ->
  exists run t', t = run ++ t' /\ run <> []
    /\ Forall (fun c => isblank c = true) run /\ expands s t'.
Proof.
  inversion 1 as [|c s' t' Hc He|run s' t' Hne Hrun He]; subst; [done|].
  eauto 10.
Qed.

Lemma expands_sub_blanks (t : list N) : expands (sub_blanks t) t.
Proof.
  induction t as [|c t IH]; [constructor|].
  destruct t as [|c' t'].
  - cbn [sub_blanks]. destruct (isblank c) eqn:Hc.
    + apply (expands_run [c] [] []); [done|by repeat constructor|constructor].
    + by repeat constructor.
  - rewrite sub_blanks_cons.
    destruct (isblank c) eqn:Hc; [destruct (isblank c') eqn:Hc'|].
    + destruct (sub_blanks_head c' t' Hc') as (r & Hr). rewrite Hr in *.
      apply expands_space_inv in IH as (run & t2 & Ht & Hne & Hrun & He).
      rewrite Ht. apply (expands_run (c :: run) r t2); [done|by constructor|done].
    + apply (expands_run [c] _ (c' :: t')); [done|by repeat constructor|done].
    + by constructor.
Qed.

Lemma expands_app_inv (s1 s2 t : list N) :
  expands (s1 ++ s2) t ->
  exists t1 t2, t = t1 ++ t2 /\ expands s1 t1 /\ expands s2 t2.
Proof.
  revert t. induction s1 as [|c s1 IH]; intros t H.
  - exists [], t. split; [done|]. split; [constructor|done].
  - cbn [app] in H.
    inversion H as [|c0 s' t' Hc He|run s' t' Hne Hrun He]; subst.
    + destruct (IH _ He) as (t1 & t2 & -> & H1 & H2).
      exists (c :: t1), t2. split; [done|]. split; [by constructor|done].
    + destruct (IH _ He) as (t1 & t2 & -> & H1 & H2).
      exists (run ++ t1), t2. rewrite app_assoc. split; [done|].
      split; [by constructor|done].
Qed.

Lemma blank_stable_eps : blank_stable Eps.
Proof. intros s t Hm He. inversion Hm; subst. inversion He; subst. constructor. Qed.

Lemma blank_stable_class (p : N -> bool) :
  (forall c, isblank c = true -> p c = false) -> blank_stable (Class p).
Proof.
  intros Hp s t Hm He. apply matches_class in Hm as (c & -> & Hc).
  inversion He as [|c0 s' t' Hb He'|run s' t' Hne Hrun He']; subst.
  - inversion He'; subst. by constructor.
  - by rewrite (Hp 32%N) in Hc.
Qed.

Lemma blank_stable_cat (a b : re) :
  blank_stable a -> blank_stable b -> blank_stable (Cat a b).
Proof.
  intros Ha Hb s t Hm He. inversion Hm as [| |? ? s1 s2 H1 H2| | | |]; subst.
  apply expands_app_inv in He as (t1 & t2 & -> & E1 & E2).
  constructor; eauto.
Qed.

Lemma blank_stable_alt (a b : re) :
  blank_stable a -> blank_stable b -> blank_stable (Alt a b).
Proof.
  intros Ha Hb s t Hm He. inversion Hm; subst;
    [apply m_alt_l|apply m_alt_r]; eauto.
Qed.

Lemma blank_stable_star (a : re) : blank_stable a -> blank_stable (Star a).
Proof.
  intros Ha s t Hm. revert t. remember (Star a) as r eqn:Hr.
  induction Hm as [ | | | | |a'|a' s1 s2 H1 _ H2 IH2]; try done; intros t He.
  - inversion He; subst. constructor.
  - injection Hr as ->.
    apply expands_app_inv in He as (t1 & t2 & -> & E1 & E2).
    constructor; [by eapply Ha|by apply IH2].
Qed.

Lemma matches_star_of_class (p : N -> bool) (s : list N) :
  Forall (fun c => p c = true) s -> matches (Star (Class p)) s.
Proof.
  induction 1 as [|c s Hc _ IH]; [constructor|].
  apply (m_star_cons (Class p) [c] s); [by constructor|done].
Qed.

Lemma expands_spaces (s t : list N) :
  expands s t -> Forall (fun c => isspace c = true) s ->
  Forall (fun c => isspace c = true) t.
Proof.
  induction 1 as [|c s t Hc He IH|run s t Hne Hrun He IH]; intros Hs;
    [done| |]; inversion Hs; subst.
  - constructor; auto.
  - apply Forall_app. split; [|auto].
    eapply Forall_impl; [exact Hrun|]. apply isblank_isspace.
Qed.

(** [\s*] is closed under the expansion of spaces. *)
Lemma blank_stable_spaces : blank_stable (Star (Class isspace)).
Proof.
  intros s t Hm He. apply matches_star_of_class.
  eapply expands_spaces; [exact He|]. by apply matches_star_class.
Qed.

Lemma blank_stable_str (s : list N) :
  Forall (fun c => isblank c = false) s -> blank_stable (Str s).
Proof.
  induction 1 as [|c s Hc _ IH]; cbn [Str]; [apply blank_stable_eps|].
  apply blank_stable_cat; [|done]. apply blank_stable_class.
  intros x Hx. unfold Chr. destruct (N.eqb_spec c x) as [->|]; [congruence|done].
Qed.

Variable isdecimal : N -> bool.
Hypothesis digits_not_blank : forall c, isblank c = true -> isdecimal c = false.

Lemma blank_stable_digits : blank_stable (digits_re isdecimal).
Proof.
  unfold digits_re, Plus.
  apply blank_stable_cat; [|apply blank_stable_star]; by apply blank_stable_class.
Qed.

Lemma blank_stable_page : blank_stable (page_re isdecimal).
Proof.
  unfold page_re, Opt.
  repeat first
    [ apply blank_stable_spaces
    | apply blank_stable_digits
    | apply blank_stable_eps
    | apply blank_stable_cat
    | apply blank_stable_alt
    | apply blank_stable_str; by repeat constructor
    | apply blank_stable_class; by intros c [->%N.eqb_eq | ->%N.eqb_eq]%orb_prop ].
Qed.

(** A stripped line that is no page number is none after normalisation. *)
Lemma page_number_sub_blanks (l : list N) :
  trimmed l ->
  _is_page_number isdecimal l = false ->
  _is_page_number isdecimal (sub_blanks l) = false.
Proof.
  intros Ht. unfold _is_page_number.
  rewrite (strip_of_trimmed l Ht).
  rewrite (strip_of_trimmed _ (sub_blanks_trimmed l Ht)).
  destruct (fullmatch (page_re isdecimal) l) eqn:Hp; [done|].
  destruct (fullmatch (digits_re isdecimal) l) eqn:Hd; [done|]. intros _.
  destruct (fullmatch (page_re isdecimal) (sub_blanks l)) eqn:Hp'.
  { apply fullmatch_spec in Hp'.
    apply (blank_stable_page _ l) in Hp'; [|apply expands_sub_blanks].
    apply fullmatch_spec in Hp'. congruence. }
  destruct (fullmatch (digits_re isdecimal) (sub_blanks l)) eqn:Hd'; [|done].
  apply fullmatch_spec in Hd'.
  apply (blank_stable_digits _ l) in Hd'; [|apply expands_sub_blanks].
  apply fullmatch_spec in Hd'. congruence.
Qed.

End BlankStable.

(** * The cleaner *)

Section CleanerFacts.
Import PyStr Parsing Regex Cleaning CleaningSpec.

Variable isdecimal : N -> bool.

Lemma kept_lines_filter (doc : ParsedDocument) (headers footers : gset (list N))
    (sec_id : list N) (raws : list (list N)) :
  forall lines,
  kept_lines isdecimal doc headers footers sec_id raws lines
  = lines ++ List.filter (keeps isdecimal doc headers footers sec_id) (map strip raws).
Proof.
  induction raws as [|raw raws IH]; intros lines;
    cbn [kept_lines map List.filter]; [by rewrite app_nil_r|].
  unfold keeps at 1. rewrite !IH.
  destruct (bool_decide (strip raw = [])); [done|].
  destruct (paginated doc sec_id); cbn [andb negb];
    [destruct (bool_decide (strip raw ∈ headers)),
       (bool_decide (strip raw ∈ footers)); cbn [orb andb negb]; try done;
     destruct (_is_page_number isdecimal (strip raw)); cbn [orb andb negb]; try done|];
    destruct (fullmatch rule_re (strip raw)); cbn [andb negb]; try done;
    by rewrite <- app_assoc.
Qed.

Lemma clean_sections_map (doc : ParsedDocument) (headers footers : gset (list N))
    (sections : list (list N * list N)) :
  forall cleaned_pages,
  clean_sections isdecimal doc headers footers sections cleaned_pages
  = cleaned_pages ++ map (clean_one isdecimal doc headers footers) sections.
Proof.
  induction sections as [|[sec_id text] sections IH]; intros cleaned_pages;
    cbn [clean_sections map]; [by rewrite app_nil_r|].
  rewrite IH, kept_lines_filter, <- app_assoc. done.
Qed.

Lemma clean_text_filter (doc : ParsedDocument) : cleans_by_filter isdecimal doc.
Proof. unfold cleans_by_filter, clean_text. by rewrite clean_sections_map. Qed.

Lemma kept_line_ok (doc : ParsedDocument) (headers footers : gset (list N))
    (sec_id text : list N) :
  Forall line_ok
    (List.filter (keeps isdecimal doc headers footers sec_id)
       (map strip (splitlines text))).
Proof.
  apply Forall_forall. intros l Hin. apply list_elem_of_In, filter_In in Hin as [Hin Hk].
  apply in_map_iff in Hin as (raw & <- & Hraw).
  unfold keeps in Hk. apply andb_prop in Hk as [[Hne _]%andb_prop _].
  apply negb_true_iff, bool_decide_eq_false in Hne. split.
  - by apply strip_trimmed.
  - apply strip_Forall. pose proof (splitlines_Forall text) as Hall.
    rewrite Forall_forall in Hall. by apply Hall, list_elem_of_In.
Qed.

Lemma clean_one_lines (doc : ParsedDocument) (headers footers : gset (list N))
    (p : list N * list N) :
  clean_one isdecimal doc headers footers p
  = (p.1, join [10%N]
            (map sub_blanks
               (List.filter (keeps isdecimal doc headers footers p.1)
                  (map strip (splitlines p.2))))).
Proof. unfold clean_one. by rewrite normalize_join by apply kept_line_ok. Qed.

Lemma cleaned_lines_ok (doc : ParsedDocument) (headers footers : gset (list N))
    (sec_id text : list N) :
  Forall line_ok
    (map sub_blanks
       (List.filter (keeps isdecimal doc headers footers sec_id)
          (map strip (splitlines text)))).
Proof.
  apply Forall_map. eapply Forall_impl; [apply kept_line_ok|].
  apply sub_blanks_line_ok.
Qed.

Lemma isrule_not_blank (l : list N) :
  Forall (fun c => isrule c = true) l -> ~ In 32%N l.
Proof.
  intros Hall Hin. rewrite Forall_forall in Hall.
  by specialize (Hall _ (proj2 (list_elem_of_In _ _) Hin)).
Qed.

Lemma rule_sub_blanks (l : list N) :
  fullmatch rule_re l = false -> fullmatch rule_re (sub_blanks l) = false.
Proof.
  intros Hrule. destruct (fullmatch rule_re (sub_blanks l)) eqn:Hm; [|done].
  pose proof (rule_re_chars _ Hm) as Hchars.
  rewrite (sub_blanks_no_space l (isrule_not_blank _ Hchars)) in Hm. congruence.
Qed.

(** A line kept outside the paginated sections is kept again once its
    blanks are normalised. *)
Lemma keeps_again (doc doc' : ParsedDocument) (H F H' F' : gset (list N))
    (sec_id l : list N) :
  paginated doc' sec_id = false -> line_ok l ->
  keeps isdecimal doc H F sec_id l = true ->
  keeps isdecimal doc' H' F' sec_id (sub_blanks l) = true.
Proof.
  intros Hp' Hl Hk. unfold keeps in *. rewrite Hp'. cbn [andb negb].
  apply andb_prop in Hk as [_ Hrule%negb_true_iff].
  rewrite andb_true_r. apply andb_true_intro. split.
  - apply negb_true_iff, bool_decide_eq_false.
    apply trimmed_nonempty, sub_blanks_trimmed, Hl.
  - by apply negb_true_iff, rule_sub_blanks.
Qed.

(** In a paginated section a kept line is kept again once its blanks are
    normalised, unless it has become a common header or footer. *)
Lemma keeps_again_settled (doc doc' : ParsedDocument) (H F H' F' : gset (list N))
    (sec_id l : list N) :
  (forall c, isblank c = true -> isdecimal c = false) ->
  paginated doc sec_id = true -> line_ok l ->
  keeps isdecimal doc H F sec_id l = true ->
  sub_blanks l ∉ H' -> sub_blanks l ∉ F' ->
  keeps isdecimal doc' H' F' sec_id (sub_blanks l) = true.
Proof.
  intros Hdigits Hp Hl Hk HH HF. unfold keeps in *. rewrite Hp in Hk.
  apply andb_prop in Hk as [[_ Hk]%andb_prop Hrule%negb_true_iff].
  cbn [andb] in Hk. apply negb_true_iff in Hk.
  apply orb_false_elim in Hk as [_ Hpage].
  rewrite (bool_decide_eq_false_2 _ HH), (bool_decide_eq_false_2 _ HF).
  rewrite (page_number_sub_blanks isdecimal Hdigits l (proj1 Hl) Hpage).
  cbn [orb]. rewrite andb_false_r. cbn [negb]. rewrite andb_true_r.
  apply andb_true_intro. split.
  - apply negb_true_iff, bool_decide_eq_false.
    apply trimmed_nonempty, sub_blanks_trimmed, Hl.
  - by apply negb_true_iff, rule_sub_blanks.
Qed.

Lemma filter_all_In {A} (f : A -> bool) (l : list A) :
  (forall x, In x l -> f x = true) -> List.filter f l = l.
Proof.
  intros H. apply filter_all_true, forallb_forall. exact H.
Qed.

Lemma map_id_In {A} (f : A -> A) (l : list A) :
  (forall x, In x l -> f x = x) -> map f l = l.
Proof.
  intros H. rewrite <- (map_id l) at 2. by apply map_ext_in.
Qed.

Lemma reclean_kept (doc doc' : ParsedDocument) (H F H' F' : gset (list N))
    (p : list N * list N) :
  (forall l, In l (List.filter (keeps isdecimal doc H F p.1)
                     (map strip (splitlines p.2))) ->
     keeps isdecimal doc' H' F' p.1 (sub_blanks l) = true) ->
  clean_one isdecimal doc' H' F' (clean_one isdecimal doc H F p)
  = clean_one isdecimal doc H F p.
Proof.
  intros Hkeep. rewrite (clean_one_lines doc H F p).
  set (L := List.filter (keeps isdecimal doc H F p.1) (map strip (splitlines p.2))) in *.
  assert (HL' : Forall line_ok (map sub_blanks L)) by apply cleaned_lines_ok.
  rewrite clean_one_lines. cbn [fst snd]. f_equal.
  rewrite splitlines_join by done. f_equal.
  rewrite (map_id_In strip).
  2:{ intros l Hin. apply strip_of_trimmed.
      rewrite Forall_forall in HL'. by apply HL', list_elem_of_In. }
  rewrite filter_all_In.
  2:{ intros l' (l & <- & Hin)%in_map_iff. by apply Hkeep. }
  rewrite map_map. apply map_ext. intros l. apply sub_blanks_idemp.
Qed.

(** Cleaning a cleaned section once more, outside the paginated sections. *)
Lemma reclean_unpaginated (doc doc' : ParsedDocument) (H F H' F' : gset (list N))
    (p : list N * list N) :
  paginated doc' p.1 = false ->
  clean_one isdecimal doc' H' F' (clean_one isdecimal doc H F p)
  = clean_one isdecimal doc H F p.
Proof.
  intros Hp'. apply reclean_kept. intros l Hin.
  apply (keeps_again doc doc' H F); [done| |by apply filter_In in Hin as [_ ?]].
  pose proof (kept_line_ok doc H F p.1 p.2) as HL.
  rewrite Forall_forall in HL. by apply HL, list_elem_of_In.
Qed.

(** Cleaning a cleaned page once more, when none of its lines is a common
    header or footer by now. *)
Lemma reclean_settled (doc doc' : ParsedDocument) (H F H' F' : gset (list N))
    (p : list N * list N) :
  (forall c, isblank c = true -> isdecimal c = false) ->
  paginated doc p.1 = true ->
  Forall (fun l => (l ∉ H') /\ (l ∉ F'))
    (splitlines (clean_one isdecimal doc H F p).2) ->
  clean_one isdecimal doc' H' F' (clean_one isdecimal doc H F p)
  = clean_one isdecimal doc H F p.
Proof.
  intros Hdigits Hp Hset. apply reclean_kept. intros l Hin.
  rewrite clean_one_lines in Hset. cbn [snd] in Hset.
  rewrite splitlines_join in Hset by apply cleaned_lines_ok.
  rewrite Forall_forall in Hset.
  destruct (Hset (sub_blanks l)) as [HH HF].
  { apply list_elem_of_In, in_map, Hin. }
  apply (keeps_again_settled doc doc' H F); try done.
  - pose proof (kept_line_ok doc H F p.1 p.2) as HL.
    rewrite Forall_forall in HL. by apply HL, list_elem_of_In.
  - by apply filter_In in Hin as [_ ?].
Qed.

Lemma count_of_cons (h k : list N) (keys : list (list N)) :
  count_of h (k :: keys)
  = (if bool_decide (k = h) then 1 else 0) + count_of h keys.
Proof.
  unfold count_of, len. cbn [List.filter].
  destruct (bool_decide (k = h)); cbn [length]; lia.
Qed.

Lemma count_of_nonneg (h : list N) (keys : list (list N)) : 0 <= count_of h keys.
Proof. unfold count_of, len. lia. Qed.

Lemma count_up_fold (keys : list (list N)) :
  forall (d : gmap (list N) Z) (h : list N),
  fold_left count_up keys d !! h
  = if count_of h keys =? 0 then d !! h
    else Some (default 0 (d !! h) + count_of h keys).
Proof.
  induction keys as [|k keys IH]; intros d h; [done|].
  cbn [fold_left]. rewrite IH, count_of_cons. unfold count_up.
  pose proof (count_of_nonneg h keys) as Hc.
  case_bool_decide as Hk.
  - subst k. rewrite lookup_insert_eq. cbn [default].
    destruct (Z.eqb_spec (count_of h keys) 0) as [E|E];
      destruct (Z.eqb_spec (1 + count_of h keys) 0); try lia.
    + by rewrite E, Z.add_0_r.
    + by rewrite Z.add_assoc.
  - rewrite lookup_insert_ne by done. by rewrite Z.add_0_l.
Qed.

Lemma common_rule (keys : list (list N)) (total : Z) :
  frequency_rule (common (fold_left count_up keys ∅) total) keys total.
Proof.
  intros h. unfold common. rewrite elem_of_dom. split.
  - intros [c Hc]. apply map_lookup_filter_Some in Hc as [Hl Hp].
    rewrite count_up_fold, lookup_empty in Hl. cbn [snd] in Hp.
    destruct (count_of h keys =? 0); [done|]. injection Hl as <-. cbn in Hp. lia.
  - intros Hthr. exists (count_of h keys). apply map_lookup_filter_Some.
    split; [|done]. rewrite count_up_fold, lookup_empty.
    destruct (Z.eqb_spec (count_of h keys) 0); [lia|done].
Qed.

Lemma candidates_fold (sections : list (list N * list N)) :
  forall hc fc,
  candidates sections (hc, fc)
  = (fold_left count_up
       (omap (fun p : list N * list N => first_line p.2) sections) hc,
     fold_left count_up
       (omap (fun p : list N * list N => last_line p.2) sections) fc).
Proof.
  induction sections as [|[sec_id text] sections IH]; intros hc fc; [done|].
  cbn [candidates omap list_omap snd]. unfold first_line, last_line.
  destruct (splitlines text) as [|l ls]; [apply IH|].
  cbn [fst snd fold_left]. apply IH.
Qed.

Lemma first_last_rule_holds (doc : ParsedDocument) : first_last_rule doc.
Proof.
  unfold first_last_rule, common_headers, common_footers.
  rewrite candidates_fold. cbn [fst snd]. split; apply common_rule.
Qed.

(** A common header without blanks is a line of no cleaned page. *)
Lemma common_line_absent (doc : ParsedDocument) (h : list N) (p : list N * list N) :
  h ∈ common_headers doc -> paginated doc p.1 = true ->
  Forall (fun c => isblank c = false) h ->
  ~ In h (splitlines
            (clean_one isdecimal doc (common_headers doc) (common_footers doc) p).2).
Proof.
  intros Hh Hpag Hblank. rewrite clean_one_lines. cbn [snd].
  rewrite splitlines_join by apply cleaned_lines_ok.
  intros (l & Hl & Hin)%in_map_iff. apply filter_In in Hin as [_ Hk].
  assert (l = h) as ->.
  { rewrite <- Hl. symmetry. apply sub_blanks_no_space. rewrite Hl.
    intros H32. rewrite Forall_forall in Hblank.
    by specialize (Hblank _ (proj2 (list_elem_of_In _ _) H32)). }
  unfold keeps in Hk. rewrite Hpag, (bool_decide_eq_true_2 _ Hh) in Hk.
  cbn in Hk. by rewrite andb_false_r in Hk.
Qed.

End CleanerFacts.

(** * The claims on the cleaner *)

Section CleanerClaims.
Import PyStr Parsing Regex Cleaning CleaningSpec.

Lemma count_of_all (h : list N) (sections : list (list N * list N)) :
  Forall (fun p : list N * list N => first_line p.2 = Some h) sections ->
  count_of h (omap (fun p : list N * list N => first_line p.2) sections)
  = len sections.
Proof.
  induction 1 as [|p sections Hp _ IH]; [done|].
  cbn [omap list_omap]. rewrite Hp, count_of_cons, IH.
  rewrite bool_decide_eq_true_2 by done. unfold len. cbn [length]. lia.
Qed.

Lemma headed_pages_absent (isdecimal : N -> bool) (doc : ParsedDocument) (h : list N) :
  pages_headed doc h -> 2 <= len (sections_text doc) ->
  Forall (fun c => isblank c = false) h ->
  absent_from_cleaned isdecimal doc h.
Proof.
  intros [Hm Hpages] Hn Hblank.
  assert (Hh : h ∈ common_headers doc).
  { apply (proj1 (first_last_rule_holds doc)). rewrite count_of_all.
    - pose proof (Z.div_le_upper_bound (len (sections_text doc)) 5
                    (len (sections_text doc))). lia.
    - eapply Forall_impl; [exact Hpages|]. by intros p [_ ?]. }
  unfold absent_from_cleaned. rewrite (clean_text_filter isdecimal doc).
  apply Forall_map. eapply Forall_impl; [exact Hpages|].
  intros p [Hid _]. apply common_line_absent; [done| |done].
  unfold paginated. by rewrite Hid, (bool_decide_eq_true_2 _ Hm).
Qed.

(** C5, as stated, fails: on three pages that begin with an empty line
    followed by "CONFIDENTIAL", the first non-empty line of every page is
    "CONFIDENTIAL", and the cleaner does not class it as a common header. *)
Lemma nonempty_header_rule_fails :
  ~ nonempty_header_rule (pdf_of blank_led_pages).
Proof.
  intros H. destruct (H confidential) as [_ Hin].
  assert (Hc : confidential ∈ common_headers (pdf_of blank_led_pages)).
  { apply Hin. vm_compute. discriminate. }
  apply (bool_decide_pack _) in Hc. vm_compute in Hc. exact Hc.
Qed.

(** C5, amended: for every ParsedDocument the cleaner takes the first and
    the last line of every section that has a line, stripped and possibly
    empty, counts each distinct first-line value and each distinct last-line
    value over all sections, and classes a value as a common header (resp.
    footer) when its count is at least [max(2, total_sections // 5)]; it
    keeps of every section the stripped lines that are not empty and not a
    rule of three or more dashes, and drops the lines equal to a common
    header or footer or matching a page number only in the sections of a
    deterministic extraction whose id starts with "page-". In particular a
    document of two or more such pages whose first line is "CONFIDENTIAL"
    on every page, three pages for one, has no line "CONFIDENTIAL" in any
    cleaned section. *)
Theorem clean_text_first_last_rule (isdecimal : N -> bool) (doc : ParsedDocument) :
  first_last_rule doc
  /\ cleans_by_filter isdecimal doc
  /\ (forall sec_id l, paginated doc sec_id = false ->
        keeps isdecimal doc (common_headers doc) (common_footers doc) sec_id l
        = negb (bool_decide (l = [])) && negb (fullmatch rule_re l))
  /\ (forall h, pages_headed doc h -> 2 <= len (sections_text doc) ->
        Forall (fun c => isblank c = false) h ->
        absent_from_cleaned isdecimal doc h)
  /\ (pages_headed doc confidential -> len (sections_text doc) = 3 ->
      absent_from_cleaned isdecimal doc confidential).
Proof.
  split; [apply first_last_rule_holds|]. split; [apply clean_text_filter|].
  split; [|split].
  - intros sec_id l Hp. unfold keeps. rewrite Hp. cbn [andb negb].
    by rewrite andb_true_r.
  - intros h. apply headed_pages_absent.
  - intros Hp Hn. apply headed_pages_absent; [done|lia|].
    by repeat constructor.
Qed.

Lemma Forall2_map_self {A} (R : A -> A -> Prop) (g : A -> A) (l : list A) :
  (forall x, In x l -> R x (g x)) -> Forall2 R l (map g l).
Proof.
  induction l as [|x l IH]; intros H; cbn [map]; constructor.
  - apply H. by left.
  - apply IH. intros y Hy. apply H. by right.
Qed.

(** C6, as stated, fails: two pages that open with the same two lines lose
    the first of them when cleaned, and the second one when cleaned again. *)
Lemma idempotent_on_fails :
  ~ idempotent_on ascii_digit (pdf_of layered_pages).
Proof. intros H. vm_compute in H. discriminate H. Qed.

(** C6, amended: cleaning the cleaner's own output again (the cleaned
    sections wrapped as a document with the same section ids and the same
    parsing method) keeps the section ids and returns unchanged every
    section that is not subject to header, footer and page-number removal,
    that is every section unless the parsing method is "deterministic" and
    its id starts with "page-", so that a document without such a section
    is returned completely unchanged; and, no blank being a decimal digit,
    it returns unchanged every other cleaned section too, provided none of
    its lines is a common header or footer of the cleaned document. *)
Theorem clean_text_idempotent_off_pages (isdecimal : N -> bool) (doc : ParsedDocument) :
  idempotent_off_pages isdecimal doc
  /\ (Forall (fun p : list N * list N => paginated doc p.1 = false)
        (sections_text doc) ->
      idempotent_on isdecimal doc)
  /\ ((forall c, isblank c = true -> isdecimal c = false) ->
      idempotent_where_settled isdecimal doc).
Proof.
  unfold idempotent_off_pages, idempotent_on, idempotent_where_settled, settled.
  rewrite (clean_text_filter isdecimal doc).
  set (f := clean_one isdecimal doc (common_headers doc) (common_footers doc)).
  set (doc' := rewrap doc (map f (sections_text doc))).
  rewrite (clean_text_filter isdecimal doc').
  change (sections_text doc') with (map f (sections_text doc)).
  set (g := clean_one isdecimal doc' (common_headers doc') (common_footers doc')).
  assert (Hg : forall p, paginated doc p.1 = false -> g (f p) = f p).
  { intros p Hp. unfold g, f. by apply reclean_unpaginated. }
  split; [split|split].
  - rewrite map_map. by apply map_ext.
  - apply Forall2_map_self. intros x (p & <- & _)%in_map_iff. split; [done|].
    intros Hp. apply Hg. exact Hp.
  - intros Hall. rewrite map_map. apply map_ext_in. intros p Hin.
    apply Hg. rewrite Forall_forall in Hall. by apply Hall, list_elem_of_In.
  - intros Hdigits. apply Forall2_map_self.
    intros x (p & <- & _)%in_map_iff. split; [done|].
    intros [Hp|Hset]; [apply Hg; exact Hp|].
    destruct (paginated doc p.1) eqn:Hp; [|by apply Hg].
    rewrite (clean_text_filter isdecimal doc) in Hset.
    unfold g, f. apply reclean_settled; [exact Hdigits|exact Hp|exact Hset].
Qed.

End CleanerClaims.

(** * The claims at concrete inputs *)

Section Witnesses.
Import PyStr PyFloat Chunking ChunkingSpec Retrieval Generation AnswerSpec Parsing.

Lemma retrieve_fallback_witness :
  exists best,
    retrieve (sample_retriever sample_results) (lit "q") None None = Ok [best]
    /\ In best sample_results
    /\ Forall (fun ds => leb best.2 ds.2 = true) sample_results.
Proof.
  refine (proj2 (retrieve_fallback (sample_retriever sample_results) (lit "q")
                   None None _ sample_results _ eq_refl eq_refl _) _).
  - vm_compute. discriminate.
  - discriminate.
  - repeat constructor.
Defined.

Lemma chunk_text_filtered_windows_witness :
  _chunk_text default_config (sample_text 1200) =
    Ok [render (findall_nonspace (sample_text 1200)) (0, 500);
        render (findall_nonspace (sample_text 1200)) (400, 900);
        render (findall_nonspace (sample_text 1200)) (800, 1200)].
Proof.
  refine (proj2 (proj2 (chunk_text_filtered_windows default_config
                          (sample_text 1200) _ _)) eq_refl eq_refl _).
  - vm_compute. discriminate.
  - vm_compute. discriminate.
  - vm_compute. reflexivity.
Defined.

Lemma chunk_text_law_witness :
  chunking_law_holds (with_chunking 3 1) (lit "a b c d e f g").
Proof.
  apply chunk_text_law.
  - vm_compute. split; [discriminate|reflexivity].
  - vm_compute. reflexivity.
Defined.

Lemma generate_refusals_witness :
  generate (sample_generator 10) (lit "what?") sample_pairs
  = (Ok (refusal_text, []), model_name (sample_generator 10)).
Proof.
  refine (proj1 (generate_refusals (sample_generator 10) (lit "what?") sample_pairs
                   Refused_ContextOverflow _)).
  split; [discriminate|]. split; [vm_compute; discriminate|vm_compute; reflexivity].
Defined.

Lemma build_context_budget_witness :
  packs_best_first (sample_generator 120) sample_pairs.
Proof. apply build_context_budget. vm_compute. discriminate. Defined.

(** With a budget of 120 tokens and segments of 58, 82 and 58 tokens, the
    second pair stops the packing, and the third one, which would fit, is
    left out. *)
Example no_backfill :
  map (fun ds => _count_tokens (sample_generator 120)
                   (segment_of (sample_generator 120) ds)) sample_pairs
    = [58; 82; 58]
  /\ (_build_context (sample_generator 120) sample_pairs).2
     = map citation_of (take 1 sample_pairs).
Proof. by vm_compute. Qed.

Lemma parse_file_sections_witness :
  parse_file empty_world (lit "deck.pptx") (lit ".pptx") default_config
    = Ok (ExtractionSpec.empty_document empty_world (lit "deck.pptx"))
  /\ parse_file empty_world (lit "notes.txt") (lit ".txt") default_config
     = Ok (single_section empty_world (lit "notes.txt") [])
  /\ ExtractionSpec.success_sections empty_world (lit "notes.txt") (lit ".txt")
       (single_section empty_world (lit "notes.txt") [])
  /\ ExtractionSpec.handler_failure empty_world (lit "e.json") default_config
       (ValueError (lit "Expecting value"))
  /\ parse_file empty_world (lit "blob.bin") (lit ".bin") default_config
     = Raise (ValueError (lit "File cannot be meaningfully interpreted")).
Proof.
  split; [|split; [|split; [|split]]].
  - exact (proj1 (proj1 (proj2 (parse_file_sections empty_world (lit "deck.pptx")
                                  (lit ".pptx") default_config)))
             eq_refl eq_refl).
  - refine (proj1 (proj2 (proj2 (parse_file_sections empty_world (lit "notes.txt")
                                   (lit ".txt") default_config)))
              _ [] eq_refl).
    apply (bool_decide_unpack _). vm_compute. exact I.
  - exact (proj1 (parse_file_sections empty_world (lit "notes.txt") (lit ".txt")
                    default_config) _ eq_refl).
  - refine (proj1 (proj2 (proj2 (proj2
              (parse_file_sections empty_world (lit "e.json") (lit ".json")
                 default_config)))) _ _ eq_refl).
    apply (bool_decide_unpack _). vm_compute. exact I.
  - refine (proj2 (proj2 (proj2 (proj2
              (parse_file_sections empty_world (lit "blob.bin") (lit ".bin")
                 default_config)))) _ _ (lit "key") [] eq_refl _ eq_refl _).
    + intros Hin. apply (bool_decide_pack _) in Hin. vm_compute in Hin. exact Hin.
    + intros Hin. apply (bool_decide_pack _) in Hin. vm_compute in Hin. exact Hin.
    + discriminate.
    + intros prompt. exists []. split; reflexivity.
Defined.

Lemma clean_text_first_last_rule_witness :
  CleaningSpec.absent_from_cleaned Cleaning.ascii_digit
    (CleaningSpec.pdf_of CleaningSpec.headed_pages) CleaningSpec.confidential.
Proof.
  refine (proj2 (proj2 (proj2 (proj2
            (clean_text_first_last_rule Cleaning.ascii_digit
               (CleaningSpec.pdf_of CleaningSpec.headed_pages))))) _ eq_refl).
  split; [reflexivity|]. repeat constructor.
Defined.

Lemma clean_text_idempotent_off_pages_witness :
  CleaningSpec.idempotent_where_settled Cleaning.ascii_digit
    (CleaningSpec.pdf_of CleaningSpec.headed_pages).
Proof.
  refine (proj2 (proj2 (clean_text_idempotent_off_pages Cleaning.ascii_digit
                          (CleaningSpec.pdf_of CleaningSpec.headed_pages))) _).
  intros c [E|E]%orb_prop; apply N.eqb_eq in E; subst c; reflexivity.
Defined.

(** The three pages headed "CONFIDENTIAL" are cleaned into their middle
    lines, and cleaning these again changes nothing. *)
Example headed_pages_cleaned :
  Cleaning.clean_text Cleaning.ascii_digit (CleaningSpec.pdf_of CleaningSpec.headed_pages)
    = [(lit "page-1", lit "Alpha report"); (lit "page-2", lit "Beta");
       (lit "page-3", lit "Gamma")]
  /\ CleaningSpec.idempotent_on Cleaning.ascii_digit
       (CleaningSpec.pdf_of CleaningSpec.headed_pages).
Proof. by vm_compute. Qed.

(** The pages that begin with an empty line keep "CONFIDENTIAL": the value
    counted as their header is the empty string. *)
Example blank_led_pages_cleaned :
  Cleaning.clean_text Cleaning.ascii_digit
    (CleaningSpec.pdf_of CleaningSpec.blank_led_pages)
    = [(lit "page-1", lit "CONFIDENTIAL" ++ [10%N] ++ lit "Alpha report");
       (lit "page-2", lit "CONFIDENTIAL" ++ [10%N] ++ lit "Beta");
       (lit "page-3", lit "CONFIDENTIAL" ++ [10%N] ++ lit "Gamma")].
Proof. by vm_compute. Qed.

(** The two passes over the pages with two common lines at their top. *)
Example layered_pages_cleaned :
  Cleaning.clean_text Cleaning.ascii_digit
    (CleaningSpec.pdf_of CleaningSpec.layered_pages)
    = [(lit "page-1", lit "Report" ++ [10%N] ++ lit "one");
       (lit "page-2", lit "Report" ++ [10%N] ++ lit "two")]
  /\ Cleaning.clean_text Cleaning.ascii_digit
       (Cleaning.rewrap (CleaningSpec.pdf_of CleaningSpec.layered_pages)
          (Cleaning.clean_text Cleaning.ascii_digit
             (CleaningSpec.pdf_of CleaningSpec.layered_pages)))
     = [(lit "page-1", lit "one"); (lit "page-2", lit "two")].
Proof. by vm_compute. Qed.

Example chunk_text_small :
  _chunk_text (with_chunking 3 1) (lit "a b  c d e f g")
    = Ok [lit "a b c"; lit "c d e"; lit "e f g"]
  /\ _chunk_text (with_chunking 3 1) (lit "a b [CLS] [SEP]") = Ok [lit "a b [CLS]"]
  /\ _chunk_text default_config (lit "[CLS]") = Ok [].
Proof. by vm_compute. Qed.

Example chunk_pages_small :
  (docs ← chunk_pages (with_chunking 3 1)
            [(lit "page-1", lit "a b c d"); (lit "page-2", lit "e f")]
            (lit "f.pdf") (lit "deterministic");
   Ok (map (fun d => (chunk_id_of d, page_content d)) docs))
  = Ok [(lit "chunk-00001", lit "a b c"); (lit "chunk-00002", lit "c d");
        (lit "chunk-00003", lit "e f")].
Proof. by vm_compute. Qed.

Example chunk_id_widths :
  chunk_id_at 99999 = lit "chunk-99999" /\ chunk_id_at 100000 = lit "chunk-100000"
  /\ str_ltb (chunk_id_at 99999) (chunk_id_at 100000) = false.
Proof. by vm_compute. Qed.

(** An answer carries the citation suffix of the packed chunks. *)
Example generate_answered :
  (generate (sample_generator 120) (lit "what?") sample_pairs).1
  = Ok (lit "ok [chunk-00001 (page-1)]", map citation_of (take 1 sample_pairs)).
Proof. by vm_compute. Qed.

(** A result within the threshold is returned alone, without fallback. *)
Example retrieve_within_threshold :
  retrieve
    (sample_retriever
       ((sample_doc (lit "gamma") (lit "chunk-00003") (lit "page-3"), Finite (7 # 10))
        :: sample_results))
    (lit "q") None None
  = Ok [(sample_doc (lit "gamma") (lit "chunk-00003") (lit "page-3"), Finite (7 # 10))].
Proof. by vm_compute. Qed.

Example parse_empty_deck :
  (doc ← parse_file empty_world (lit "deck.pptx") (lit ".pptx") default_config;
   Ok (sections_text doc, page_count doc))
  = Ok ([], 0).
Proof. by vm_compute. Qed.

End Witnesses.

(** * Validated configurations, continued *)

Section ConfigFacts.
Import PyFloat ConfigSpec.

Lemma leb_zero_false (d : float) :
  leb d (Finite 0) = false <-> ltb (Finite 0) d = true \/ d = NaN.
Proof.
  destruct d as [q| | |]; cbn; split; try done; try tauto;
    try (intros [H|H]; done).
  - intros H. left. by rewrite H.
  - intros [H|H]; [|done]. by apply negb_true_iff in H.
Qed.

(** A configuration that passes [validate] lies in its ranges. *)
Lemma validate_ok_ranges (cfg : RAGConfig) :
  validate cfg = Ok tt -> in_ranges cfg.
Proof.
  unfold validate. intros H.
  repeat match type of H with
         | (if ?b then _ else _) = _ => destruct b eqn:?; [discriminate H|]
         end.
  repeat match goal with
         | E : negb _ = false |- _ => apply negb_false_iff in E
         | E : _ && _ = true |- _ => apply andb_prop in E as [? ?]
         | E : _ || _ = false |- _ => apply orb_false_elim in E as [? ?]
         | E : leb _ _ = false |- _ => apply leb_zero_false in E
         end.
  unfold in_ranges. repeat split; try lia; done.
Qed.

(** X1: [validate] accepts a configuration exactly when the chunk size is
    in [400, 600], the overlap in [80, 100], [top_k], the page limit, the
    three token limits and the file size limit are at least 1, and the
    distance threshold is greater than 0 or is not a number (a NaN
    threshold passes the test [max_distance <= 0]); every rejection is a
    [ValueError]. *)
Theorem validate_accepts_iff (cfg : RAGConfig) :
  (validate cfg = Ok tt <-> in_ranges cfg)
  /\ (forall e, validate cfg = Raise e -> exists msg, e = ValueError msg).
Proof.
  split; [split; [apply validate_ok_ranges|]|].
  - intros (H1 & H2 & H3 & H4 & H5 & H6 & H7 & H8 & H9). unfold validate.
    apply leb_zero_false in H4. rewrite H4.
    repeat match goal with
           | |- context [?a <=? ?b] => destruct (Z.leb_spec a b); [|lia]
           | |- context [?a <? ?b] => destruct (Z.ltb_spec a b); [lia|]
           end.
    done.
  - intros e. unfold validate.
    repeat match goal with
           | |- (if ?b then _ else _) = _ -> _ => destruct b
           end; intros [= <-]; eauto.
Qed.

End ConfigFacts.

(** * The chunks of a section *)

Section WindowFacts.
Import PyStr Chunking ChunkingSpec ChunksSpec.

Lemma windows_from_bounds (n size step : Z) (fuel : nat) :
  1 <= step <= size ->
  forall start, 0 <= start < n ->
  Forall (fun w : Z * Z => start <= w.1 /\ w.1 < w.2 <= n /\ w.2 - w.1 <= size)
    (windows_from fuel n size step start).
Proof.
  intros Hstep. induction fuel as [|fuel IH]; intros start Hs; [constructor|].
  cbn [windows_from]. cbv zeta. constructor; [cbn [fst snd]; lia|].
  destruct (Z.eqb_spec (Z.min (start + size) n) n) as [He|He]; [constructor|].
  eapply Forall_impl; [apply (IH (start + step)); lia|].
  intros w Hw. cbn beta in Hw. lia.
Qed.

Lemma windows_from_long (n size overlap : Z) (fuel : nat) :
  0 <= overlap < size ->
  forall start, overlap < n - start ->
  Forall (fun w : Z * Z => Z.min size (overlap + 1) <= w.2 - w.1)
    (windows_from fuel n size (size - overlap) start).
Proof.
  intros Hov. induction fuel as [|fuel IH]; intros start Hs; [constructor|].
  cbn [windows_from]. cbv zeta. constructor; [cbn [fst snd]; lia|].
  destruct (Z.eqb_spec (Z.min (start + size) n) n) as [He|He]; [constructor|].
  apply IH. lia.
Qed.

Lemma windows_short (n size step : Z) :
  1 <= n <= size -> windows n size step = [(0, n)].
Proof.
  intros Hn. unfold windows. destruct (Z.to_nat n) as [|fuel] eqn:E; [lia|].
  cbn [windows_from]. rewrite Z.min_r by lia. by rewrite Z.eqb_refl.
Qed.

Lemma render_all (words : list (list N)) :
  render words (0, len words) = join (lit " ") words.
Proof.
  unfold render. cbn [fst snd]. rewrite slice_to_end by lia. by rewrite drop_0.
Qed.

Lemma len_pos {A} (l : list A) : l <> [] -> 1 <= len l.
Proof. unfold len. destruct l; [done|]. cbn [length]. lia. Qed.

Lemma len_nonneg {A} (l : list A) : 0 <= len l.
Proof. unfold len. lia. Qed.

(** X2: under a configuration that passes [validate], the clamps of
    [_chunk_text] change nothing (the size, the overlap and the step
    [size - overlap] are used as configured), and for every text whose
    words, joined by single spaces, are not one of the placeholders, no
    window is discarded: the chunks are the plain windows, and the
    windowing law (at most [size] words per chunk, consecutive chunks
    sharing exactly [overlap] words, the chunks giving back the words)
    holds. *)
Theorem validated_chunking_plain (cfg : RAGConfig) (text : list N) :
  validate cfg = Ok tt ->
  is_placeholder (join (lit " ") (findall_nonspace text)) = false ->
  window_size cfg = chunk_size_tokens cfg
  /\ window_overlap cfg = chunk_overlap_tokens cfg
  /\ window_step cfg = chunk_size_tokens cfg - chunk_overlap_tokens cfg
  /\ plain_windowing cfg text
  /\ chunking_law_holds cfg text.
Proof.
  intros Hv Hp. apply validate_ok_ranges in Hv as (Hsize & Hov & _).
  assert (Es : window_size cfg = chunk_size_tokens cfg)
    by (unfold window_size; lia).
  assert (Eo : window_overlap cfg = chunk_overlap_tokens cfg)
    by (unfold window_overlap; lia).
  assert (Et : window_step cfg = chunk_size_tokens cfg - chunk_overlap_tokens cfg)
    by (unfold window_step; lia).
  assert (Ep : spec_step (chunk_size_tokens cfg) (chunk_overlap_tokens cfg)
               = chunk_size_tokens cfg - chunk_overlap_tokens cfg)
    by (unfold spec_step; lia).
  split; [done|]. split; [done|]. split; [done|].
  set (words := findall_nonspace text) in *.
  set (size := chunk_size_tokens cfg) in *.
  set (overlap := chunk_overlap_tokens cfg) in *.
  assert (Hplain : _chunk_text cfg text =
                   Ok (map (render words) (windows (len words) size (size - overlap)))).
  { rewrite chunk_text_refines, Es, Et. fold words. f_equal.
    apply filter_all_true. rewrite forallb_map. apply forallb_forall.
    intros w Hw. apply negb_true_iff.
    destruct (decide (words = [])) as [Hnil|Hne].
    { rewrite Hnil in Hw. by cbn in Hw. }
    pose proof (len_pos words Hne) as Hn.
    destruct (Z_le_gt_dec (len words) size) as [Hshort|Hlong].
    - rewrite windows_short in Hw by lia. destruct Hw as [<-|[]].
      by rewrite render_all.
    - unfold windows in Hw.
      pose proof (windows_from_bounds (len words) size (size - overlap)
                    (Z.to_nat (len words)) ltac:(lia) 0 ltac:(lia)) as Hb.
      pose proof (windows_from_long (len words) size overlap
                    (Z.to_nat (len words)) ltac:(lia) 0 ltac:(lia)) as Hl.
      rewrite List.Forall_forall in Hb, Hl.
      specialize (Hb w Hw). specialize (Hl w Hw). destruct w as [s e].
      cbn [fst snd] in *.
      apply render_not_placeholder; [apply findall_nonspace_ok|lia..]. }
  split.
  - unfold plain_windowing. fold words size overlap. by rewrite Ep.
  - exists (map (render words) (windows (len words) size (size - overlap))).
    split; [done|]. fold words size overlap.
    unfold chunking_law. rewrite map_map.
    rewrite (map_ext_Forall _ (fun w : Z * Z => slice words w.1 w.2)).
    2:{ apply Forall_forall. intros w _. apply findall_nonspace_join.
        apply Forall_slice, findall_nonspace_ok. }
    destruct (decide (words = [])) as [Hw|Hw].
    + rewrite Hw. cbn. done.
    + pose proof (len_pos words Hw).
      destruct (windows_from_law words size overlap ltac:(lia)
                  (Z.to_nat (len words)) 0 ltac:(lia) ltac:(lia)) as (L1 & L2 & L3).
      by rewrite drop_0 in L3.
Qed.

(** X3: for every configuration and text, each chunk [_chunk_text] returns
    is a run of 1 to [size] consecutive words of the text joined by single
    spaces; splitting it at whitespace gives these words back; it begins
    and ends with a code point that is not whitespace; and it is none of
    the placeholders. *)
Theorem chunk_text_chunks (cfg : RAGConfig) (text : list N) (chunks : list (list N)) :
  _chunk_text cfg text = Ok chunks ->
  Forall (window_chunk cfg (findall_nonspace text)) chunks.
Proof.
  intros H. set (words := findall_nonspace text).
  rewrite chunk_text_refines in H. injection H as <-. fold words.
  destruct (window_params cfg) as (Hsize & Hov & Hstep).
  apply List.Forall_forall. intros c [Hin Hnp]%filter_In.
  apply in_map_iff in Hin as ([s e] & <- & Hw).
  destruct (decide (words = [])) as [Hnil|Hne].
  { rewrite Hnil in Hw. by cbn in Hw. }
  pose proof (len_pos words Hne) as Hn.
  pose proof (windows_from_bounds (len words) (window_size cfg) (window_step cfg)
                (Z.to_nat (len words)) ltac:(lia) 0 ltac:(lia)) as Hb.
  rewrite List.Forall_forall in Hb. specialize (Hb _ Hw). cbn [fst snd] in Hb.
  assert (Hok : Forall word_ok (slice words s e))
    by apply Forall_slice, findall_nonspace_ok.
  exists s, e. split; [lia|]. split; [lia|]. split; [lia|]. split; [done|].
  split; [by apply findall_nonspace_join|]. split.
  - change (render words (s, e)) with (join (lit " ") (slice words s e)).
    rewrite <- (strip_join (slice words s e) Hok). apply strip_trimmed.
    rewrite (strip_join _ Hok). apply (render_nonempty words (findall_nonspace_ok text) s e); lia.
  - by apply negb_true_iff in Hnp.
Qed.

(** X4: a text of at most [size] words gives at most one chunk: none when
    it has no word or when its words joined by single spaces are a
    placeholder, and otherwise the words joined by single spaces (runs of
    whitespace, line breaks included, are replaced by one space). *)
Theorem chunk_text_short (cfg : RAGConfig) (text : list N) :
  let words := findall_nonspace text in
  len words <= window_size cfg ->
  _chunk_text cfg text =
    Ok (if bool_decide (words = []) || is_placeholder (join (lit " ") words)
        then [] else [join (lit " ") words]).
Proof.
  intros words Hshort. rewrite chunk_text_refines. fold words.
  case_bool_decide as Hw.
  - by rewrite Hw.
  - pose proof (len_pos words Hw). rewrite windows_short by lia.
    cbn [map List.filter orb]. rewrite render_all. by destruct (is_placeholder _).
Qed.

End WindowFacts.

(** * The chunks of a document *)

Section ChunkPagesFacts.
Import PyStr Chunking ChunkingSpec ChunksSpec.

Lemma codes_uint_codes (d : Decimal.uint) : codes_uint (uint_codes d) = d.
Proof. induction d as [|d IH|d IH|d IH|d IH|d IH|d IH|d IH|d IH|d IH|d IH]; cbn; by rewrite ?IH. Qed.

Lemma codes_uint_zeros (k : nat) (s : list N) :
  N.of_uint (codes_uint (repeat 48%N k ++ s)) = N.of_uint (codes_uint s).
Proof. induction k as [|k IH]; [done|]. cbn [repeat app]. exact IH. Qed.

Lemma ordinal_of_id (n : Z) : 0 <= n -> ordinal_of (chunk_id_at n) = Z.to_N n.
Proof.
  intros Hn. unfold ordinal_of, chunk_id_at. rewrite drop_app_length.
  unfold format_05d. destruct (Z.ltb_spec n 0); [lia|]. cbn [app].
  rewrite codes_uint_zeros, codes_uint_codes, DecimalN.Unsigned.of_to. lia.
Qed.

Lemma chunk_id_at_inj (a b : Z) :
  0 <= a -> 0 <= b -> chunk_id_at a = chunk_id_at b -> a = b.
Proof.
  intros Ha Hb E. apply (f_equal ordinal_of) in E.
  rewrite !ordinal_of_id in E by done. lia.
Qed.

Lemma progression_NoDup (c : Z) (m : nat) : NoDup (progression c 1 m).
Proof.
  revert c. induction m as [|m IH]; intros c; [constructor|].
  rewrite progression_S. constructor; [|apply IH].
  intros Hin%list_elem_of_In.
  pose proof (progression_bounds (c + 1) 1 m ltac:(lia)) as Hb.
  rewrite List.Forall_forall in Hb. specialize (Hb _ Hin). cbn beta in Hb. lia.
Qed.

Lemma chunk_ids_NoDup (l : list Z) :
  Forall (fun k => 0 <= k) l -> NoDup l -> NoDup (map chunk_id_at l).
Proof.
  induction 1 as [|k l Hk Hl IH]; intros Hnd; [constructor|].
  apply NoDup_cons in Hnd as [Hnotin Hnd]. cbn [map]. constructor; [|by apply IH].
  intros Hin%list_elem_of_In. apply in_map_iff in Hin as (j & E & Hj).
  rewrite List.Forall_forall in Hl. apply chunk_id_at_inj in E; [|by apply Hl|done].
  subst j. by apply Hnotin, list_elem_of_In.
Qed.

Lemma chunk_id_of_at (id sec src pm : list N) (pc : list N) :
  chunk_id_of {| page_content := pc; metadata := chunk_meta id sec src pm |} = id.
Proof. unfold chunk_id_of. cbn [metadata]. by rewrite chunk_meta_id. Qed.

(** X5: for a document of any size, the number written in the id of the
    i-th chunk [chunk_pages] returns, read back as a decimal, is i; so the
    chunk ids are pairwise distinct, also beyond 99999 chunks, where their
    width grows. *)
Theorem chunk_ids_distinct (cfg : RAGConfig) (cleaned_pages : list (list N * list N))
    (source_file parsing_method : list N) (docs : list Document) :
  chunk_pages cfg cleaned_pages source_file parsing_method = Ok docs ->
  map (fun d => Z.of_N (ordinal_of (chunk_id_of d))) docs
    = progression 1 1 (length docs)
  /\ NoDup (map chunk_id_of docs).
Proof.
  rewrite chunk_pages_numbers. intros [= <-]. rewrite length_number_from.
  set (m := length (all_chunks cfg cleaned_pages)).
  pose proof (progression_bounds 1 1 m ltac:(lia)) as Hb.
  split.
  - rewrite <- (map_map chunk_id_of (fun id => Z.of_N (ordinal_of id))).
    rewrite number_from_ids, map_map. fold m. change (0 + 1) with 1.
    apply map_id_In. intros k Hk.
    rewrite List.Forall_forall in Hb. specialize (Hb k Hk). cbn beta in Hb.
    rewrite ordinal_of_id; lia.
  - rewrite number_from_ids. fold m. change (0 + 1) with 1.
    apply chunk_ids_NoDup; [|apply progression_NoDup].
    eapply Forall_impl; [exact Hb|]. intros k Hk. cbn beta in Hk. lia.
Qed.

Lemma chunk_meta_source (id sec src pm : list N) :
  chunk_meta id sec src pm !! lit "source_file" = Some src.
Proof.
  unfold chunk_meta. rewrite !lookup_insert_ne by done. apply lookup_insert_eq.
Qed.

Lemma chunk_meta_method (id sec src pm : list N) :
  chunk_meta id sec src pm !! lit "parsing_method" = Some pm.
Proof. unfold chunk_meta. apply lookup_insert_eq. Qed.

Lemma chunk_meta_dom (id sec src pm : list N) :
  dom (chunk_meta id sec src pm) = meta_keys.
Proof.
  unfold chunk_meta, meta_keys. rewrite !dom_insert_L, dom_empty_L.
  apply set_eq. intros k. rewrite !elem_of_union, !elem_of_singleton, elem_of_empty.
  tauto.
Qed.

Lemma in_all_chunks (cfg : RAGConfig) (pages : list (list N * list N))
    (sec pc : list N) :
  In (sec, pc) (all_chunks cfg pages)
  <-> exists text, In (sec, text) pages /\ In pc (chunks_of cfg text).
Proof.
  unfold all_chunks. rewrite in_flat_map. split.
  - intros ([sec' text] & Hp & Hin). apply in_map_iff in Hin as (pc' & [= <- <-] & Hpc).
    eauto.
  - intros (text & Hp & Hpc). exists (sec, text). split; [done|].
    apply in_map_iff. eauto.
Qed.

Lemma number_from_Forall (src pm : list N) (P : Document -> Prop)
    (items : list (list N * list N)) :
  forall c,
  (forall k sec pc, c < k <= c + len items -> In (sec, pc) items ->
     P {| page_content := pc; metadata := chunk_meta (chunk_id_at k) sec src pm |}) ->
  Forall P (number_from src pm c items).
Proof.
  induction items as [|[sec pc] items IH]; intros c HP; [constructor|].
  cbn [number_from]. unfold len in HP. cbn [length] in HP. constructor.
  - apply HP; [lia|by left].
  - apply IH. intros k sec' pc' Hk Hin. apply HP; [unfold len in Hk; lia|by right].
Qed.

(** The metadata of the numbered chunks of a document. *)
Lemma numbered_chunks_meta (cfg : RAGConfig) (pages : list (list N * list N))
    (src pm : list N) :
  Forall (tagged_chunk cfg pages src pm (len (all_chunks cfg pages)))
    (number_from src pm 0 (all_chunks cfg pages)).
Proof.
  apply number_from_Forall. intros k sec pc Hk Hin. unfold tagged_chunk.
  cbn [metadata page_content].
  split; [apply chunk_meta_dom|]. split; [apply chunk_meta_source|].
  split; [apply chunk_meta_method|]. split.
  - exists k. split; [lia|apply chunk_meta_id].
  - apply in_all_chunks in Hin as (text & Hp & Hpc). exists sec, text.
    split; [done|]. split; [apply chunk_meta_section|].
    split; [apply chunk_text_ok|done].
Qed.

(** X6: every document [chunk_pages] returns has exactly the metadata keys
    [chunk_id], [section_or_page], [source_file] and [parsing_method]; the
    last two are the arguments of the call; the chunk id is that of an
    ordinal between 1 and the number of chunks; and the section is a
    section of the cleaned pages whose text has the page content among its
    chunks. *)
Theorem chunk_pages_provenance (cfg : RAGConfig)
    (cleaned_pages : list (list N * list N)) (source_file parsing_method : list N)
    (docs : list Document) :
  chunk_pages cfg cleaned_pages source_file parsing_method = Ok docs ->
  Forall (tagged_chunk cfg cleaned_pages source_file parsing_method (len docs)) docs.
Proof.
  rewrite chunk_pages_numbers. intros [= <-].
  unfold len. rewrite length_number_from. apply numbered_chunks_meta.
Qed.

Lemma all_chunks_app (cfg : RAGConfig) (a b : list (list N * list N)) :
  all_chunks cfg (a ++ b) = all_chunks cfg a ++ all_chunks cfg b.
Proof. unfold all_chunks. apply flat_map_app. Qed.

Lemma chunks_of_wordless (cfg : RAGConfig) (p : list N * list N) :
  wordless p = true -> chunks_of cfg p.2 = [].
Proof.
  unfold wordless, chunks_of, _chunk_text. intros H%bool_decide_eq_true.
  by rewrite H.
Qed.

Lemma all_chunks_wordless (cfg : RAGConfig) (pages : list (list N * list N)) :
  all_chunks cfg (List.filter (fun p => negb (wordless p)) pages)
  = all_chunks cfg pages.
Proof.
  induction pages as [|p pages IH]; [done|]. cbn [List.filter].
  change (all_chunks cfg (p :: pages))
    with (map (fun pc => (p.1, pc)) (chunks_of cfg p.2) ++ all_chunks cfg pages).
  destruct (wordless p) eqn:Hw; cbn [negb].
  - by rewrite (chunks_of_wordless cfg p Hw), IH.
  - change (all_chunks cfg (p :: ?l))
      with (map (fun pc => (p.1, pc)) (chunks_of cfg p.2) ++ all_chunks cfg l).
    by rewrite IH.
Qed.

(** X7: sections whose text has no word give no chunk and use no ordinal:
    [chunk_pages] returns the same documents, ids included, with or
    without them; and when no section has a word it returns the empty
    list. *)
Theorem chunk_pages_skips_wordless (cfg : RAGConfig)
    (cleaned_pages : list (list N * list N)) (source_file parsing_method : list N) :
  chunk_pages cfg (List.filter (fun p => negb (wordless p)) cleaned_pages)
    source_file parsing_method
  = chunk_pages cfg cleaned_pages source_file parsing_method
  /\ (forallb wordless cleaned_pages = true ->
      chunk_pages cfg cleaned_pages source_file parsing_method = Ok []).
Proof.
  rewrite !chunk_pages_numbers, all_chunks_wordless. split; [done|].
  intros Hall. rewrite <- all_chunks_wordless.
  replace (List.filter (fun p => negb (wordless p)) cleaned_pages)
    with (@nil (list N * list N)); [done|].
  symmetry. induction cleaned_pages as [|p pages IH]; [done|].
  cbn [forallb List.filter] in *. apply andb_prop in Hall as [Hp Hall].
  rewrite Hp. cbn [negb]. by apply IH.
Qed.

(** X8: the chunks of the first sections do not depend on the sections
    after them: chunking [pages ++ more] gives the documents of [pages],
    with the same ids, followed by the chunks of [more], numbered on from
    the number of chunks of [pages]. *)
Theorem chunk_pages_append (cfg : RAGConfig)
    (pages more : list (list N * list N)) (source_file parsing_method : list N) :
  exists docs rest,
    chunk_pages cfg pages source_file parsing_method = Ok docs
    /\ chunk_pages cfg (pages ++ more) source_file parsing_method = Ok (docs ++ rest)
    /\ map chunk_id_of rest
       = map chunk_id_at (progression (len docs + 1) 1 (length rest))
    /\ map (fun d => (default [] (metadata d !! lit "section_or_page"),
                      page_content d)) rest
       = all_chunks cfg more.
Proof.
  rewrite !chunk_pages_numbers, all_chunks_app, number_from_app.
  eexists _, _. split; [done|]. split; [done|].
  rewrite number_from_ids, number_from_payload, !length_number_from.
  unfold len. rewrite length_number_from. split; [|done].
  by rewrite Z.add_0_l.
Qed.

End ChunkPagesFacts.

(** * The order of distances *)

Section FloatOrder.
Import PyFloat.

Lemma leb_ltb_trans (a b c : float) :
  leb a b = true -> ltb b c = true -> ltb a c = true.
Proof.
  destruct a as [x| | |], b as [y| | |], c as [z| | |]; cbn; try done.
  rewrite Qle_bool_iff. intros Hxy Hyz%negb_true_iff. apply negb_true_iff.
  destruct (Qle_bool z x) eqn:E; [|done]. apply Qle_bool_iff in E.
  assert (Qle_bool z y = true) by (apply Qle_bool_iff; by eapply Qle_trans).
  congruence.
Qed.

Lemma ltb_leb_trans (a b c : float) :
  ltb a b = true -> leb b c = true -> ltb a c = true.
Proof.
  destruct a as [x| | |], b as [y| | |], c as [z| | |]; cbn; try done.
  rewrite Qle_bool_iff. intros Hxy%negb_true_iff Hyz. apply negb_true_iff.
  destruct (Qle_bool z x) eqn:E; [|done]. apply Qle_bool_iff in E.
  assert (Qle_bool y x = true) by (apply Qle_bool_iff; by eapply Qle_trans).
  congruence.
Qed.

Lemma leb_notnan (a b : float) : leb a b = true -> notnan a = true /\ notnan b = true.
Proof. by destruct a, b. Qed.

End FloatOrder.

(** * What the retriever returns *)

Section RetrieverMore.
Import PyStr PyFloat Retrieval RetrievalSpec.

Lemma min_loop_In (items : list (Document * float)) :
  forall best, In (min_loop best items) (best :: items).
Proof.
  induction items as [|item rest IH]; intros best; cbn [min_loop]; [by left|].
  destruct (ltb item.2 best.2).
  - right. apply IH.
  - destruct (IH best) as [E|Hin]; [by left|by right; right].
Qed.

(** [min] returns the first pair of least distance: those before it are
    farther, those after it are not nearer. *)
Lemma min_loop_first (items : list (Document * float)) :
  forall best,
  notnan best.2 = true -> Forall (fun x => notnan x.2 = true) items ->
  exists pre post,
    best :: items = pre ++ min_loop best items :: post
    /\ Forall (fun x => ltb (min_loop best items).2 x.2 = true) pre
    /\ Forall (fun x => leb (min_loop best items).2 x.2 = true) post.
Proof.
  induction items as [|item rest IH]; intros best Hb Hall; cbn [min_loop].
  - exists [], []. split; [done|]. split; constructor.
  - inversion Hall as [|? ? Hi Hrest]; subst.
    destruct (ltb item.2 best.2) eqn:Hlt.
    + destruct (IH item Hi Hrest) as (pre & post & E & Hpre & Hpost).
      exists (best :: pre), post. rewrite E. split; [done|]. split; [|done].
      constructor; [|done].
      destruct (min_loop_least rest item Hi Hrest) as (_ & Hle).
      cbv zeta in Hle. inversion Hle as [|? ? Hm _]; subst.
      by eapply leb_ltb_trans.
    + destruct (IH best Hb Hrest) as (pre & post & E & Hpre & Hpost).
      assert (Hbi : leb best.2 item.2 = true) by by apply not_ltb_leb.
      destruct pre as [|p pre].
      * cbn [app] in E. injection E as E1 E2. exists [], (item :: post).
        rewrite <- E1 in *. rewrite E2. split; [done|]. split; [done|].
        by constructor.
      * cbn [app] in E. injection E as E1 E2. subst p.
        exists (best :: item :: pre), post.
        split; [cbn [app]; by do 2 f_equal|].
        inversion Hpre as [|? ? Hmb Hpre']; subst. split; [|done].
        constructor; [done|]. constructor; [|done].
        by eapply ltb_leb_trans.
Qed.

Lemma in_sublist {A} (x : A) (l : list A) : In x l -> [x] `sublist_of` l.
Proof.
  induction l as [|y l IH]; [done|]. intros [->|Hin].
  - apply sublist_skip, sublist_nil_l.
  - by apply sublist_cons, IH.
Qed.

Lemma keep_within_sublist (threshold : float) (docs : list (Document * float)) :
  keep_within threshold docs `sublist_of` docs.
Proof.
  unfold keep_within. induction docs as [|d docs IH]; [done|]. cbn [List.filter].
  destruct (leb d.2 threshold); [by apply sublist_skip|by apply sublist_cons].
Qed.

Lemma keep_within_Forall (threshold : float) (docs : list (Document * float)) :
  Forall (fun ds => leb ds.2 threshold = true) (keep_within threshold docs).
Proof.
  apply List.Forall_forall. intros ds H. unfold keep_within in H.
  by apply filter_In in H as [_ ?].
Qed.

Lemma keep_within_nil (threshold : float) (docs : list (Document * float)) :
  keep_within threshold docs = [] <->
  Forall (fun ds => leb ds.2 threshold = false) docs.
Proof.
  unfold keep_within. induction docs as [|d docs IH]; [done|]. cbn [List.filter].
  destruct (leb d.2 threshold) eqn:E.
  - split; [done|]. intros H. inversion H; congruence.
  - rewrite IH. split; [by constructor|]. intros H. by inversion H.
Qed.

(** X9: [retrieve] succeeds exactly when the query is within the token
    limit, the store holds an index and the search returns at least one
    pair; a query over the limit is rejected with the [ValueError]
    "Query too long..." whatever the store, so before the assertion on a
    missing index; and (the tokenizer being total) every exception is this
    one, the [AssertionError] of the missing index, the [ValueError]
    "No relevant context found", or the exception of the search itself. *)
Theorem retrieve_outcomes (self : Retriever) (query : list N)
    (k : option Z) (thr : option float) :
  (is_ok (retrieve self query k thr) = true <->
     _count_tokens self query <= max_query_tokens (cfg self)
     /\ exists index d docs,
          store self = Some index
          /\ similarity_search_with_score index query (default (top_k (cfg self)) k)
             = Ok (d :: docs))
  /\ (max_query_tokens (cfg self) < _count_tokens self query ->
      retrieve self query k thr
      = Raise (ValueError (lit "Query too long. Please shorten your question.")))
  /\ (forall e, retrieve self query k thr = Raise e ->
        e = ValueError (lit "Query too long. Please shorten your question.")
        \/ e = AssertionError (lit "Vector store not initialized")
        \/ e = ValueError (lit "No relevant context found")
        \/ exists index,
             store self = Some index
             /\ similarity_search_with_score index query
                  (default (top_k (cfg self)) k) = Raise e).
Proof.
  unfold retrieve.
  destruct (Z.ltb_spec (max_query_tokens (cfg self)) (_count_tokens self query))
    as [Hlong|Hq].
  { split; [split; [done|lia]|]. split; [done|]. intros e [= <-]. by left. }
  split; [|split; [lia|]].
  - destruct (store self) as [index|]; [|split; [done|]; by intros (_ & ? & ? & ? & ? & _)].
    destruct (similarity_search_with_score index query _) as [[|d docs]|e] eqn:Hs;
      cbn [mbind result_bind].
    + split; [done|]. intros (_ & ? & ? & ? & [= <-] & E). congruence.
    + split; [intros _; split; [done|]; eauto|]. intros _.
      destruct (keep_within _ (d :: docs)); [|done]. done.
    + split; [done|]. intros (_ & ? & ? & ? & [= <-] & E). congruence.
  - intros e. destruct (store self) as [index|]; [|intros [= <-]; auto].
    destruct (similarity_search_with_score index query _) as [[|d docs]|e'] eqn:Hs;
      cbn [mbind result_bind].
    + intros [= <-]. auto.
    + destruct (keep_within _ (d :: docs)); [|done]. done.
    + intros [= <-]. right. right. right. eauto.
Qed.

(** X10: a successful [retrieve] returns a non-empty sublist of the search
    results, in their order: either all the pairs within the threshold,
    and only these, or, when no pair is within the threshold, one single
    pair. *)
Theorem retrieve_results_sound (self : Retriever) (query : list N)
    (k : option Z) (thr : option float) (res : list (Document * float)) :
  retrieve self query k thr = Ok res ->
  exists index docs,
    store self = Some index
    /\ similarity_search_with_score index query (default (top_k (cfg self)) k) = Ok docs
    /\ sound_result (default (max_distance (cfg self)) thr) docs res.
Proof.
  intros H. set (threshold := default (max_distance (cfg self)) thr).
  unfold retrieve in H. unfold sound_result.
  destruct (max_query_tokens (cfg self) <? _count_tokens self query); [done|].
  destruct (store self) as [index|]; [|done].
  destruct (similarity_search_with_score index query _) as [[|d docs]|e] eqn:Hs;
    [done| |done].
  cbn [mbind result_bind] in H. fold threshold in H.
  exists index, (d :: docs). split; [done|]. split; [done|].
  destruct (keep_within threshold (d :: docs)) as [|r rs] eqn:Hk.
  - cbn [py_min mbind result_bind] in H. injection H as <-.
    split; [done|]. split; [apply in_sublist, min_loop_In|].
    right. split; [by apply keep_within_nil|eauto].
  - injection H as <-. split; [done|]. rewrite <- Hk.
    split; [apply keep_within_sublist|]. left. split; [done|].
    apply keep_within_Forall.
Qed.

Lemma ascending_cons (a : Document * float) (l : list (Document * float)) :
  Forall (fun x => leb a.2 x.2 = true) l -> ascending l -> ascending (a :: l).
Proof. intros Ha Hl. destruct l as [|b l]; [done|]. by inversion Ha. Qed.

Lemma ascending_all (a : Document * float) (l : list (Document * float)) :
  ascending (a :: l) -> Forall (fun x => leb a.2 x.2 = true) l /\ ascending l.
Proof.
  revert a. induction l as [|b l IH]; intros a H; [by split|].
  destruct H as [Hab Hl]. split; [|done].
  constructor; [done|]. destruct (IH b Hl) as [Hb _].
  eapply Forall_impl; [exact Hb|]. intros x Hx. by eapply leb_trans.
Qed.

Lemma ascending_filter (f : Document * float -> bool) (l : list (Document * float)) :
  ascending l -> ascending (List.filter f l).
Proof.
  induction l as [|a l IH]; [done|]. intros [Ha Hl]%ascending_all.
  cbn [List.filter]. destruct (f a); [|by apply IH].
  apply ascending_cons; [|by apply IH].
  apply List.Forall_forall. intros x [Hx _]%filter_In.
  rewrite List.Forall_forall in Ha. by apply Ha.
Qed.

Lemma ascending_take (n : nat) (l : list (Document * float)) :
  ascending l -> ascending (take n l).
Proof.
  revert l. induction n as [|n IH]; intros [|a l] H; try done.
  apply ascending_all in H as [Ha Hl]. cbn [take].
  apply ascending_cons; [by apply Forall_take|by apply IH].
Qed.

Lemma keep_within_prefix (threshold : float) (docs : list (Document * float)) :
  ascending docs ->
  keep_within threshold docs = take (length (keep_within threshold docs)) docs.
Proof.
  unfold keep_within. induction docs as [|d docs IH]; [done|].
  intros [Hd Hdocs]%ascending_all. cbn [List.filter].
  destruct (leb d.2 threshold) eqn:E.
  - cbn [length take]. f_equal. by apply IH.
  - replace (List.filter _ docs) with (@nil (Document * float)); [done|].
    symmetry. apply (keep_within_nil threshold).
    eapply Forall_impl; [exact Hd|]. intros x Hx. cbn beta in Hx.
    destruct (leb x.2 threshold) eqn:Ex; [|done].
    rewrite (leb_trans _ _ _ Hx Ex) in E. done.
Qed.

Lemma min_loop_head (best : Document * float) (items : list (Document * float)) :
  Forall (fun x => leb best.2 x.2 = true) items -> min_loop best items = best.
Proof.
  induction 1 as [|item rest Hi _ IH]; [done|]. cbn [min_loop].
  destruct (ltb item.2 best.2) eqn:Hlt; [|done].
  apply ltb_not_leb in Hlt. congruence.
Qed.

(** X11: when the search returns its pairs in the order of their
    distances, [retrieve] returns a non-empty prefix of the search results,
    itself in this order: the nearest pair is always returned, and first. *)
Theorem retrieve_sorted_prefix (self : Retriever) (query : list N)
    (k : option Z) (thr : option float) (index : FAISS)
    (docs res : list (Document * float)) :
  store self = Some index ->
  similarity_search_with_score index query (default (top_k (cfg self)) k) = Ok docs ->
  ascending docs ->
  retrieve self query k thr = Ok res ->
  res <> [] /\ res = take (length res) docs /\ ascending res.
Proof.
  intros Hstore Hsearch Hasc. unfold retrieve.
  destruct (max_query_tokens (cfg self) <? _count_tokens self query); [done|].
  rewrite Hstore, Hsearch. cbn [mbind result_bind].
  destruct docs as [|d docs]; [done|].
  destruct (keep_within _ (d :: docs)) as [|r rs] eqn:Hk.
  - cbn [py_min mbind result_bind]. intros [= <-].
    apply ascending_all in Hasc as [Hd _]. rewrite (min_loop_head d docs Hd).
    cbn [length take]. by rewrite take_0.
  - intros [= <-]. split; [done|]. rewrite <- Hk.
    pose proof (keep_within_prefix (default (max_distance (cfg self)) thr)
                  (d :: docs) Hasc) as Hp.
    split; [exact Hp|]. rewrite Hp. by apply ascending_take.
Qed.

(** X12: the pair of the fallback is the first one of least distance: when
    no distance is within the threshold (none being NaN), the search
    results before the returned pair are strictly farther than it and
    those after it are not nearer. *)
Theorem retrieve_fallback_first_minimum (self : Retriever) (query : list N)
    (k : option Z) (thr : option float) (index : FAISS)
    (docs : list (Document * float)) :
  _count_tokens self query <= max_query_tokens (cfg self) ->
  store self = Some index ->
  similarity_search_with_score index query (default (top_k (cfg self)) k) = Ok docs ->
  docs <> [] ->
  Forall (fun ds => notnan ds.2 = true) docs ->
  Forall (fun ds => leb ds.2 (default (max_distance (cfg self)) thr) = false) docs ->
  exists best,
    retrieve self query k thr = Ok [best] /\ first_minimum docs best.
Proof.
  intros Hq Hstore Hsearch Hne Hnan Hfar. unfold retrieve.
  destruct (Z.ltb_spec (max_query_tokens (cfg self)) (_count_tokens self query)); [lia|].
  rewrite Hstore, Hsearch. cbn [mbind result_bind].
  destruct docs as [|d docs]; [done|].
  apply keep_within_nil in Hfar. rewrite Hfar. cbn [py_min mbind result_bind].
  inversion Hnan as [|? ? Hd Hrest]; subst.
  destruct (min_loop_first docs d Hd Hrest) as (pre & post & E & Hpre & Hpost).
  exists (min_loop d docs). split; [done|]. by exists pre, post.
Qed.

End RetrieverMore.

(** * Packing and answering *)

Section GeneratorMore.
Import PyStr PyFloat Generation AnswerSpec GenerationSpec.

Lemma segment_nonempty (self : GroqGenerator) (ds : Document * float) :
  segment_of self ds <> [].
Proof. done. Qed.

Lemma join_nonempty (sep p : list N) (ps : list (list N)) :
  p <> [] -> join sep (p :: ps) <> [].
Proof. destruct p as [|c p]; [done|]. intros _. by destruct ps. Qed.

Lemma packed_tokens_app (self : GroqGenerator) (a b : list (Document * float)) :
  packed_tokens self (a ++ b) = packed_tokens self a + packed_tokens self b.
Proof. induction a as [|ds a IH]; [done|]. cbn [app packed_tokens]. rewrite IH. lia. Qed.

Lemma packed_tokens_take_S (self : GroqGenerator) (docs : list (Document * float))
    (k : nat) (ds : Document * float) :
  docs !! k = Some ds ->
  packed_tokens self (take (S k) docs)
  = packed_tokens self (take k docs) + _count_tokens self (segment_of self ds).
Proof.
  intros H. rewrite (take_S_r _ _ _ H), packed_tokens_app. cbn [packed_tokens]. lia.
Qed.

(** What [_build_context] returns, by the number of pairs packed. *)
Lemma build_context_prefix (self : GroqGenerator) (docs : list (Document * float)) :
  exists k : nat,
    (k <= length docs)%nat
    /\ build_loop self docs ([], [], 0) =
         (map (segment_of self) (take k docs), map citation_of (take k docs),
          packed_tokens self (take k docs))
    /\ _build_context self docs =
         (join [10; 10]%N (map (segment_of self) (take k docs)),
          map citation_of (take k docs))
    /\ (forall j : nat, (1 <= j <= k)%nat ->
          packed_tokens self (take j docs) <= max_context_tokens (cfg self))
    /\ (forall ds, docs !! k = Some ds ->
          max_context_tokens (cfg self) <
            packed_tokens self (take k docs) + _count_tokens self (segment_of self ds)).
Proof.
  destruct (build_loop_prefix self docs [] [] 0) as (k & Hk & Hrun & Hfits & Hstop).
  cbn [app] in Hrun. rewrite Z.add_0_l in Hrun.
  exists k. split; [done|]. split; [done|]. split; [|split].
  - unfold _build_context. by rewrite Hrun.
  - intros j Hj. specialize (Hfits j Hj). lia.
  - intros ds Hds. specialize (Hstop ds Hds). lia.
Qed.

Lemma build_loop_all (self : GroqGenerator) (l : list (Document * float)) :
  forall parts citations total,
  (forall j : nat, (1 <= j <= length l)%nat ->
     total + packed_tokens self (take j l) <= max_context_tokens (cfg self)) ->
  build_loop self l (parts, citations, total)
  = (parts ++ map (segment_of self) l, citations ++ map citation_of l,
     total + packed_tokens self l).
Proof.
  induction l as [|ds rest IH]; intros parts citations total Hfits.
  - cbn. by rewrite !app_nil_r, Z.add_0_r.
  - cbn [build_loop].
    pose proof (Hfits 1%nat ltac:(cbn [length]; lia)) as H1.
    cbn [take packed_tokens] in H1. rewrite take_0 in H1. cbn [packed_tokens] in H1.
    destruct (Z.ltb_spec (max_context_tokens (cfg self))
                (total + _count_tokens self (segment_of self ds))); [lia|].
    rewrite IH.
    + cbn [map packed_tokens]. rewrite <- !app_assoc. cbn [app].
      by rewrite Z.add_assoc.
    + intros j Hj. specialize (Hfits (S j) ltac:(cbn [length]; lia)).
      cbn [take packed_tokens] in Hfits. lia.
Qed.

(** X13: for retrieved pairs that are not empty, the assembled context is
    empty exactly when the segment of the first pair alone exceeds the
    context budget, and exactly then there is no citation: no later pair is
    packed in its place, whatever its size. *)
Theorem build_context_empty_iff (self : GroqGenerator) (ds : Document * float)
    (rest : list (Document * float)) :
  ((_build_context self (ds :: rest)).1 = [] <->
     max_context_tokens (cfg self) < _count_tokens self (segment_of self ds))
  /\ ((_build_context self (ds :: rest)).2 = [] <->
        (_build_context self (ds :: rest)).1 = []).
Proof.
  unfold _build_context. cbn [build_loop]. rewrite Z.add_0_l.
  destruct (Z.ltb_spec (max_context_tokens (cfg self))
              (_count_tokens self (segment_of self ds))) as [Hover|Hfit].
  - cbn. split; [split; [done|done]|done].
  - destruct (build_loop_prefix self rest ([] ++ [segment_of self ds])
                ([] ++ [citation_of ds]) (_count_tokens self (segment_of self ds)))
      as (k & _ & -> & _). cbn [app fst snd].
    pose proof (join_nonempty [10; 10]%N (segment_of self ds)
                  (map (segment_of self) (take k rest)) (segment_nonempty self ds)).
    split; split; try done; lia.
Qed.

(** X14: the citations are those of the first pairs, as many as were
    packed, and assembling the context again from these packed pairs alone
    gives the same context and the same citations. *)
Theorem build_context_repack (self : GroqGenerator) (docs : list (Document * float)) :
  let packed := take (length (_build_context self docs).2) docs in
  _build_context self packed = _build_context self docs
  /\ (_build_context self docs).2 = map citation_of packed.
Proof.
  destruct (build_context_prefix self docs) as (k & Hk & Hrun & Hctx & Hfits & _).
  rewrite Hctx. cbn [snd]. rewrite length_map, length_take, Nat.min_l by done.
  cbv zeta. split; [|done].
  unfold _build_context at 1. rewrite build_loop_all.
  - by cbn [app].
  - intros j Hj. rewrite length_take, Nat.min_l in Hj by done.
    rewrite take_take, Nat.min_l, Z.add_0_l by lia. apply Hfits. lia.
Qed.

Lemma packed_tokens_budget (self : GroqGenerator) (b : Z)
    (docs : list (Document * float)) :
  packed_tokens (with_budget self b) docs = packed_tokens self docs.
Proof. induction docs as [|ds docs IH]; [done|]. cbn [packed_tokens]. by rewrite IH. Qed.

(** X15: a larger context budget never drops a citation: the citations
    under the budget [b1] are a prefix of those under a budget
    [b2 >= b1]. *)
Theorem build_context_budget_monotone (self : GroqGenerator) (b1 b2 : Z)
    (docs : list (Document * float)) :
  b1 <= b2 ->
  (_build_context (with_budget self b1) docs).2
    `prefix_of` (_build_context (with_budget self b2) docs).2.
Proof.
  intros Hb.
  destruct (build_context_prefix (with_budget self b1) docs)
    as (k1 & Hk1 & _ & -> & Hfits1 & _).
  destruct (build_context_prefix (with_budget self b2) docs)
    as (k2 & Hk2 & _ & -> & _ & Hstop2).
  cbn [snd]. cbn [with_budget cfg set_max_context_tokens max_context_tokens] in *.
  assert (Hle : (k1 <= k2)%nat).
  { destruct (Nat.le_gt_cases k1 k2) as [|Hlt]; [done|]. exfalso.
    destruct (lookup_lt_is_Some_2 docs k2 ltac:(lia)) as [ds Hds].
    specialize (Hstop2 ds Hds). specialize (Hfits1 (S k2) ltac:(lia)).
    rewrite (packed_tokens_take_S _ _ _ _ Hds) in Hfits1.
    rewrite !packed_tokens_budget in *.
    change (segment_of (with_budget self b1) ds) with (segment_of self ds) in Hfits1.
    change (segment_of (with_budget self b2) ds) with (segment_of self ds) in Hstop2.
    change (_count_tokens (with_budget self b1)) with (_count_tokens self) in Hfits1.
    change (_count_tokens (with_budget self b2)) with (_count_tokens self) in Hstop2.
    lia. }
  exists (map citation_of (drop k1 (take k2 docs))).
  rewrite <- map_app. f_equal.
  rewrite <- (take_drop k1 (take k2 docs)) at 1. f_equal.
  rewrite take_take. f_equal. lia.
Qed.

Lemma fallback_loop_ok (self : GroqGenerator) (messages : list (list N * list N))
    (e : exn) (candidates : list (list N)) :
  forall current content name,
  fallback_loop self messages e current candidates = (Ok content, name) ->
  In name candidates
  /\ invoke self name messages (max_output_tokens (cfg self)) = Ok content.
Proof.
  induction candidates as [|c rest IH]; intros current content name; cbn [fallback_loop];
    [done|].
  destruct (invoke self c messages _) as [content'|e'] eqn:Hc.
  - intros [= <- <-]. split; [by left|done].
  - intros H. destruct (IH _ _ _ H). split; [by right|done].
Qed.

Lemma last_default {A} (l : list A) (d d' : A) :
  l <> [] -> List.last l d = List.last l d'.
Proof.
  induction l as [|a l IH]; [done|]. intros _. destruct l as [|b l]; [done|].
  change (List.last (b :: l) d = List.last (b :: l) d'). by apply IH.
Qed.

Lemma fallback_loop_raise (self : GroqGenerator) (messages : list (list N * list N))
    (e : exn) (candidates : list (list N)) :
  forall current e' name,
  fallback_loop self messages e current candidates = (Raise e', name) ->
  e' = e
  /\ name = List.last candidates current
  /\ Forall (fun c => is_ok (invoke self c messages (max_output_tokens (cfg self)))
                      = false) candidates.
Proof.
  induction candidates as [|c rest IH]; intros current e' name; cbn [fallback_loop].
  - intros [= <- <-]. split; [done|]. split; [done|constructor].
  - destruct (invoke self c messages _) as [content'|e''] eqn:Hc; [done|].
    intros H. destruct (IH _ _ _ H) as (-> & -> & Hall).
    split; [done|]. split; [|constructor; [by rewrite Hc|done]].
    destruct rest as [|r rest]; [done|].
    change (List.last (c :: r :: rest) current) with (List.last (r :: rest) current).
    by apply last_default.
Qed.

Lemma fallback_loop_first (self : GroqGenerator) (messages : list (list N * list N))
    (e : exn) (pre post : list (list N)) (c content : list N) :
  Forall (fun c' => is_ok (invoke self c' messages (max_output_tokens (cfg self)))
                    = false) pre ->
  invoke self c messages (max_output_tokens (cfg self)) = Ok content ->
  forall current,
  fallback_loop self messages e current (pre ++ c :: post) = (Ok content, c).
Proof.
  intros Hpre Hc. induction Hpre as [|c' pre Hc' _ IH]; intros current;
    cbn [app fallback_loop].
  - by rewrite Hc.
  - destruct (invoke self c' messages _); [done|]. apply IH.
Qed.

Lemma context_citations (self : GroqGenerator) (docs : list (Document * float)) :
  (_build_context self docs).1 <> [] -> (_build_context self docs).2 <> [].
Proof.
  destruct (build_context_prefix self docs) as (k & _ & _ & -> & _).
  cbn [fst snd]. by destruct (take k docs).
Qed.

(** The citations of a result of [generate]. *)
Lemma generate_ok_citations (self : GroqGenerator) (question : list N)
    (docs : list (Document * float)) (text : list N) (citations : list Citation)
    (name : list N) :
  generate self question docs = (Ok (text, citations), name) ->
  citations = [] \/ citations = (_build_context self docs).2.
Proof.
  unfold generate. destruct docs as [|d docs]; [intros [= <- <- <-]; auto|].
  destruct (max_query_tokens (cfg self) <? _count_tokens self question);
    [intros [= <- <- <-]; auto|].
  destruct (_build_context self (d :: docs)) as [context cits]. cbn [fst snd].
  destruct context as [|c context]; [intros [= <- <- <-]; auto|].
  destruct (invoke self (model_name self) _ _) as [content|e].
  - intros [= <- <- <-]. auto.
  - destruct (_ || _); [|done].
    destruct (fallback_loop self _ e (model_name self) _) as [[content|e'] name'];
      [|done].
    intros [= <- <- <-]. auto.
Qed.

(** X16: a result of [generate] is either a refusal (one of the two fixed
    texts, no citation, the model unchanged) or an answer with at least one
    citation: the citations are those of the assembled context, the model
    kept is the configured one or one of the fallbacks, and the text is the
    stripped reply of that model followed by " [", the items
    "chunk_id (section)" joined by " ; ", and "]"; so the suffix " [none]"
    is never produced. *)
Theorem generate_result_shape (self : GroqGenerator) (question : list N)
    (docs : list (Document * float)) (text : list N) (citations : list Citation)
    (name : list N) :
  generate self question docs = (Ok (text, citations), name) ->
  result_shape self question docs text citations name.
Proof.
  unfold result_shape, generate, call.
  destruct docs as [|d docs]; [intros [= <- <- <-]; auto|].
  destruct (max_query_tokens (cfg self) <? _count_tokens self question);
    [intros [= <- <- <-]; auto|].
  pose proof (context_citations self (d :: docs)) as Hcit.
  destruct (_build_context self (d :: docs)) as [context cits]. cbn [fst snd] in *.
  destruct context as [|c context]; [intros [= <- <- <-]; auto|].
  specialize (Hcit ltac:(done)).
  assert (Hsuffix : citation_suffix cits
                    = lit " [" ++ join (lit " ; ") (map citation_item cits) ++ lit "]")
    by (by destruct cits).
  destruct (invoke self (model_name self) _ _) as [content|e] eqn:Hcall.
  - intros [= <- <- <-]. right. split; [done|]. split; [done|]. split; [by left|].
    exists content. split; [done|by rewrite Hsuffix].
  - destruct (_ || _).
    + destruct (fallback_loop self _ e (model_name self) _) as [[content|e'] name']
        eqn:Hfb; [|done].
      intros [= <- <- <-]. apply fallback_loop_ok in Hfb as [Hin Hok].
      right. split; [done|]. split; [done|]. split; [by right|].
      exists content. split; [done|by rewrite Hsuffix].
    + done.
Qed.

(** X17: the tokenizer and the prompt template being total, an exception
    of [generate] is always the exception of the call of the configured
    model, on the answering path: when its message does not
    report a decommissioned model no fallback is tried and the model is
    unchanged; otherwise every fallback failed, their own exceptions are
    dropped, and the generator is left with the last fallback as its
    model. *)
Theorem generate_raises_first_error (self : GroqGenerator) (question : list N)
    (docs : list (Document * float)) (e : exn) (name : list N) :
  generate self question docs = (Raise e, name) ->
  first_error self question docs e name.
Proof.
  unfold first_error, generate, call, decommissioned.
  destruct docs as [|d docs]; [done|].
  destruct (Z.ltb_spec (max_query_tokens (cfg self)) (_count_tokens self question));
    [done|].
  destruct (_build_context self (d :: docs)) as [context cits]. cbn [fst snd] in *.
  destruct context as [|c context]; [done|].
  destruct (invoke self (model_name self) _ _) as [content|e0] eqn:Hcall; [done|].
  destruct (_ || _) eqn:Hdec.
  - destruct (fallback_loop self _ e0 (model_name self) _) as [[content|e'] name']
      eqn:Hfb; [done|].
    intros [= <- <-]. apply fallback_loop_raise in Hfb as (-> & -> & Hall).
    rewrite Hdec. by repeat split.
  - intros [= <- <-]. rewrite Hdec. by repeat split.
Qed.

(** X18: when the configured model is reported decommissioned, the first
    fallback that answers gives the answer, with the citations of the
    assembled context, and stays the model of the generator; the fallbacks
    after it are not called, and the failures of those before it are
    ignored whatever they are. *)
Theorem generate_first_fallback (self : GroqGenerator) (question : list N)
    (docs : list (Document * float)) (e : exn) (pre post : list (list N))
    (c content : list N) :
  docs <> [] ->
  _count_tokens self question <= max_query_tokens (cfg self) ->
  (_build_context self docs).1 <> [] ->
  call self (model_name self) question docs = Raise e ->
  decommissioned e = true ->
  groq_fallbacks (cfg self) = pre ++ c :: post ->
  Forall (fun c' => is_ok (call self c' question docs) = false) pre ->
  call self c question docs = Ok content ->
  generate self question docs
  = (Ok (strip content ++ citation_suffix (_build_context self docs).2,
         (_build_context self docs).2), c).
Proof.
  unfold generate, call, decommissioned.
  intros Hne Hq Hctx Hcall Hdec Hfb Hpre Hc. destruct docs as [|d docs]; [done|].
  destruct (Z.ltb_spec (max_query_tokens (cfg self)) (_count_tokens self question));
    [lia|].
  destruct (_build_context self (d :: docs)) as [context cits]. cbn [fst snd] in *.
  destruct context as [|c0 context]; [done|].
  rewrite Hcall, Hdec, Hfb. by rewrite (fallback_loop_first _ _ _ _ _ _ _ Hpre Hc).
Qed.

End GeneratorMore.

(** * What the handlers return *)

Section ParsingMore.
Import PyStr Parsing Cleaning CleaningSpec ParsingSpec.

Ltac closed_in := apply (bool_decide_unpack _); vm_compute; exact I.

Lemma length_numbered (prefix : list N) (texts : list (list N)) :
  forall i, length (numbered prefix i texts) = length texts.
Proof. induction texts as [|t texts IH]; intros i; cbn; [done|]. by rewrite IH. Qed.

Lemma numbered_lookup (prefix : list N) (texts : list (list N)) :
  forall i (k : nat) t,
  texts !! k = Some t ->
  numbered prefix i texts !! k = Some (prefix ++ str_int (i + Z.of_nat k + 1), t).
Proof.
  induction texts as [|t0 texts IH]; intros i k t Hk; [done|].
  destruct k as [|k]; cbn [numbered]; simpl in Hk |- *.
  - injection Hk as ->. by replace (i + Z.of_nat 0 + 1) with (i + 1) by lia.
  - rewrite (IH (i + 1) k t Hk).
    by replace (i + Z.of_nat (S k) + 1) with (i + 1 + Z.of_nat k + 1) by lia.
Qed.

Lemma numbered_ids (prefix : list N) (texts : list (list N)) :
  forall i,
  Forall (fun p : list N * list N => exists n, p.1 = prefix ++ str_int n)
    (numbered prefix i texts).
Proof.
  induction texts as [|t texts IH]; intros i; cbn [numbered]; constructor; eauto.
Qed.

Lemma numbered_texts (prefix : list N) (texts : list (list N)) :
  forall i, map snd (numbered prefix i texts) = texts.
Proof. induction texts as [|t texts IH]; intros i; cbn; [done|]. by rewrite IH. Qed.

Lemma startswith_app (p s : list N) : startswith (p ++ s) p = true.
Proof.
  induction p as [|c p IH]; [by destruct s|]. cbn [app startswith].
  by rewrite N.eqb_refl, IH.
Qed.

(** What each handler returns. *)
Lemma parse_pdf_ok (w : World) (path : list N) (cfg : RAGConfig) (doc : ParsedDocument) :
  _parse_pdf w path cfg = Ok doc ->
  exists pages,
    fitz_pages w path = Ok pages /\ len pages <= max_pages_pdf cfg
    /\ doc = {| source_path := path; source_filename := basename w path;
                sections_text := numbered (lit "page-") 0 (map or_empty pages);
                parsing_method := lit "deterministic"; page_count := len pages |}.
Proof.
  unfold _parse_pdf. intros H. apply bind_ok in H as (pages & Hp & H).
  destruct (Z.ltb_spec (max_pages_pdf cfg) (len pages)); [done|].
  injection H as <-. eauto.
Qed.

Lemma parse_pptx_ok (w : World) (path : list N) (doc : ParsedDocument) :
  _parse_pptx w path = Ok doc ->
  exists slides,
    pptx_slides w path = Ok slides
    /\ doc = {| source_path := path; source_filename := basename w path;
                sections_text :=
                  numbered (lit "slide-") 0
                    (map (fun shapes => join [10%N] (slide_texts shapes)) slides);
                parsing_method := lit "deterministic"; page_count := len slides |}.
Proof.
  unfold _parse_pptx. intros H. apply bind_ok in H as (slides & Hp & H).
  injection H as <-. exists slides. split; [done|]. f_equal.
  unfold len. by rewrite length_numbered, length_map.
Qed.

Lemma flat_handlers_doc (w : World) (path : list N) (doc : ParsedDocument) :
  _parse_docx w path = Ok doc \/ _parse_txt w path = Ok doc
  \/ _parse_html w path = Ok doc \/ _parse_csv w path = Ok doc
  \/ _parse_json w path = Ok doc \/ _parse_md_or_code w path = Ok doc ->
  exists txt, doc = single_section w path txt.
Proof.
  unfold _parse_docx, _parse_txt, _parse_html, _parse_csv, _parse_json,
    _parse_md_or_code.
  intros H; repeat destruct H as [H|H];
    repeat (apply bind_ok in H as (? & ? & H));
    injection H as <-; eauto.
Qed.

Lemma llm_handler_doc (w : World) (path : list N) (cfg : RAGConfig) (doc : ParsedDocument) :
  _llm_assisted_parse w path cfg = Ok doc ->
  exists parsed,
    doc = {| source_path := path; source_filename := basename w path;
             sections_text := [(lit "section-1", parsed)];
             parsing_method := lit "llm-assisted"; page_count := 1 |}.
Proof.
  unfold _llm_assisted_parse. intros H.
  destruct (groq_api_key w) as [[|c key]|]; [done| |done].
  apply bind_ok in H as (content & _ & H).
  apply bind_ok in H as (resp & _ & H).
  destruct (_ || _); [done|]. injection H as <-. eauto.
Qed.

(** The outcomes of [parse_file], by the handler taken. *)
Lemma parse_file_cases (w : World) (path ext : list N) (cfg : RAGConfig)
    (doc : ParsedDocument) :
  parse_file w path ext cfg = Ok doc ->
  (ext = lit ".pdf" /\ _parse_pdf w path cfg = Ok doc)
  \/ (ext = lit ".pptx" /\ _parse_pptx w path = Ok doc)
  \/ (ext ∈ flat_exts /\ exists txt, doc = single_section w path txt)
  \/ ((ext ∉ paginated_exts) /\ (ext ∉ flat_exts)
      /\ _llm_assisted_parse w path cfg = Ok doc).
Proof.
  unfold parse_file, ext_in. intros H.
  repeat case_bool_decide;
    repeat match goal with
    | Hin : _ ∈ _ :: _ |- _ => apply elem_of_cons in Hin as [->|Hin]
    | Hin : _ ∈ [] |- _ => by apply elem_of_nil in Hin
    end;
    try (right; right; left; split; [closed_in|];
         apply (flat_handlers_doc w path doc); tauto).
  - by left.
  - right. by left.
  - right. right. right. split; [|split; [|done]].
    + unfold paginated_exts. rewrite !elem_of_cons, elem_of_nil.
      intros [->|[->|[]]];
        match goal with Hn : ¬ (_ ∈ _) |- _ => by (apply Hn; closed_in) end.
    + unfold flat_exts. rewrite !elem_of_cons, elem_of_nil.
      intros Hin. repeat destruct Hin as [->|Hin]; try done;
        match goal with Hn : ¬ (_ ∈ _) |- _ => by (apply Hn; closed_in) end.
Qed.

(** The method of a parsed document, by the extension. *)
Lemma parse_file_method (w : World) (path ext : list N) (cfg : RAGConfig)
    (doc : ParsedDocument) :
  parse_file w path ext cfg = Ok doc ->
  parsing_method doc
  = if bool_decide (ext ∈ paginated_exts ++ flat_exts)
    then lit "deterministic" else lit "llm-assisted".
Proof.
  intros H. apply parse_file_cases in H
    as [[-> H]|[[-> H]|[[Hin [txt ->]]|(Hp & Hf & H)]]].
  - by apply parse_pdf_ok in H as (pages & _ & _ & ->).
  - by apply parse_pptx_ok in H as (slides & _ & ->).
  - by rewrite bool_decide_eq_true_2 by (apply elem_of_app; by right).
  - apply llm_handler_doc in H as (parsed & ->).
    by rewrite bool_decide_eq_false_2 by (rewrite elem_of_app; tauto).
Qed.

(** X19: every document [parse_file] returns has [page_count] equal to
    the number of its sections, the given path, the base name of the path
    as file name, for a PDF at most [max_pages_pdf] sections, and the
    method "deterministic" when the extension has a handler,
    "llm-assisted" when it has none. *)
Theorem parse_file_invariants (w : World) (path ext : list N) (cfg : RAGConfig)
    (doc : ParsedDocument) :
  parse_file w path ext cfg = Ok doc -> parsed_invariants w path ext cfg doc.
Proof.
  intros H. unfold parsed_invariants.
  apply parse_file_cases in H as [[-> H]|[[-> H]|[[Hin [txt ->]]|(Hp & Hf & H)]]].
  - apply parse_pdf_ok in H as (pages & _ & Hlim & ->). cbn [page_count sections_text
      source_path source_filename parsing_method].
    unfold len. rewrite length_numbered, length_map. by repeat split.
  - apply parse_pptx_ok in H as (slides & _ & ->). cbn [page_count sections_text
      source_path source_filename parsing_method].
    unfold len. rewrite length_numbered, length_map. by repeat split.
  - rewrite bool_decide_eq_true_2 by (apply elem_of_app; by right).
    split; [done|]. split; [done|]. split; [done|]. split; [|done].
    intros ->. exfalso. apply (bool_decide_pack _) in Hin. vm_compute in Hin. exact Hin.
  - apply llm_handler_doc in H as (parsed & ->).
    rewrite bool_decide_eq_false_2 by (rewrite elem_of_app; tauto).
    split; [done|]. split; [done|]. split; [done|]. split; [|done].
    intros ->. exfalso. apply Hp. closed_in.
Qed.

(** X20: a parsed PDF has one section per page, the i-th (from 0) named
    "page-" followed by i+1 and holding the text of the page, or the empty
    string when the page has none; a parsed presentation has one section
    per slide, named "slide-" followed by i+1 and holding the non-empty
    shape texts joined by newlines; every other document has the single
    section "section-1". *)
Theorem parse_file_numbering (w : World) (path ext : list N) (cfg : RAGConfig)
    (doc : ParsedDocument) :
  parse_file w path ext cfg = Ok doc -> numbered_sections w path ext doc.
Proof.
  intros H. unfold numbered_sections.
  apply parse_file_cases in H as [[-> H]|[[-> H]|[[Hin [txt ->]]|(Hp & Hf & H)]]].
  - split; [|split; [done|done]]. intros _.
    apply parse_pdf_ok in H as (pages & Hpages & _ & ->). exists pages.
    cbn [sections_text]. split; [done|].
    split; [by rewrite length_numbered, length_map|].
    intros i page Hi.
    rewrite (numbered_lookup _ _ 0 i (or_empty page)); [done|].
    by rewrite list_lookup_fmap, Hi.
  - split; [done|]. split; [|done]. intros _.
    apply parse_pptx_ok in H as (slides & Hslides & ->). exists slides.
    cbn [sections_text]. split; [done|].
    split; [by rewrite length_numbered, length_map|].
    intros i shapes Hi.
    rewrite (numbered_lookup _ _ 0 i (join [10%N] (slide_texts shapes))); [done|].
    by rewrite list_lookup_fmap, Hi.
  - split; [|split; [|done]]; intros ->; exfalso;
      apply (bool_decide_pack _) in Hin; vm_compute in Hin; exact Hin.
  - apply llm_handler_doc in H as (parsed & ->).
    split; [|split; [|done]]; intros ->; exfalso; apply Hp; closed_in.
Qed.

Lemma keeps_plain (isdecimal : N -> bool) (doc : ParsedDocument)
    (H F : gset (list N)) (sec_id l : list N) :
  paginated doc sec_id = false ->
  keeps isdecimal doc H F sec_id l = plain_keeps l.
Proof.
  unfold keeps, plain_keeps. intros ->. cbn [andb negb]. by rewrite andb_true_r.
Qed.

(** X21: the header, footer and page-number rules of the cleaner apply to
    every section of a parsed PDF and to no section of any other parsed
    file, slides included although they are extracted deterministically:
    cleaning a parsed file that is not a PDF only drops the empty lines and
    the rule lines and normalises the whitespace. *)
Theorem page_rules_only_for_pdf (isdecimal : N -> bool) (w : World)
    (path ext : list N) (cfg : RAGConfig) (doc : ParsedDocument) :
  parse_file w path ext cfg = Ok doc ->
  Forall (fun p : list N * list N => paginated doc p.1 = bool_decide (ext = lit ".pdf"))
    (sections_text doc)
  /\ (ext <> lit ".pdf" ->
      clean_text isdecimal doc = map clean_plain (sections_text doc)).
Proof.
  intros H.
  assert (Hpag : Forall (fun p : list N * list N =>
                           paginated doc p.1 = bool_decide (ext = lit ".pdf"))
                   (sections_text doc)).
  { apply parse_file_cases in H
      as [[-> H]|[[-> H]|[[Hin [txt ->]]|(Hp & Hf & H)]]].
    - apply parse_pdf_ok in H as (pages & _ & _ & ->). cbn [sections_text].
      eapply Forall_impl; [apply numbered_ids|]. intros p [n Hn]. cbn beta.
      unfold paginated. cbn [parsing_method]. rewrite Hn, startswith_app. done.
    - apply parse_pptx_ok in H as (slides & _ & ->). cbn [sections_text].
      eapply Forall_impl; [apply numbered_ids|]. intros p [n Hn]. cbn beta.
      unfold paginated. cbn [parsing_method]. rewrite Hn. done.
    - constructor; [|constructor]. cbn [fst]. unfold paginated.
      rewrite (bool_decide_eq_false_2 (ext = lit ".pdf")); [done|].
      intros ->. apply (bool_decide_pack _) in Hin. vm_compute in Hin. exact Hin.
    - apply llm_handler_doc in H as (parsed & ->).
      constructor; [|constructor]. cbn [fst]. unfold paginated.
      rewrite (bool_decide_eq_false_2 (ext = lit ".pdf")); [done|].
      intros ->. apply Hp. closed_in. }
  split; [done|]. intros Hne.
  rewrite (clean_text_filter isdecimal doc). apply map_ext_Forall.
  eapply Forall_impl; [exact Hpag|]. intros p Hp. cbn beta in Hp.
  rewrite (bool_decide_eq_false_2 _ Hne) in Hp.
  unfold clean_one, clean_plain. do 3 f_equal.
  apply filter_ext. intros l. by apply keeps_plain.
Qed.

(** X22: with a context budget that is not negative (the tokenizer and
    the chat client being available), the assisted parse succeeds exactly
    when the API key is set and not empty, the file can be
    read, the model answers, and its stripped reply is neither empty nor,
    once upper-cased and stripped, "UNPARSEABLE"; the prompt holds the
    first [max_context_tokens] tokens of the file at most, and the document
    is the single section "section-1" holding the stripped reply, with the
    method "llm-assisted". *)
Theorem llm_assisted_parse_ok (w : World) (path : list N) (cfg : RAGConfig)
    (doc : ParsedDocument) :
  0 <= max_context_tokens cfg ->
  _llm_assisted_parse w path cfg = Ok doc <-> assisted_success w path cfg doc.
Proof.
  intros Hmax. unfold _llm_assisted_parse, assisted_success.
  assert (Hids : forall content,
            (if max_context_tokens cfg <? len (encode w content)
             then slice (encode w content) 0 (max_context_tokens cfg)
             else encode w content)
            = take (Z.to_nat (max_context_tokens cfg)) (encode w content)).
  { intros content.
    destruct (Z.ltb_spec (max_context_tokens cfg) (len (encode w content))).
    - rewrite slice_nonneg by lia. cbn [Z.to_nat drop]. by rewrite Nat.sub_0_r.
    - symmetry. apply take_ge. unfold len in *. lia. }
  split.
  - intros H. destruct (groq_api_key w) as [[|c key]|]; [done| |done].
    apply bind_ok in H as (content & Hread & H). rewrite Hids in H.
    apply bind_ok in H as (resp & Hresp & H).
    case_bool_decide as Hun; [done|]. case_bool_decide as Hp; [done|].
    cbn [orb] in H. injection H as <-.
    exists (c :: key), content,
      (take (Z.to_nat (max_context_tokens cfg)) (encode w content)), resp.
    split; [done|]. split; [done|]. split; [done|]. split; [done|].
    split; [|by repeat split]. unfold len. rewrite length_take. lia.
  - intros (key & content & ids & resp & Hkey & Hne & Hread & -> & _ & Hresp
            & Hp & Hun & ->).
    rewrite Hkey. destruct key as [|c key]; [done|].
    rewrite Hread. cbn [mbind result_bind]. rewrite Hids, Hresp.
    cbn [mbind result_bind].
    by rewrite (bool_decide_eq_false_2 _ Hun), (bool_decide_eq_false_2 _ Hp).
Qed.

End ParsingMore.

(** * The shape of cleaned sections *)

Section CleanerMore.
Import PyStr Parsing Regex Cleaning CleaningSpec CleanedSpec.

Lemma rule_re_spec (l : list N) : fullmatch rule_re l = true <-> rule_line l.
Proof.
  split.
  - intros H. split; [|by apply rule_re_chars].
    destruct l as [|a [|b [|c rest]]]; [| | |cbn [length]; lia]; exfalso.
    + done.
    + unfold rule_re in H. cbn [fullmatch deriv nullable] in H.
      destruct (isrule a); cbn [fullmatch deriv nullable andb orb] in H; done.
    + unfold rule_re in H. cbn [fullmatch deriv nullable] in H.
      destruct (isrule a); cbn [fullmatch deriv nullable andb orb] in H; [|done].
      destruct (isrule b); cbn [fullmatch deriv nullable andb orb] in H; done.
  - intros [Hlen Hall]. apply fullmatch_spec.
    destruct l as [|a [|b [|c rest]]]; [cbn in Hlen; lia..|].
    inversion Hall as [|? ? Ha Hall1]; subst.
    inversion Hall1 as [|? ? Hb Hall2]; subst.
    inversion Hall2 as [|? ? Hc Hall3]; subst.
    apply (m_cat _ _ [a] (b :: c :: rest)); [by constructor|].
    apply (m_cat _ _ [b] (c :: rest)); [by constructor|].
    apply (m_cat _ _ [c] rest); [by constructor|].
    by apply matches_star_of_class.
Qed.

Lemma sub_blanks_no_tab (s : list N) : ~ In 9%N (sub_blanks s).
Proof.
  induction s as [|c s IH]; [by intros []|]. cbn [sub_blanks].
  destruct (isblank c) eqn:Hc.
  - destruct s as [|c' s']; [by intros [|[]]|].
    destruct (isblank c'); [done|]. by intros [|].
  - intros [->|]; done.
Qed.

(** The lines of a cleaned section. *)
Lemma clean_one_splitlines (isdecimal : N -> bool) (doc : ParsedDocument)
    (H F : gset (list N)) (p : list N * list N) :
  splitlines (clean_one isdecimal doc H F p).2
  = map sub_blanks
      (List.filter (keeps isdecimal doc H F p.1) (map strip (splitlines p.2))).
Proof.
  rewrite clean_one_lines. cbn [snd]. apply splitlines_join, cleaned_lines_ok.
Qed.

(** X23: [clean_text] keeps the section ids and their order, and every
    cleaned text is made of its lines joined by single newlines, each line
    being stripped, not empty, without tab and without two spaces in a
    row, and not a rule (three or more rule characters only); the text has
    no leading or trailing whitespace. *)
Theorem cleaned_text_shape (isdecimal : N -> bool) (doc : ParsedDocument) :
  map fst (clean_text isdecimal doc) = map fst (sections_text doc)
  /\ Forall (fun p : list N * list N => clean_shape p.2) (clean_text isdecimal doc).
Proof.
  rewrite (clean_text_filter isdecimal doc). split.
  - rewrite map_map. by apply map_ext.
  - apply Forall_map, Forall_forall. intros p _.
    set (kept := List.filter (keeps isdecimal doc (common_headers doc)
                                (common_footers doc) p.1)
                   (map strip (splitlines p.2))).
    pose proof (cleaned_lines_ok isdecimal doc (common_headers doc)
                  (common_footers doc) p.1 p.2) as Hok. fold kept in Hok.
    unfold clean_shape. rewrite clean_one_splitlines. fold kept.
    rewrite clean_one_lines. fold kept. cbn [snd].
    split; [done|]. split.
    + apply List.Forall_forall. intros l' Hin.
      apply in_map_iff in Hin as (l & <- & Hl).
      split; [rewrite List.Forall_forall in Hok; apply Hok, in_map, Hl|].
      split; [apply sub_blanks_idemp|]. split; [apply sub_blanks_no_tab|].
      intros Hrule%rule_re_spec.
      apply filter_In in Hl as [_ Hkeep]. unfold keeps in Hkeep.
      apply andb_prop in Hkeep as [_ Hnr%negb_true_iff].
      by rewrite (rule_sub_blanks l Hnr) in Hrule.
    + destruct (map sub_blanks kept) as [|l ls] eqn:E; [done|].
      apply strip_of_trimmed, join_lines_trimmed; done.
Qed.

(** X24: when no blank is a decimal digit, no line of a cleaned page of a
    deterministic extraction is a page number ("Page n", "page n/m" or
    digits only), also after the blanks of the line were normalised. *)
Theorem cleaned_pages_no_page_numbers (isdecimal : N -> bool) (doc : ParsedDocument) :
  (forall c, isblank c = true -> isdecimal c = false) ->
  Forall (fun p : list N * list N =>
            paginated doc p.1 = true ->
            Forall (fun l => _is_page_number isdecimal l = false) (splitlines p.2))
    (clean_text isdecimal doc).
Proof.
  intros Hdigits. rewrite (clean_text_filter isdecimal doc).
  apply Forall_map, Forall_forall. intros p _ Hpag.
  change (clean_one isdecimal doc (common_headers doc) (common_footers doc) p).1
    with p.1 in Hpag.
  rewrite clean_one_splitlines. apply List.Forall_forall. intros l' Hin.
  apply in_map_iff in Hin as (l & <- & Hl).
  pose proof (kept_line_ok isdecimal doc (common_headers doc) (common_footers doc)
                p.1 p.2) as Hok.
  rewrite List.Forall_forall in Hok. destruct (Hok l Hl) as [Htrim _].
  apply filter_In in Hl as [_ Hkeep]. unfold keeps in Hkeep. rewrite Hpag in Hkeep.
  apply andb_prop in Hkeep as [[_ Hk%negb_true_iff]%andb_prop _].
  cbn [andb] in Hk. apply orb_false_elim in Hk as [_ Hpn].
  by apply page_number_sub_blanks.
Qed.

Lemma count_of_le (h : list N) (l : list (list N)) : count_of h l <= len l.
Proof.
  unfold count_of, len. induction l as [|x l IH]; [done|]. cbn [List.filter length].
  destruct (bool_decide (x = h)); cbn [length]; lia.
Qed.

Lemma length_omap_le {A B} (f : A -> option B) (l : list A) :
  (length (omap f l) <= length l)%nat.
Proof.
  induction l as [|x l IH]; [done|]. cbn [omap list_omap length].
  destruct (f x); cbn [length]; lia.
Qed.

Lemma frequency_rule_few (commons : gset (list N)) (found : list (list N))
    (total : Z) :
  frequency_rule commons found total -> len found < 2 -> commons = ∅.
Proof.
  intros Hrule Hlen. apply set_eq. intros h. rewrite elem_of_empty. split; [|done].
  intros Hin%Hrule. pose proof (count_of_le h found). lia.
Qed.

(** X25: a document of fewer than two sections has no common header and
    no common footer, so nothing is removed from it as such. *)
Theorem few_sections_no_common_lines (doc : ParsedDocument) :
  len (sections_text doc) < 2 ->
  common_headers doc = ∅ /\ common_footers doc = ∅.
Proof.
  intros Hlen. destruct (first_last_rule_holds doc) as [Hh Hf].
  pose proof (length_omap_le (fun p : list N * list N => first_line p.2)
                (sections_text doc)) as H1.
  pose proof (length_omap_le (fun p : list N * list N => last_line p.2)
                (sections_text doc)) as H2.
  split; eapply frequency_rule_few; try eassumption; unfold len in *; lia.
Qed.

End CleanerMore.

(** * Whitespace normalisation, continued *)

Section NormalizeMore.
Import PyStr Cleaning NormalSpec.

Lemma isblank_cases (c : N) : isblank c = true <-> c = 32%N \/ c = 9%N.
Proof.
  unfold isblank. rewrite orb_true_iff, !N.eqb_eq. tauto.
Qed.

Lemma blank_normal_fix (s : list N) : blank_normal s -> sub_blanks s = s.
Proof.
  induction s as [|c rest IH]; [done|]. intros (H9 & H32 & Hrest).
  cbn [sub_blanks]. rewrite (IH Hrest).
  destruct (isblank c) eqn:Hc; [|done].
  apply isblank_cases in Hc as [->|]; [|done].
  destruct rest as [|c' rest']; [done|].
  destruct (isblank c') eqn:Hc'; [|done].
  destruct Hrest as (H9' & _). apply isblank_cases in Hc' as [->|]; [|done].
  by destruct (H32 eq_refl).
Qed.

Lemma sub_blanks_normal (s : list N) : blank_normal (sub_blanks s).
Proof.
  induction s as [|c rest IH]; [done|]. cbn [sub_blanks].
  destruct (isblank c) eqn:Hc.
  - destruct rest as [|c' rest']; [by repeat split|].
    destruct (isblank c') eqn:Hc'; [done|].
    split; [done|]. split; [|done]. intros _.
    rewrite sub_blanks_nonblank by done. cbn [head]. intros [= ->]. done.
  - split; [by intros ->|]. split; [by intros ->|done].
Qed.

Lemma blank_normal_app (a b : list N) :
  blank_normal (a ++ b) -> blank_normal a /\ blank_normal b.
Proof.
  induction a as [|c a IH]; [done|]. cbn [app blank_normal].
  intros (H9 & H32 & Hrest). destruct (IH Hrest) as [Ha Hb].
  split; [|done]. split; [done|]. split; [|done].
  intros Hc. specialize (H32 Hc). by destruct a.
Qed.

Lemma newline_run_cases (k : nat) :
  newline_run k = [] \/ newline_run k = [10%N] \/ newline_run k = [10%N; 10%N].
Proof. destruct k as [|[|[|k]]]; cbn; auto. Qed.

Lemma newline_run_S (k : nat) : exists r, newline_run (S k) = 10%N :: r.
Proof. destruct k as [|[|k]]; cbn; eauto. Qed.

Lemma head_sub_newlines_S (s : list N) :
  forall k, head (sub_newlines (S k) s) = Some 10%N.
Proof.
  induction s as [|c rest IH]; intros k; cbn [sub_newlines].
  - by destruct (newline_run_S k) as [r ->].
  - destruct (N.eqb_spec c 10); [apply IH|].
    by destruct (newline_run_S k) as [r ->].
Qed.

Lemma head_sub_newlines (s : list N) (k : nat) :
  head (sub_newlines k s) = Some 32%N -> head s = Some 32%N.
Proof.
  destruct s as [|c rest]; cbn [sub_newlines].
  - destruct (newline_run_cases k) as [->|[->| ->]]; done.
  - destruct (N.eqb_spec c 10) as [->|Hc].
    + by rewrite head_sub_newlines_S.
    + destruct k as [|k]; [done|]. by destruct (newline_run_S k) as [r ->].
Qed.

Lemma blank_normal_newlines (k : nat) (t : list N) :
  blank_normal t -> blank_normal (newline_run k ++ t).
Proof.
  intros Ht. destruct (newline_run_cases k) as [->|[->| ->]]; cbn [app blank_normal];
    repeat split; done.
Qed.

Lemma sub_newlines_normal (s : list N) :
  forall k, blank_normal s -> blank_normal (sub_newlines k s).
Proof.
  induction s as [|c rest IH]; intros k Hs; cbn [sub_newlines].
  - rewrite <- (app_nil_r (newline_run k)). by apply blank_normal_newlines.
  - destruct Hs as (H9 & H32 & Hrest).
    destruct (N.eqb_spec c 10) as [->|Hc]; [by apply IH|].
    apply blank_normal_newlines. split; [done|]. split; [|by apply IH].
    intros Hc32 Hhead%head_sub_newlines. by apply H32.
Qed.

Lemma no_triple_newlines (k : nat) (c : N) (t : list N) :
  c <> 10%N -> no_triple t -> no_triple (newline_run k ++ c :: t).
Proof.
  intros Hc Ht.
  assert (Hct : no_triple (c :: t)) by (split; [by intros r [= ->]|done]).
  destruct (newline_run_cases k) as [->|[->| ->]]; cbn [app]; [done| |].
  - split; [by intros r [= -> _]|done].
  - split; [by intros r [= ->]|]. split; [by intros r [= -> _]|done].
Qed.

Lemma sub_newlines_no_triple (s : list N) : forall k, no_triple (sub_newlines k s).
Proof.
  induction s as [|c rest IH]; intros k; cbn [sub_newlines].
  - destruct (newline_run_cases k) as [->|[->| ->]]; cbn; repeat split; done.
  - destruct (N.eqb_spec c 10) as [->|Hc]; [apply IH|].
    by apply no_triple_newlines.
Qed.

Lemma no_triple_app (a b : list N) :
  no_triple (a ++ b) -> no_triple a /\ no_triple b.
Proof.
  induction a as [|c a IH]; [done|]. cbn [app no_triple].
  intros (Hhead & Hrest). destruct (IH Hrest) as [Ha Hb].
  split; [|done]. split; [|done].
  intros r [= -> ->]. by apply (Hhead (r ++ b)).
Qed.

Lemma repeat_app_cons {A} (a : A) (k : nat) (t : list A) :
  repeat a k ++ a :: t = a :: repeat a k ++ t.
Proof. induction k as [|k IH]; [done|]. cbn [repeat app]. by rewrite IH. Qed.

Lemma no_triple_run (k : nat) (t : list N) :
  no_triple (repeat 10%N k ++ t) -> newline_run k = repeat 10%N k.
Proof.
  destruct k as [|[|[|k]]]; [done..|]. cbn [repeat app no_triple].
  intros [Hhead _]. by destruct (Hhead (repeat 10%N k ++ t)).
Qed.

Lemma no_triple_fix (s : list N) :
  forall k, no_triple (repeat 10%N k ++ s) ->
  sub_newlines k s = repeat 10%N k ++ s.
Proof.
  induction s as [|c rest IH]; intros k Hs; cbn [sub_newlines].
  - rewrite app_nil_r. by apply (no_triple_run k []).
  - destruct (N.eqb_spec c 10) as [->|Hc].
    + rewrite repeat_app_cons in *. by apply (IH (S k)).
    + rewrite (no_triple_run k _ Hs). f_equal. f_equal.
      apply no_triple_app in Hs as [_ [_ Hrest]]. by apply (IH 0%nat).
Qed.

Lemma strip_infix (s : list N) : exists a b, s = a ++ strip s ++ b.
Proof.
  destruct (lstrip_spec s) as (ws1 & E1 & _).
  destruct (lstrip_spec (rev (lstrip s))) as (ws2 & E2 & _).
  exists ws1, (rev ws2). unfold strip, rstrip.
  rewrite <- rev_app_distr, <- E2, rev_involutive. exact E1.
Qed.

Lemma strip_strip (s : list N) : strip (strip s) = strip s.
Proof.
  destruct (decide (strip s = [])) as [->|Hne]; [done|].
  by apply strip_of_trimmed, strip_trimmed.
Qed.

(** X26: for every text, the result of [_normalize_spaces] has no tab, no
    two spaces in a row, no three newlines in a row and no leading or
    trailing whitespace; normalising it again changes nothing; and a text
    of this form is left as it is. *)
Theorem normalize_spaces_idempotent (text : list N) :
  normalized (_normalize_spaces text)
  /\ _normalize_spaces (_normalize_spaces text) = _normalize_spaces text
  /\ (normalized text -> _normalize_spaces text = text).
Proof.
  assert (Hfix : forall s, normalized s -> _normalize_spaces s = s).
  { intros s (Hb & Ht & Hs). unfold _normalize_spaces.
    rewrite (blank_normal_fix s Hb), (no_triple_fix s 0 Ht). exact Hs. }
  assert (Hn : normalized (_normalize_spaces text)).
  { unfold _normalize_spaces.
    set (v := sub_newlines 0 (sub_blanks text)).
    assert (Hb : blank_normal v) by apply sub_newlines_normal, sub_blanks_normal.
    assert (Ht : no_triple v) by apply sub_newlines_no_triple.
    destruct (strip_infix v) as (a & b & E). rewrite E in Hb, Ht.
    apply blank_normal_app in Hb as [_ [Hb _]%blank_normal_app].
    apply no_triple_app in Ht as [_ [Ht _]%no_triple_app].
    split; [done|]. split; [done|apply strip_strip]. }
  split; [done|]. split; [by apply Hfix|apply Hfix].
Qed.

End NormalizeMore.

(** * The upload block and the question block of the application *)

Section AppFacts.
Import PyStr PyFloat Parsing Cleaning CleaningSpec Chunking ChunkingSpec ChunksSpec.
Import Retrieval Generation App.

Lemma clean_text_ids (isdecimal : N -> bool) (doc : ParsedDocument) :
  map fst (clean_text isdecimal doc) = map fst (sections_text doc).
Proof.
  rewrite (clean_text_filter isdecimal doc), map_map. by apply map_ext.
Qed.

Lemma clean_text_nil (isdecimal : N -> bool) (doc : ParsedDocument) :
  clean_text isdecimal doc = [] <-> sections_text doc = [].
Proof.
  pose proof (clean_text_ids isdecimal doc) as H.
  split; intros E; rewrite E in H; [by destruct (sections_text doc)|].
  by destruct (clean_text isdecimal doc).
Qed.

(** X27: an upload whose file is parsed stores the parsed document and its
    cleaned sections in the session; when the document has no section (a
    PDF of zero pages, a presentation of zero slides) nothing is chunked
    and the chunks and the index of the session stay those of the upload
    before; otherwise the chunks are those of the cleaned sections, each
    carrying the name of the uploaded file, the section it comes from, one
    of the sections of the parsed document, and the parsing method,
    "llm-assisted" exactly when the extension has no handler. *)
Theorem upload_provenance (isdecimal : N -> bool) (w : World)
    (build_index : list Document -> result FAISS) (cfg : RAGConfig) (s : Session)
    (name path ext : list N) (p : ParsedDocument) (s' : Session) :
  parse_file w path ext cfg = Ok p ->
  upload isdecimal w build_index cfg s name path ext false = Ok s' ->
  upload_parsed isdecimal build_index cfg s name ext p s'.
Proof.
  intros Hparse. unfold upload, upload_parsed. rewrite Hparse.
  cbn [cleaned_pages parsed].
  pose proof (clean_text_nil isdecimal p) as Hnil.
  pose proof (clean_text_ids isdecimal p) as Hids.
  destruct (clean_text isdecimal p) as [|page pages] eqn:Hc.
  - intros [= <-]. cbn [parsed cleaned_pages docs faiss].
    split; [done|]. split; [done|]. split; [done|]. intros Hne. destruct Hne.
    by apply Hnil.
  - rewrite chunk_pages_numbers. cbn [mbind result_bind].
    destruct (build_index _) as [index|e] eqn:Hb; [|done].
    cbn [mbind result_bind]. intros [= <-]. cbn [parsed cleaned_pages docs faiss].
    split; [done|]. split; [done|]. split; [intros E; by apply Hnil in E|].
    intros _. eexists _, index. split; [done|]. split; [done|]. split; [done|].
    split; [done|].
    eapply Forall_impl;
      [apply (numbered_chunks_meta cfg (page :: pages) name (parsing_method p))|].
    intros d (_ & Hsrc & Hpm & _ & sec & text & Hin & Hsec & _).
    split; [done|]. split; [by rewrite <- (parse_file_method _ _ _ _ _ Hparse)|].
    exists sec. split; [|done]. rewrite <- Hids.
    apply in_map_iff. by exists (sec, text).
Qed.

(** X28: an upload that is refused for its size, or whose parsing raises,
    leaves the parsed document and the cleaned sections of the session as
    they were; on a session without cleaned section the session is left
    unchanged; on a session that holds the sections of an earlier upload
    these are chunked and indexed again, and every chunk now carries the
    name of the file that was refused. *)
Theorem upload_failure_rechunks (isdecimal : N -> bool) (w : World)
    (build_index : list Document -> result FAISS) (cfg : RAGConfig) (s : Session)
    (name path ext : list N) (too_large : bool) (s' : Session) :
  too_large = true \/ is_ok (parse_file w path ext cfg) = false ->
  upload isdecimal w build_index cfg s name path ext too_large = Ok s' ->
  upload_refused build_index cfg s name s'.
Proof.
  intros Hfail. unfold upload, upload_refused.
  assert (Hs : (if too_large then s
                else match parse_file w path ext cfg with
                     | Ok p => {| parsed := Some p;
                                  cleaned_pages := Some (clean_text isdecimal p);
                                  docs := docs s; faiss := faiss s |}
                     | Raise _ => s
                     end) = s).
  { destruct too_large; [done|]. destruct Hfail as [|Hfail]; [done|].
    by destruct (parse_file w path ext cfg). }
  rewrite Hs. clear Hs.
  destruct (cleaned_pages s) as [[|page pages]|] eqn:Hc.
  - intros [= <-]. split; [done|]. split; [done|]. split; [done|].
    intros p0 pages' _ [= <-]. done.
  - destruct (parsed s) as [p0|] eqn:Hp; [|done].
    rewrite chunk_pages_numbers. cbn [mbind result_bind].
    destruct (build_index _) as [index|e] eqn:Hb; [|done].
    cbn [mbind result_bind]. intros [= <-]. cbn [parsed cleaned_pages docs faiss].
    split; [done|]. split; [done|]. split; [by intros [|]|].
    intros p0' pages' [= <-] [= <-] _. eexists _, index.
    split; [done|]. split; [done|]. split; [apply chunk_pages_numbers|].
    split; [done|].
    eapply Forall_impl;
      [apply (numbered_chunks_meta cfg (page :: pages) name (parsing_method p0))|].
    by intros d (_ & Hsrc & _).
  - intros [= <-]. split; [done|]. split; [done|]. split; [done|].
    intros p0 pages' _ [=].
Qed.

(** X29: a question the retriever rejects with a [ValueError] (over the
    token limit of the retriever, or a search without result) is still
    passed to the generator, with no retrieved pair, and so is answered by
    the refusal "I cannot answer based on the provided document." without
    citation; the text "Your question is too long..." of the generator is
    not shown for it. *)
Theorem ask_rejected_query (retriever : Retriever) (generator : GroqGenerator)
    (q : list N) :
  max_query_tokens (Retrieval.cfg retriever) < Retrieval._count_tokens retriever q
  \/ (exists index,
        store retriever = Some index
        /\ similarity_search_with_score index q (top_k (Retrieval.cfg retriever))
           = Ok []) ->
  ask retriever (Ok generator) q = Ok (refusal_text, []).
Proof.
  intros H. unfold ask, retrieve.
  destruct (Z.ltb_spec (max_query_tokens (Retrieval.cfg retriever))
              (Retrieval._count_tokens retriever q)) as [Hlong|Hq]; [done|].
  destruct H as [|(index & Hstore & Hsearch)]; [lia|].
  rewrite Hstore. cbn [from_option id]. by rewrite Hsearch.
Qed.

(** X30: the citations of an answer shown for a question are those of the
    first pairs the retriever returned, as many as there are citations;
    each cites a retrieved pair. *)
Theorem ask_citations_retrieved (retriever : Retriever)
    (new_generator : result GroqGenerator) (q text : list N)
    (citations : list Citation) :
  ask retriever new_generator q = Ok (text, citations) ->
  citations <> [] ->
  exists generator res,
    new_generator = Ok generator
    /\ retrieve retriever q (Some (top_k (Retrieval.cfg retriever)))
         (Some (max_distance (Retrieval.cfg retriever))) = Ok res
    /\ citations = map citation_of (take (length citations) res)
    /\ Forall (fun c => exists ds, In ds res /\ c = citation_of ds) citations.
Proof.
  unfold ask. intros H Hne.
  destruct (retrieve retriever q _ _) as [res|e] eqn:Hres.
  2:{ destruct e; cbn [mbind result_bind] in H; try done.
      destruct new_generator as [g|e]; cbn [mbind result_bind fst] in H.
      - by injection H as <- <-.
      - destruct e; try done. by injection H as <- <-. }
  cbn [mbind result_bind] in H.
  destruct new_generator as [g|e]; cbn [mbind result_bind] in H.
  2:{ destruct e; try done. by injection H as <- <-. }
  destruct (generate g q res) as [r name] eqn:Hgen. cbn [fst] in H.
  destruct r as [[text' cits']|e].
  2:{ destruct e; try done. by injection H as <- <-. }
  injection H as <- <-.
  apply generate_ok_citations in Hgen as [->|Hc]; [done|].
  destruct (build_context_prefix g res) as (k & Hk & _ & Hctx & _).
  rewrite Hctx in Hc. cbn [snd] in Hc.
  exists g, res. split; [done|]. split; [done|].
  assert (Hlen : length cits' = k).
  { rewrite Hc, length_map, length_take. lia. }
  split; [by rewrite Hlen|].
  rewrite Hc. apply Forall_map, Forall_forall. intros ds Hin%list_elem_of_In.
  exists ds. split; [|done]. rewrite <- (take_drop k res). apply in_or_app. by left.
Qed.

End AppFacts.

(** * The further properties at concrete inputs *)

Section MoreWitnesses.
Import PyStr PyFloat Chunking ChunkingSpec ChunksSpec Parsing ParsingSpec.
Import Cleaning CleaningSpec CleanedSpec Retrieval RetrievalSpec.
Import Generation AnswerSpec GenerationSpec App.

Lemma validated_chunking_plain_witness :
  validate default_config = Ok tt
  /\ plain_windowing default_config (lit "alpha beta  gamma")
  /\ chunking_law_holds default_config (lit "alpha beta  gamma").
Proof.
  split; [reflexivity|].
  refine (proj2 (proj2 (proj2
            (validated_chunking_plain default_config (lit "alpha beta  gamma") _ _))));
    vm_compute; reflexivity.
Defined.

Lemma chunk_text_chunks_witness :
  _chunk_text (with_chunking 3 1) (lit "a b  c d e f g")
    = Ok [lit "a b c"; lit "c d e"; lit "e f g"]
  /\ Forall (window_chunk (with_chunking 3 1) (findall_nonspace (lit "a b  c d e f g")))
       [lit "a b c"; lit "c d e"; lit "e f g"].
Proof.
  assert (H : _chunk_text (with_chunking 3 1) (lit "a b  c d e f g")
              = Ok [lit "a b c"; lit "c d e"; lit "e f g"])
    by (vm_compute; reflexivity).
  split; [exact H|]. exact (chunk_text_chunks _ _ _ H).
Defined.

Lemma chunk_text_short_witness :
  _chunk_text default_config (lit " hello   world ") = Ok [lit "hello world"].
Proof.
  refine (chunk_text_short default_config (lit " hello   world ") _).
  vm_compute. discriminate.
Defined.

Lemma chunk_ids_distinct_witness :
  chunk_pages (with_chunking 3 1) sample_pages (lit "f.pdf") (lit "deterministic")
    = Ok sample_chunks
  /\ length sample_chunks = 3%nat
  /\ map (fun d => Z.of_N (ordinal_of (chunk_id_of d))) sample_chunks
     = progression 1 1 (length sample_chunks)
  /\ NoDup (map chunk_id_of sample_chunks).
Proof.
  assert (H : chunk_pages (with_chunking 3 1) sample_pages (lit "f.pdf")
                (lit "deterministic") = Ok sample_chunks)
    by (vm_compute; reflexivity).
  split; [exact H|]. split; [reflexivity|]. exact (chunk_ids_distinct _ _ _ _ _ H).
Defined.

Lemma chunk_pages_provenance_witness :
  chunk_pages (with_chunking 3 1) sample_pages (lit "f.pdf") (lit "deterministic")
    = Ok sample_chunks
  /\ Forall (tagged_chunk (with_chunking 3 1) sample_pages (lit "f.pdf")
               (lit "deterministic") (len sample_chunks))
       sample_chunks.
Proof.
  assert (H : chunk_pages (with_chunking 3 1) sample_pages (lit "f.pdf")
                (lit "deterministic") = Ok sample_chunks)
    by (vm_compute; reflexivity).
  split; [exact H|]. exact (chunk_pages_provenance _ _ _ _ _ H).
Defined.

Lemma retrieve_results_sound_witness :
  retrieve (sample_retriever sample_results) (lit "q") None None
    = Ok (drop 1 sample_results)
  /\ exists index docs,
       store (sample_retriever sample_results) = Some index
       /\ similarity_search_with_score index (lit "q") 4 = Ok docs
       /\ sound_result (Finite (12 # 10)) docs (drop 1 sample_results).
Proof.
  assert (H : retrieve (sample_retriever sample_results) (lit "q") None None
              = Ok (drop 1 sample_results))
    by (vm_compute; reflexivity).
  split; [exact H|]. exact (retrieve_results_sound _ _ _ _ _ H).
Defined.

Lemma retrieve_sorted_prefix_witness :
  ascending sorted_results
  /\ retrieve (sample_retriever sorted_results) (lit "q") None None
     = Ok (take 1 sorted_results)
  /\ take 1 sorted_results <> []
  /\ take 1 sorted_results = take (length (take 1 sorted_results)) sorted_results
  /\ ascending (take 1 sorted_results).
Proof.
  assert (Ha : ascending sorted_results) by (vm_compute; repeat split).
  assert (H : retrieve (sample_retriever sorted_results) (lit "q") None None
              = Ok (take 1 sorted_results))
    by (vm_compute; reflexivity).
  split; [exact Ha|]. split; [exact H|].
  exact (retrieve_sorted_prefix (sample_retriever sorted_results) (lit "q") None None
           _ sorted_results _ eq_refl eq_refl Ha H).
Defined.

Lemma retrieve_fallback_first_minimum_witness :
  exists best,
    retrieve (sample_retriever tied_results) (lit "q") None None = Ok [best]
    /\ first_minimum tied_results best.
Proof.
  refine (retrieve_fallback_first_minimum (sample_retriever tied_results) (lit "q")
            None None _ tied_results _ eq_refl eq_refl _ _ _).
  - vm_compute. discriminate.
  - discriminate.
  - repeat constructor.
  - repeat constructor.
Defined.

Lemma build_context_budget_monotone_witness :
  (_build_context (with_budget (sample_generator 0) 60) sample_pairs).2
    `prefix_of` (_build_context (with_budget (sample_generator 0) 150) sample_pairs).2.
Proof. apply build_context_budget_monotone. lia. Defined.

Lemma generate_result_shape_witness :
  generate (sample_generator 120) (lit "what?") sample_pairs
    = (Ok (lit "ok [chunk-00001 (page-1)]", map citation_of (take 1 sample_pairs)),
       lit "llama-3.3-70b-versatile")
  /\ result_shape (sample_generator 120) (lit "what?") sample_pairs
       (lit "ok [chunk-00001 (page-1)]") (map citation_of (take 1 sample_pairs))
       (lit "llama-3.3-70b-versatile").
Proof.
  assert (H : generate (sample_generator 120) (lit "what?") sample_pairs
              = (Ok (lit "ok [chunk-00001 (page-1)]",
                     map citation_of (take 1 sample_pairs)),
                 lit "llama-3.3-70b-versatile"))
    by (vm_compute; reflexivity).
  split; [exact H|]. exact (generate_result_shape _ _ _ _ _ _ H).
Defined.

Lemma generate_raises_first_error_witness :
  generate failing_generator (lit "what?") sample_pairs
    = (Raise (ExternalError (lit "model_decommissioned")), lit "model-c")
  /\ first_error failing_generator (lit "what?") sample_pairs
       (ExternalError (lit "model_decommissioned")) (lit "model-c").
Proof.
  assert (H : generate failing_generator (lit "what?") sample_pairs
              = (Raise (ExternalError (lit "model_decommissioned")), lit "model-c"))
    by (vm_compute; reflexivity).
  split; [exact H|]. exact (generate_raises_first_error _ _ _ _ _ H).
Defined.

Lemma generate_first_fallback_witness :
  generate retired_generator (lit "what?") sample_pairs
  = (Ok (strip (lit " fine ")
         ++ citation_suffix (_build_context retired_generator sample_pairs).2,
         (_build_context retired_generator sample_pairs).2), lit "model-c").
Proof.
  refine (generate_first_fallback retired_generator (lit "what?") sample_pairs
            (ExternalError (lit "The model has been decommissioned"))
            [lit "model-b"] [lit "model-d"] (lit "model-c") (lit " fine ")
            _ _ _ eq_refl eq_refl eq_refl _ eq_refl).
  - discriminate.
  - vm_compute. discriminate.
  - vm_compute. discriminate.
  - repeat constructor.
Defined.

Lemma parse_file_invariants_witness :
  parse_file two_page_world (lit "a.pdf") (lit ".pdf") default_config
    = Ok (sample_parse (lit "a.pdf") (lit ".pdf"))
  /\ parsed_invariants two_page_world (lit "a.pdf") (lit ".pdf") default_config
       (sample_parse (lit "a.pdf") (lit ".pdf")).
Proof.
  assert (H : parse_file two_page_world (lit "a.pdf") (lit ".pdf") default_config
              = Ok (sample_parse (lit "a.pdf") (lit ".pdf")))
    by (vm_compute; reflexivity).
  split; [exact H|]. exact (parse_file_invariants _ _ _ _ _ H).
Defined.

Lemma parse_file_numbering_witness :
  parse_file two_page_world (lit "deck.pptx") (lit ".pptx") default_config
    = Ok (sample_parse (lit "deck.pptx") (lit ".pptx"))
  /\ numbered_sections two_page_world (lit "deck.pptx") (lit ".pptx")
       (sample_parse (lit "deck.pptx") (lit ".pptx")).
Proof.
  assert (H : parse_file two_page_world (lit "deck.pptx") (lit ".pptx") default_config
              = Ok (sample_parse (lit "deck.pptx") (lit ".pptx")))
    by (vm_compute; reflexivity).
  split; [exact H|]. exact (parse_file_numbering _ _ _ _ _ H).
Defined.

Lemma page_rules_only_for_pdf_witness :
  parse_file two_page_world (lit "deck.pptx") (lit ".pptx") default_config
    = Ok (sample_parse (lit "deck.pptx") (lit ".pptx"))
  /\ Forall (fun p : list N * list N =>
               paginated (sample_parse (lit "deck.pptx") (lit ".pptx")) p.1
               = bool_decide (lit ".pptx" = lit ".pdf"))
       (sections_text (sample_parse (lit "deck.pptx") (lit ".pptx")))
  /\ clean_text ascii_digit (sample_parse (lit "deck.pptx") (lit ".pptx"))
     = map clean_plain (sections_text (sample_parse (lit "deck.pptx") (lit ".pptx"))).
Proof.
  assert (H : parse_file two_page_world (lit "deck.pptx") (lit ".pptx") default_config
              = Ok (sample_parse (lit "deck.pptx") (lit ".pptx")))
    by (vm_compute; reflexivity).
  split; [exact H|].
  destruct (page_rules_only_for_pdf ascii_digit _ _ _ _ _ H) as [Hp Hc].
  split; [exact Hp|]. apply Hc. discriminate.
Defined.

Lemma llm_assisted_parse_ok_witness :
  _llm_assisted_parse two_page_world (lit "data.xyz") default_config
    = Ok (sample_parse (lit "data.xyz") (lit ".xyz"))
  /\ assisted_success two_page_world (lit "data.xyz") default_config
       (sample_parse (lit "data.xyz") (lit ".xyz")).
Proof.
  assert (H : _llm_assisted_parse two_page_world (lit "data.xyz") default_config
              = Ok (sample_parse (lit "data.xyz") (lit ".xyz")))
    by (vm_compute; reflexivity).
  split; [exact H|].
  refine (proj1 (llm_assisted_parse_ok two_page_world (lit "data.xyz") default_config
                   _ _) H).
  vm_compute. discriminate.
Defined.

Lemma cleaned_pages_no_page_numbers_witness :
  Forall (fun p : list N * list N =>
            paginated (pdf_of headed_pages) p.1 = true ->
            Forall (fun l => _is_page_number ascii_digit l = false) (splitlines p.2))
    (clean_text ascii_digit (pdf_of headed_pages)).
Proof.
  apply cleaned_pages_no_page_numbers.
  intros c [E|E]%orb_prop; apply N.eqb_eq in E; subst c; reflexivity.
Defined.

Lemma few_sections_no_common_lines_witness :
  common_headers (pdf_of [lit "Title" ++ [10%N] ++ lit "Title"]) = ∅
  /\ common_footers (pdf_of [lit "Title" ++ [10%N] ++ lit "Title"]) = ∅.
Proof. apply few_sections_no_common_lines. vm_compute. reflexivity. Defined.

Lemma upload_provenance_witness :
  upload ascii_digit two_page_world (fun _ => Ok empty_index) default_config fresh
    (lit "Report.PDF") (lit "source.pdf") (lit ".pdf") false
    = Ok (sample_upload fresh (lit "Report.PDF") (lit "source.pdf") (lit ".pdf") false)
  /\ upload_parsed ascii_digit (fun _ => Ok empty_index) default_config fresh
       (lit "Report.PDF") (lit ".pdf") (sample_parse (lit "source.pdf") (lit ".pdf"))
       (sample_upload fresh (lit "Report.PDF") (lit "source.pdf") (lit ".pdf") false).
Proof.
  assert (H : upload ascii_digit two_page_world (fun _ => Ok empty_index)
                default_config fresh (lit "Report.PDF") (lit "source.pdf")
                (lit ".pdf") false
              = Ok (sample_upload fresh (lit "Report.PDF") (lit "source.pdf")
                      (lit ".pdf") false))
    by (vm_compute; reflexivity).
  split; [exact H|].
  refine (upload_provenance ascii_digit two_page_world (fun _ => Ok empty_index)
            default_config fresh (lit "Report.PDF") (lit "source.pdf") (lit ".pdf")
            _ _ _ H).
  vm_compute. reflexivity.
Defined.

Lemma upload_failure_rechunks_witness :
  upload_refused (fun _ => Ok empty_index) default_config
    (sample_upload fresh (lit "Report.PDF") (lit "source.pdf") (lit ".pdf") false)
    (lit "huge.json")
    (sample_upload
       (sample_upload fresh (lit "Report.PDF") (lit "source.pdf") (lit ".pdf") false)
       (lit "huge.json") (lit "source.json") (lit ".json") true).
Proof.
  apply (upload_failure_rechunks ascii_digit two_page_world (fun _ => Ok empty_index)
           default_config _ (lit "huge.json") (lit "source.json") (lit ".json") true).
  - left. reflexivity.
  - vm_compute. reflexivity.
Defined.

Lemma ask_rejected_query_witness :
  ask (sample_retriever []) (Ok (sample_generator 120)) (lit "what?")
  = Ok (refusal_text, []).
Proof.
  apply ask_rejected_query. right. eexists. split; reflexivity.
Defined.

Lemma ask_citations_retrieved_witness :
  ask (sample_retriever sample_results) (Ok (sample_generator 120)) (lit "what?")
    = Ok (lit "ok [chunk-00002 (page-2)]", map citation_of (drop 1 sample_results))
  /\ exists generator res,
       Ok (sample_generator 120) = Ok generator
       /\ retrieve (sample_retriever sample_results) (lit "what?")
            (Some (top_k default_config)) (Some (max_distance default_config)) = Ok res
       /\ map citation_of (drop 1 sample_results)
          = map citation_of
              (take (length (map citation_of (drop 1 sample_results))) res)
       /\ Forall (fun c => exists ds, In ds res /\ c = citation_of ds)
            (map citation_of (drop 1 sample_results)).
Proof.
  assert (H : ask (sample_retriever sample_results) (Ok (sample_generator 120))
                (lit "what?")
              = Ok (lit "ok [chunk-00002 (page-2)]",
                    map citation_of (drop 1 sample_results)))
    by (vm_compute; reflexivity).
  split; [exact H|].
  refine (ask_citations_retrieved _ _ _ _ _ H _). discriminate.
Defined.

(** A refused upload after a parsed one: the chunk of the first file is
    indexed again under the name of the second. *)
Example upload_refused_renames :
  option_map (map (fun d => (page_content d, metadata d !! lit "source_file")))
    (docs (sample_upload
             (sample_upload fresh (lit "Report.PDF") (lit "source.pdf") (lit ".pdf")
                false)
             (lit "huge.json") (lit "source.json") (lit ".json") true))
  = Some [(lit "one", Some (lit "huge.json"))].
Proof. by vm_compute. Qed.

(** A threshold that is not a number passes [validate], and under it every
    search falls back to its single nearest pair. *)
Example nan_threshold :
  validate (ConfigSpec.with_max_distance NaN) = Ok tt
  /\ retrieve (sample_retriever sorted_results) (lit "q") None (Some NaN)
     = Ok (take 1 sorted_results).
Proof. by vm_compute. Qed.

(** The ids of 100001 chunks would still be distinct: the ordinals 99999
    and 100000 are read back from their ids. *)
Example wide_ids_read_back :
  ordinal_of (chunk_id_at 99999) = 99999%N
  /\ ordinal_of (chunk_id_at 100000) = 100000%N.
Proof. by vm_compute. Qed.

End MoreWitnesses.
